(** * Stretch3_camera: transport client and visual-servo grasping

    A shallow embedding of

      - [src/stretch/agent/zmq_client.py]  (class [HomeRobotZmqClient]), and
      - [src/stretch/agent/operations/grasp_object.py]
        (class [GraspObjectOperation]),

    together with the properties of the natural-language specification
    that concern them.

    Conventions.  Python floats are idealised as rationals ([Q]); every
    arithmetic result is kept in lowest terms ([Qred]) so that values
    have one representation.  Python exceptions are the [Raise] outcome.
    [while] loops whose exit depends on the environment take a fuel
    argument and end in [OutOfFuel] when it is used up; a call that the
    environment never lets return ends in [OutOfFuel] as well. *)

From Stdlib Require Import ZArith QArith Qround Qabs Lqa List String.

From stdpp Require Import gmap strings list.

Local Open Scope Z_scope.

(** ** Floats and Python sequences *)

Definition Qltb (x y : Q) : bool := negb (Qle_bool y x).

Definition fadd (x y : Q) : Q := Qred (x + y).

Definition fsub (x y : Q) : Q := Qred (x - y).

Definition fmul (x y : Q) : Q := Qred (x * y).

Definition fdiv (x y : Q) : Q := Qred (x / y).

Definition fmax (x y : Q) : Q := if Qltb x y then y else x.

Definition fabs (x : Q) : Q := Qabs x.

(** [l[i]] with Python's rule for negative indices; [None] stands for
    the [IndexError] of an index outside [-len, len). *)
Definition py_index {A} (l : list A) (i : Z) : option A :=
  let n := Z.of_nat (length l) in
  if (0 <=? i) && (i <? n) then l !! Z.to_nat i
  else if (- n <=? i) && (i <? 0) then l !! Z.to_nat (n + i)
  else None.

(** [l[i] = x] in place, same index rule. *)
Definition py_setitem {A} (l : list A) (i : Z) (x : A) : option (list A) :=
  let n := Z.of_nat (length l) in
  if (0 <=? i) && (i <? n) then Some (<[Z.to_nat i := x]> l)
  else if (- n <=? i) && (i <? 0) then Some (<[Z.to_nat (n + i) := x]> l)
  else None.

Definition len {A} (l : list A) : Z := Z.of_nat (length l).

(** Element-wise [a - b] of two numpy vectors of one shape. *)
Definition vsub (a b : list Q) : list Q := zip_with fsub a b.

Inductive exn :=
| ValueError | AssertionError | RuntimeError (msg : string)
| IndexError | TypeError | NameError | ZeroDivisionError | AttributeError
| BdbQuit.

Inductive outcome (A : Type) :=
| Ok (a : A)
| Raise (e : exn)
| OutOfFuel.

Arguments Ok {A} a.

Arguments Raise {A} e.

Arguments OutOfFuel {A}.

#[global] Instance exn_eq_dec : EqDecision exn.
Proof. solve_decision. Defined.

(** * The transport client *)

Module ZmqClient.

(** Values stored in the outgoing action dictionary. *)
Inductive pyval :=
| PyBool (b : bool)
| PyInt (n : Z)
| PyFloat (x : Q)
| PyStr (s : string)
| PyVec (v : list Q).

(** Python truthiness, as used by [if blocking:]. *)
Definition truthy (v : pyval) : bool :=
  match v with
  | PyBool b => b
  | PyInt n => negb (n =? 0)
  | PyFloat x => negb (Qeq_bool x 0)
  | PyStr s => negb (String.eqb s "")
  | PyVec v => match v with [] => false | _ => true end
  end.

(** One decoded message of the observation stream.  The image payload
    (rgb, depth, xyz, camera matrices) plays no part in the control flow
    and is represented by [frame], an identifier of the picture. *)
Record obs_msg := ObsMsg {
  gps : list Q;
  compass : list Q;
  at_goal : bool;
  step : Z;
  control_mode : string;
  frame : nat
}.

(** What [get_observation] hands out. *)
Record Observations := MkObservations {
  o_gps : list Q;
  o_compass : list Q;
  o_frame : nat;
  o_seq_id : Z
}.

(** The fields of [HomeRobotZmqClient] that the methods below touch. *)
Record client := Client {
  _next_action : gmap string pyval;
  _iter : Z;
  _seq_id : Z;
  _obs : option obs_msg;
  _control_mode : option string;
  _last_step : Z;
  _finish : bool;
  _moving_threshold : Q;
  _angle_threshold : Q;
  _min_steps_not_moving : Z
}.

Definition with_next_action (a : gmap string pyval) (c : client) : client :=
  Client a (_iter c) (_seq_id c) (_obs c) (_control_mode c) (_last_step c)
    (_finish c) (_moving_threshold c) (_angle_threshold c) (_min_steps_not_moving c).

Definition with_iter (i : Z) (c : client) : client :=
  Client (_next_action c) i (_seq_id c) (_obs c) (_control_mode c) (_last_step c)
    (_finish c) (_moving_threshold c) (_angle_threshold c) (_min_steps_not_moving c).

Definition with_seq_id (i : Z) (c : client) : client :=
  Client (_next_action c) (_iter c) i (_obs c) (_control_mode c) (_last_step c)
    (_finish c) (_moving_threshold c) (_angle_threshold c) (_min_steps_not_moving c).

Definition with_obs (o : option obs_msg) (c : client) : client :=
  Client (_next_action c) (_iter c) (_seq_id c) o (_control_mode c) (_last_step c)
    (_finish c) (_moving_threshold c) (_angle_threshold c) (_min_steps_not_moving c).

Definition with_control_mode (m : option string) (c : client) : client :=
  Client (_next_action c) (_iter c) (_seq_id c) (_obs c) m (_last_step c)
    (_finish c) (_moving_threshold c) (_angle_threshold c) (_min_steps_not_moving c).

Definition with_last_step (s : Z) (c : client) : client :=
  Client (_next_action c) (_iter c) (_seq_id c) (_obs c) (_control_mode c) s
    (_finish c) (_moving_threshold c) (_angle_threshold c) (_min_steps_not_moving c).

(** [reset]: the part of [__init__] that fills the mutable fields. *)
Definition reset (c : client) : client :=
  Client ∅ (_iter c) (_seq_id c) None None (-1) false
    (_moving_threshold c) (_angle_threshold c) (_min_steps_not_moving c).

(** [__init__], given the three entries of [parameters["motion"]]. *)
Definition init (moving angle : Q) (min_steps : Z) : client :=
  Client ∅ 0 0 None None (-1) false moving angle min_steps.

(** [_update_obs], run by the receive loop under the observation lock. *)
Definition _update_obs (c : client) (o : obs_msg) : client :=
  let c := with_obs (Some o) c in
  let c := with_control_mode (Some (control_mode o)) c in
  let c := with_last_step (step o) c in
  if _iter c <=? 0 then with_iter (_last_step c) c else c.

(** One turn of [blocking_spin] for a message that arrived. *)
Definition blocking_spin_once (c : client) (o : obs_msg) : client :=
  _update_obs (with_seq_id (_seq_id c + 1) c) o.

(** ** The control thread and its environment *)

Inductive lock := ObsLock | ActLock.

#[global] Instance lock_eq_dec : EqDecision lock.
Proof. solve_decision. Defined.

(** What the control thread does to the shared state and to the outside
    world, in program order. *)
Inductive event :=
| Acquire (l : lock)
| Release (l : lock)
| ReadObs (o : option obs_msg) (last_step : Z)
| ClearObs
| SetAction (k : string) (v : pyval)
| Send (a : gmap string pyval)
| ClearAction
| Sleep (d : Q)
| Log (m : string)
| Breakpoint.

(** The control thread's view of the machine: the client object, the
    monotonic clock, whether it holds the observation lock, and how many
    scheduling points it has passed. *)
Record world := World {
  self : client;
  now : Q;
  obs_locked : bool;
  sched : nat
}.

(** How a session of the debugger ends: with [continue] after [d]
    seconds at its prompt, with [quit] or the end of its input, or not
    at all.  A disabled [breakpoint()] is [PdbContinue 0]. *)
Inductive pdb_session :=
| PdbContinue (d : Q)
| PdbQuit
| PdbHang.

(** The rest of the system.  At the [k]-th scheduling point of the
    control thread (a [time.sleep] or a clock reading) the receive loop
    publishes the messages [inbox k], unless the control thread holds
    the observation lock, and [lag k] is the time that passes beyond the
    requested sleep.  While the control thread holds the lock the receive
    loop is blocked in [_update_obs]; what it publishes once the lock is
    free again is part of the inbox of that later scheduling point.  A
    [breakpoint()] reached at the [k]-th scheduling point opens the
    debugger session [debugger k]. *)
Class Environment := {
  inbox : nat → list obs_msg;
  lag : nat → Q;
  debugger : nat → pdb_session
}.

(** Functions of other modules and libraries that the client calls. *)
Class Library := {
  np_linalg_norm : list Q → Q;
  angle_difference : Q → Q → Q;
  config_to_manip_command : list Q → list Q;
  GRIPPER_OPEN : Q;
  GRIPPER_CLOSED : Q
}.

Definition M (A : Type) : Type := world → outcome A * world * list event.

#[global] Instance M_ret : MRet M := λ A a w, (Ok a, w, []).

#[global] Instance M_bind : MBind M := λ A B k m w,
  match m w with
  | (Ok a, w1, t1) =>
      match k a w1 with (r, w2, t2) => (r, w2, t1 ++ t2) end
  | (Raise e, w1, t1) => (Raise e, w1, t1)
  | (OutOfFuel, w1, t1) => (OutOfFuel, w1, t1)
  end.

Definition raise {A} (e : exn) : M A := λ w, (Raise e, w, []).

Definition out_of_fuel {A} : M A := λ w, (OutOfFuel, w, []).

Definition lift {A} (r : outcome A) : M A := λ w, (r, w, []).

Definition emit (e : event) : M unit := λ w, (Ok tt, w, [e]).

Definition get_self : M client := λ w, (Ok (self w), w, []).

Definition modify_self (f : client → client) : M unit := λ w,
  (Ok tt, World (f (self w)) (now w) (obs_locked w) (sched w), []).

Definition set_obs_locked (b : bool) (w : world) : world :=
  World (self w) (now w) b (sched w).

(** [with lock: body]; the lock is released however the body ends. *)
Definition with_lock {A} (l : lock) (body : M A) : M A := λ w,
  match l with
  | ObsLock =>
      match body (set_obs_locked true w) with
      | (r, w1, t) => (r, set_obs_locked false w1, Acquire l :: t ++ [Release l])
      end
  | ActLock =>
      match body w with
      | (r, w1, t) => (r, w1, Acquire l :: t ++ [Release l])
      end
  end.

Section Client.
Context {env : Environment} {lib : Library}.

(** A scheduling point at which [d] seconds are requested to pass. *)
Definition yield (d : Q) : M unit := λ w,
  let k := sched w in
  let c := if obs_locked w then self w
           else fold_left blocking_spin_once (inbox k) (self w) in
  (Ok tt, World c (Qred (now w + d + lag k)) (obs_locked w) (S k), []).

(** [time.sleep(d)] *)
Definition sleep (d : Q) : M unit := emit (Sleep d) ;; yield d.

(** [timeit.default_timer()] *)
Definition get_now : M Q := λ w, (Ok (now w), w, []).

Definition default_timer : M Q := yield 0 ;; get_now.

(** [breakpoint()]: the debugger takes over the control thread, the
    receive loop goes on.  [continue] resumes the caller, [quit] raises
    [BdbQuit] in it, and from a session that never ends the call never
    returns. *)
Definition pdb : M unit := λ w,
  match debugger (sched w) with
  | PdbContinue d => yield d w
  | PdbQuit => (Raise BdbQuit, w, [])
  | PdbHang => (OutOfFuel, w, [])
  end.

Definition breakpoint : M unit := emit Breakpoint ;; pdb.

(** Reading [self._obs] (and [self._last_step]) in a critical section. *)
Definition read_obs : M (option obs_msg) :=
  c ← get_self;
  emit (ReadObs (_obs c) (_last_step c)) ;;
  mret (_obs c).

(** [self._next_action[k] = v] *)
Definition set_field (k : string) (v : pyval) : M unit :=
  emit (SetAction k v) ;;
  modify_self (λ c, with_next_action (<[k := v]> (_next_action c)) c).

(** *** [get_base_pose] *)

Fixpoint get_base_pose_loop (fuel : nat) (t0 : Q) : M (option obs_msg) :=
  match fuel with
  | O => out_of_fuel
  | S fuel =>
      o ← read_obs;
      match o with
      | Some o => mret (Some o)
      | None =>
          sleep (1#100) ;;
          t ← default_timer;
          if Qltb 5 (t - t0)
          then emit (Log "Timeout waiting for observation") ;; mret None
          else get_base_pose_loop fuel t0
      end
  end.

Definition get_base_pose (fuel : nat) : M (option (list Q)) :=
  r ← with_lock ObsLock (t0 ← default_timer; get_base_pose_loop fuel t0);
  match r with
  | Some o => mret (Some (gps o ++ compass o))
  | None => mret None
  end.

(** *** [get_observation] *)

Definition get_observation : M (option Observations) :=
  with_lock ObsLock (
    o ← read_obs;
    match o with
    | None => mret None
    | Some o =>
        c ← get_self;
        mret (Some (MkObservations (gps o) (compass o) (frame o) (_seq_id c)))
    end).

(** *** [_wait_for_action] *)

(** The local variables of the polling loop. *)
Record wait_vars := WaitVars {
  last_pos : option (list Q);
  last_ang : option Q;
  not_moving_count : Z
}.

(** The body of [with self._obs_lock:] in the loop; the boolean tells
    whether the [break] was taken. *)
Definition wait_poll (block_id : Z) (moving_threshold angle_threshold : Q)
    (min_steps_not_moving : Z) (goal_angle : option Q) (v : wait_vars)
  : M (wait_vars * bool) :=
  o ← read_obs;
  match o with
  | None => mret (v, false)
  | Some o =>
      let pos := gps o in
      match py_index (compass o) 0 with
      | None => raise IndexError
      | Some ang =>
          let moved_dist :=
            match last_pos v with
            | Some lp => np_linalg_norm (vsub pos lp)
            | None => 0%Q
            end in
          let angle_dist :=
            match last_ang v with
            | Some la => angle_difference ang la
            | None => 0%Q
            end in
          let not_moving :=
            bool_decide (is_Some (last_pos v))
            && Qltb moved_dist moving_threshold
            && Qltb angle_dist angle_threshold in
          let count := if not_moving then not_moving_count v + 1 else 0 in
          let v' := WaitVars (Some pos) (Some ang) count in
          c ← get_self;
          if (block_id <=? _last_step c) && at_goal o
             && (min_steps_not_moving <? count)
          then mret (v', true)
          else
            emit ClearObs ;;
            modify_self (with_obs None) ;;
            mret (v', false)
      end
  end.

Fixpoint wait_loop (fuel : nat) (block_id : Z) (timeout : Q)
    (moving_threshold angle_threshold : Q) (min_steps_not_moving : Z)
    (goal_angle : option Q) (t0 : Q) (v : wait_vars) : M unit :=
  match fuel with
  | O => out_of_fuel
  | S fuel =>
      '(v', stop) ← with_lock ObsLock
             (wait_poll block_id moving_threshold angle_threshold
                min_steps_not_moving goal_angle v);
      if (stop : bool) then mret tt
      else
        sleep (1#100) ;;
        t1 ← default_timer;
        if Qltb timeout (t1 - t0)
        then raise (RuntimeError "Timeout waiting for block")
        else wait_loop fuel block_id timeout moving_threshold angle_threshold
               min_steps_not_moving goal_angle t0 v'
  end.

(** [None] for a threshold selects the value of [parameters["motion"]]. *)
Definition _wait_for_action (fuel : nat) (block_id : Z) (timeout : Q)
    (moving_threshold angle_threshold : option Q)
    (min_steps_not_moving : option Z) (goal_angle : option Q) : M unit :=
  t0 ← default_timer;
  c ← get_self;
  let mt := default (_moving_threshold c) moving_threshold in
  let at_ := default (_angle_threshold c) angle_threshold in
  let n := default (_min_steps_not_moving c) min_steps_not_moving in
  wait_loop fuel block_id timeout mt at_ n goal_angle t0 (WaitVars None None 0).

(** *** [send_action] *)

(** [self._next_action["xyt"][2]] if the record has an ["xyt"] entry. *)
Definition goal_angle_of (a : gmap string pyval) : outcome (option Q) :=
  match a !! "xyt" with
  | Some (PyVec v) =>
      match py_index v 2 with
      | Some x => Ok (Some x)
      | None => Raise IndexError
      end
  | Some _ => Raise TypeError
  | None => Ok None
  end.

Definition send_action_locked : M (pyval * Z * option Q) :=
  c ← get_self;
  let blocking := default (PyBool false) (_next_action c !! "nav_blocking") in
  let block_id := _iter c in
  set_field "step" (PyInt block_id) ;;
  modify_self (λ c, with_iter (_iter c + 1) c) ;;
  c ← get_self;
  emit (Send (_next_action c)) ;;
  goal_angle ← lift (goal_angle_of (_next_action c));
  emit ClearAction ;;
  modify_self (with_next_action ∅) ;;
  mret (blocking, block_id, goal_angle).

Definition send_action (fuel : nat) (timeout : Q) : M unit :=
  '(blocking, block_id, goal_angle) ← with_lock ActLock send_action_locked;
  sleep (2#10) ;;
  if truthy blocking
  then
    _wait_for_action fuel block_id timeout None None (Some 1) goal_angle ;;
    sleep (2#10)
  else mret tt.

(** *** The command primitives *)

Definition arm_to (fuel : nat) (joint_angles : list Q) (blocking : bool) : M unit :=
  joint_angles ←
    (if 6 <? len joint_angles
     then
       emit (Log "arm_to: attempting to convert from full robot state to 6dof manipulation state.") ;;
       mret (config_to_manip_command joint_angles)
     else mret joint_angles);
  if len joint_angles <? 6 then raise ValueError
  else if negb (len joint_angles =? 6) then raise AssertionError
  else
    with_lock ActLock (
      set_field "joint" (PyVec joint_angles) ;;
      set_field "manip_blocking" (PyBool blocking)) ;;
    send_action fuel 10.

Definition navigate_to (fuel : nat) (xyt : list Q) (relative blocking : bool)
    (timeout : Q) : M unit :=
  if negb (len xyt =? 3) then raise AssertionError
  else
    with_lock ActLock (
      set_field "xyt" (PyVec xyt) ;;
      set_field "nav_relative" (PyBool relative) ;;
      set_field "nav_blocking" (PyBool blocking)) ;;
    send_action fuel timeout.

Definition gripper_to (fuel : nat) (target : Q) (blocking : bool) : M unit :=
  with_lock ActLock (
    set_field "gripper" (PyFloat target) ;;
    set_field "gripper_blocking" (PyBool blocking)) ;;
  send_action fuel 10 ;;
  if blocking then sleep 2 else mret tt.

Definition open_gripper (fuel : nat) (blocking : bool) : M unit :=
  gripper_to fuel GRIPPER_OPEN blocking.

Definition close_gripper (fuel : nat) (blocking : bool) : M unit :=
  gripper_to fuel GRIPPER_CLOSED blocking.

(** *** [wait_for_waypoint] and [execute_trajectory] *)

Fixpoint wait_for_waypoint_loop (fuel0 fuel : nat) (xyt : list Q) (_delay : Q)
    (pos_err_threshold rot_err_threshold timeout t0 : Q) {struct fuel} : M bool :=
  match fuel with
  | O => out_of_fuel
  | S fuel =>
      c ← get_self;
      if _finish c then mret false
      else
        t1 ← default_timer;
        curr ← get_base_pose fuel0;
        match curr with
        | None => raise TypeError
        | Some curr =>
            let pos_err := np_linalg_norm (vsub (take 2 xyt) (take 2 curr)) in
            match py_index curr (-1), py_index xyt 2 with
            | Some th, Some goal =>
                let rot_err := fabs (angle_difference th goal) in
                if Qltb pos_err pos_err_threshold && Qltb rot_err rot_err_threshold
                then mret true
                else
                  t2 ← default_timer;
                  let dt := fsub t2 t1 in
                  if Qltb timeout (t2 - t0)
                  then
                    emit (Log "[WAIT FOR WAYPOINT] WARNING! Could not reach goal in time") ;;
                    breakpoint ;;
                    mret false
                  else
                    sleep (fmax 0 (fsub _delay dt)) ;;
                    wait_for_waypoint_loop fuel0 fuel xyt _delay pos_err_threshold
                      rot_err_threshold timeout t0
            | _, _ => raise IndexError
            end
        end
  end.

(** The fuel bounds both the polling loop and the loop inside each
    [get_base_pose]. *)
Definition wait_for_waypoint (fuel : nat) (xyt : list Q) (rate : Z)
    (pos_err_threshold rot_err_threshold timeout : Q) : M bool :=
  if rate =? 0 then raise ZeroDivisionError
  else
    let _delay := fdiv 1 (inject_Z rate) in
    t0 ← default_timer;
    wait_for_waypoint_loop fuel fuel xyt _delay pos_err_threshold
      rot_err_threshold timeout t0.

(** The [for] loop of [execute_trajectory]; the result is the value of
    the loop variable [pt] after the loop, [None] while it is unbound. *)
Fixpoint execute_trajectory_loop (fuel : nat) (trajectory : list (list Q))
    (pos_err_threshold rot_err_threshold : Q) (spin_rate : Z)
    (per_waypoint_timeout : Q) (relative : bool) (pt : option (list Q))
  : M (option (list Q)) :=
  match trajectory with
  | [] => mret pt
  | p :: rest =>
      if negb ((len p =? 3) || (len p =? 2)) then raise AssertionError
      else
        navigate_to fuel p relative false 10 ;;
        wait_for_waypoint fuel p spin_rate pos_err_threshold rot_err_threshold
          per_waypoint_timeout ;;
        execute_trajectory_loop fuel rest pos_err_threshold rot_err_threshold
          spin_rate per_waypoint_timeout relative (Some p)
  end.

Definition execute_trajectory (fuel : nat) (trajectory : list (list Q))
    (pos_err_threshold rot_err_threshold : Q) (spin_rate : Z)
    (per_waypoint_timeout final_timeout : Q) (relative : bool) : M unit :=
  pt ← execute_trajectory_loop fuel trajectory pos_err_threshold
          rot_err_threshold spin_rate per_waypoint_timeout relative None;
  match pt with
  | None => raise NameError
  | Some pt => navigate_to fuel pt false true final_timeout
  end.


(** ** Vocabulary for the properties of runs *)

(** The action records put on the wire by a run. *)
Definition sends (tr : list event) : list (gmap string pyval) :=
  omap (λ e, match e with Send a => Some a | _ => None end) tr.

(** The observations that the control thread found in the shared slot. *)
Definition polled (tr : list event) : list (obs_msg * Z) :=
  omap (λ e, match e with ReadObs (Some o) ls => Some (o, ls) | _ => None end) tr.


(** A computation is [passive] when it puts nothing on the wire, leaves
    the pending action alone, and leaves a positive step counter alone. *)
Definition passive {A} (m : M A) : Prop :=
  ∀ w, sends (m w).2 = []
       ∧ _next_action (self (m w).1.2) = _next_action (self w)
       ∧ (0 < _iter (self w) → _iter (self (m w).1.2) = _iter (self w)).

(** The world right after the critical section of [send_action]. *)
Definition sent_world (w : world) : world :=
  World (with_next_action ∅ (with_iter (_iter (self w) + 1) (self w)))
    (now w) (obs_locked w) (sched w).

(** The record that [send_action] transmits from [w]. *)
Definition outgoing (w : world) : gmap string pyval :=
  <["step" := PyInt (_iter (self w))]> (_next_action (self w)).

Definition send_events (w : world) : list event :=
  [Acquire ActLock; SetAction "step" (PyInt (_iter (self w)));
   Send (outgoing w); ClearAction; Release ActLock].

(** What follows the critical section. *)
Definition after_send (fuel : nat) (timeout : Q) (blocking : pyval)
    (block_id : Z) (goal_angle : option Q) : M unit :=
  sleep (2#10) ;;
  if truthy blocking
  then
    _wait_for_action fuel block_id timeout None None (Some 1) goal_angle ;;
    sleep (2#10)
  else mret tt.

(** The world after the first critical section of a command that stores
    the given fields. *)
Definition staged (fields : list (string * pyval)) (w : world) : world :=
  World (with_next_action
           (foldl (λ m kv, <[kv.1 := kv.2]> m) (_next_action (self w)) fields)
           (self w))
    (now w) (obs_locked w) (sched w).

Definition stage_events (fields : list (string * pyval)) : list event :=
  Acquire ActLock :: map (λ kv, SetAction kv.1 kv.2) fields ++ [Release ActLock].

(** The vector that [arm_to] works with after its conversion step, and
    the warning that the conversion prints. *)
Definition arm_to_vector (q : list Q) : list Q :=
  if 6 <? len q then config_to_manip_command q else q.

Definition arm_to_warning (q : list Q) : list event :=
  if 6 <? len q
  then [Log "arm_to: attempting to convert from full robot state to 6dof manipulation state."]
  else [].

Definition arm_fields (q : list Q) (blocking : bool) : list (string * pyval) :=
  [("joint", PyVec q); ("manip_blocking", PyBool blocking)].

Definition nav_fields (xyt : list Q) (relative blocking : bool)
  : list (string * pyval) :=
  [("xyt", PyVec xyt); ("nav_relative", PyBool relative);
   ("nav_blocking", PyBool blocking)].


(** What a command does up to the end of the critical section of
    [send_action]: store its fields under the action lock, then under
    the action lock again give the record the step id, transmit it and
    clear it. *)
Definition command_events (fields : list (string * pyval)) (w : world)
  : list event :=
  stage_events fields ++ send_events (staged fields w).


(** ** The completion condition of the convergence wait *)

Definition heading (o : obs_msg) : option Q := py_index (compass o) 0.

(** The robot is observed not-moving from sample [a] to the next sample
    [b]: position delta below the moving threshold and heading delta
    below the angle threshold. *)
Definition still (mt at_ : Q) (a b : obs_msg) : bool :=
  match heading a, heading b with
  | Some ha, Some hb =>
      Qltb (np_linalg_norm (vsub (gps b) (gps a))) mt
      && Qltb (angle_difference hb ha) at_
  | _, _ => false
  end.

(** The number of most recent consecutive samples at which the robot was
    observed not-moving; the samples are listed newest first. *)
Fixpoint streak (mt at_ : Q) (newest_first : list obs_msg) : Z :=
  match newest_first with
  | b :: rest =>
      match rest with
      | a :: _ => if still mt at_ a b then streak mt at_ rest + 1 else 0
      | [] => 0
      end
  | [] => 0
  end.

(** The completion condition as the code decides it, on the samples
    polled so far (oldest first): the newest sample was taken when the
    server-reported step had reached [B], it has the at-goal flag, and
    the robot was observed not-moving at MORE than [N] consecutive
    samples up to it. *)
Definition converged (B : Z) (mt at_ : Q) (N : Z) (h : list (obs_msg * Z)) : bool :=
  match reverse h with
  | (o, ls) :: older =>
      bool_decide (is_Some (heading o))
      && (B <=? ls) && at_goal o && (N <? streak mt at_ (o :: older.*1))
  | [] => false
  end.

(** The completion condition in the words of the specification: not
    moving for AT LEAST [N] consecutive polls. *)
Definition claimed_converged (B : Z) (mt at_ : Q) (N : Z)
    (h : list (obs_msg * Z)) : bool :=
  match reverse h with
  | (o, ls) :: older =>
      bool_decide (is_Some (heading o))
      && (B <=? ls) && at_goal o && (N <=? streak mt at_ (o :: older.*1))
  | [] => false
  end.

(** The loop variables agree with the samples polled so far. *)
Definition wait_inv (mt at_ : Q) (h : list (obs_msg * Z)) (v : wait_vars) : Prop :=
  match reverse h with
  | [] => v = WaitVars None None 0
  | (o, ls) :: older =>
      last_pos v = Some (gps o) ∧ last_ang v = heading o
      ∧ is_Some (heading o)
      ∧ not_moving_count v = streak mt at_ (o :: older.*1)
  end.

(** The world after a scheduling point. *)
Definition tick (d : Q) (w : world) : world := (yield d w).1.2.

(** The part of one turn of the polling loop after the critical section. *)
Definition wait_cont (fuel : nat) (B : Z) (timeout mt at_ : Q) (N : Z)
    (g : option Q) (t0 : Q) (v : wait_vars) : M unit :=
  sleep (1#100) ;;
  t1 ← default_timer;
  if Qltb timeout (t1 - t0)
  then raise (RuntimeError "Timeout waiting for block")
  else wait_loop fuel B timeout mt at_ N g t0 v.

(** Fuel that suffices for a convergence wait with the given timeout. *)
Definition wait_fuel (timeout : Q) : nat := S (Z.to_nat (Qfloor (timeout * 100))).

(** Fuel that suffices for the loop of [get_base_pose]. *)
Definition base_pose_fuel : nat := 501.


Definition waypoint_warning : event :=
  Log "[WAIT FOR WAYPOINT] WARNING! Could not reach goal in time".

(** The navigation fields of a transmitted record. *)
Definition nav_part (a : gmap string pyval)
  : option pyval * option pyval * option pyval :=
  (a !! "xyt", a !! "nav_relative", a !! "nav_blocking").

Definition nav_command (xyt : list Q) (relative blocking : bool)
  : option pyval * option pyval * option pyval :=
  (Some (PyVec xyt), Some (PyBool relative), Some (PyBool blocking)).


(** Fuel that suffices for one waypoint poll at the given rate. *)
Definition waypoint_fuel_ok (fuel : nat) (rate : Z) (timeout : Q) : Prop :=
  (base_pose_fuel ≤ fuel)%nat
  ∧ (timeout * inject_Z rate < inject_Z (Z.of_nat fuel) - 1)%Q.









End Client.

(** ** Sample instances, for evaluating the model on concrete inputs *)

Definition l1_norm (v : list Q) : Q := foldr (λ x a, fadd (fabs x) a) 0%Q v.

Definition sample_library : Library := {|
  np_linalg_norm := l1_norm;
  angle_difference a b := fsub a b;
  config_to_manip_command v := take 6 v;
  GRIPPER_OPEN := 1#2;
  GRIPPER_CLOSED := (-1)#4
|}.

(** An environment in which the robot never reports anything. *)
Definition silent : Environment :=
  {| inbox _ := []; lag _ := 0%Q; debugger _ := PdbQuit |}.

Definition fresh_world : world := World (init (1#100) (1#100) 1) 0 false 0.

(** A report of the robot standing at the origin, at goal, with last
    completed step 5. *)
Definition at_rest (k : nat) : obs_msg :=
  ObsMsg [0; 0]%Q [0%Q] true 5 "navigation" k.

(** An environment in which such a report arrives at every scheduling
    point. *)
Definition steady : Environment :=
  {| inbox k := [at_rest k]; lag _ := 0%Q; debugger _ := PdbContinue 0 |}.

(** An environment in which it arrives at the first two scheduling
    points only. *)
Definition two_reports : Environment :=
  {| inbox k := if (k <? 2)%nat then [at_rest k] else []; lag _ := 0%Q;
     debugger _ := PdbQuit |}.


End ZmqClient.

(** * The grasp operation *)

Module GraspObject.

(** ** numpy arrays *)

(** A two-dimensional array, row after row. *)
Record image (A : Type) := Image {
  shape0 : nat;
  shape1 : nat;
  pixels : list A
}.

Arguments Image {A} shape0 shape1 pixels.

Arguments shape0 {A} i.

Arguments shape1 {A} i.

Arguments pixels {A} i.

Definition mask : Type := image bool.

(** An index into an axis of length [n], negative indices counting from
    the end; [None] for an index out of bounds. *)
Definition axis_index (n : nat) (i : Z) : option nat :=
  if (0 <=? i) && (i <? Z.of_nat n) then Some (Z.to_nat i)
  else if (- Z.of_nat n <=? i) && (i <? 0) then Some (Z.to_nat (Z.of_nat n + i))
  else None.

(** [img[y, x]] *)
Definition getitem2 {A} (img : image A) (y x : Z) : option A :=
  r ← axis_index (shape0 img) y;
  c ← axis_index (shape1 img) x;
  pixels img !! (r * shape1 img + c)%nat.

Definition img_map {A B} (f : A → B) (img : image A) : image B :=
  Image (shape0 img) (shape1 img) (f <$> pixels img).

(** [img == v] *)
Definition img_eq (img : image Z) (v : Z) : mask := img_map (Z.eqb v) img.

(** [np.bitwise_and(a, b)] and [np.bitwise_or(a, b)] of two arrays of one
    shape. *)
Definition np_bitwise_and (a b : mask) : mask :=
  Image (shape0 a) (shape1 a) (zip_with andb (pixels a) (pixels b)).

Definition np_bitwise_or (a b : mask) : mask :=
  Image (shape0 a) (shape1 a) (zip_with orb (pixels a) (pixels b)).

(** [sum(m.flatten())] *)
Definition num_pts (m : mask) : Z :=
  Z.of_nat (length (filter (λ b, b = true) (pixels m))).

(** [np.zeros_like(img).astype(bool)] *)
Definition zeros_like {A} (img : image A) : mask := img_map (λ _, false) img.

Fixpoint insert_sorted (x : Z) (l : list Z) : list Z :=
  match l with
  | [] => [x]
  | y :: t =>
      if x <? y then x :: l
      else if x =? y then l
      else y :: insert_sorted x t
  end.

(** [np.unique(img)]: the distinct values, ascending. *)
Definition np_unique (img : image Z) : list Z :=
  foldr insert_sorted [] (pixels img).

(** [arr[m]] for a boolean array [m] of the shape of [arr]. *)
Definition select {A} (arr : image A) (m : mask) : list A :=
  omap (λ p : A * bool, if p.2 then Some p.1 else None)
    (zip (pixels arr) (pixels m)).

Fixpoint insert_le (x : Q) (l : list Q) : list Q :=
  match l with
  | [] => [x]
  | y :: t => if Qle_bool x y then x :: l else y :: insert_le x t
  end.

(** [np.median] of a non-empty list. *)
Definition np_median (l : list Q) : Q :=
  let s := foldr insert_le [] l in
  let n := length s in
  if Nat.even n
  then fdiv (fadd (nth (n / 2 - 1) s 0%Q) (nth (n / 2) s 0%Q)) 2
  else nth (n / 2) s 0%Q.

(** [np.round(x).astype(int)]: to the nearest integer, halves to even. *)
Definition np_round (x : Q) : Z :=
  let f := Qfloor x in
  let r := (x - inject_Z f)%Q in
  if Qltb r (1#2) then f
  else if Qltb (1#2) r then f + 1
  else if Z.even f then f else f + 1.

(** [int(x)]: towards zero. *)
Definition py_int (x : Q) : Z := if Qltb x 0 then Qceiling x else Qfloor x.

(** [np.argwhere(m).mean(axis=0)]: mean row and mean column of the
    pixels that are set. *)
Definition mask_mean (m : mask) : Q * Q :=
  let idx := (imap (λ k (b : bool), (k, b)) (pixels m)) in
  let on := omap (λ p : nat * bool, if p.2 then Some p.1 else None) idx in
  let n := inject_Z (Z.of_nat (length on)) in
  let rows := foldr (λ k a, fadd (inject_Z (Z.of_nat (k / shape1 m))) a) 0%Q on in
  let cols := foldr (λ k a, fadd (inject_Z (Z.of_nat (k mod shape1 m))) a) 0%Q on in
  (fdiv rows n, fdiv cols n).

(** [needle in hay] on strings. *)
Fixpoint str_in (needle hay : string) : bool :=
  String.prefix needle hay
  || match hay with
     | EmptyString => false
     | String _ rest => str_in needle rest
     end.

(** ** Collaborators *)

(** [HelloStretchIdx]: positions of the joints in a joint-state vector. *)
Class HelloStretchIdx := {
  BASE_X : Z;
  LIFT : Z;
  ARM : Z;
  WRIST_PITCH : Z
}.

(** [np.cos] and [np.sin]. *)
Class Trig := {
  np_cos : Q → Q;
  np_sin : Q → Q
}.

(** [semantic_sensor.get_class_name_for_id] *)
Class SemanticSensor := {
  get_class_name_for_id : Z → option string
}.

(** The robot model and [point_global_to_base].  The inverse-kinematics
    solver returns a joint state and a success flag (the other three
    components of its result are not used). *)
Class Kinematics := {
  manip_fk : list Q → list Q * list Q;
  manip_ik_for_grasp_frame : list Q → list Q → list Q → list Q * bool;
  point_global_to_base : option (list Q) → list Q → list Q
}.

(** ** Data *)

(** The servo observation after [semantic_sensor.predict]. *)
Record servo_obs := ServoObs {
  ee_rgb_shape : nat * nat;
  ee_depth : image Q;
  semantic : image Z;
  instance : image Z;
  world_xyz : image (list Q)
}.

(** Everything one turn of the servo loop reads from the outside. *)
Record frame := Frame {
  clock : Q;                         (* timeit.default_timer() at the loop test *)
  servo : servo_obs;                 (* robot.get_servo_observation() *)
  joint_state : list Q;              (* robot.get_joint_state() *)
  detected_center : option (Q * Q);  (* gripper_aruco_detector.detect_center *)
  key : Z;                           (* the second cv2.waitKey(1) *)
  grasp_joint_state : list Q;        (* robot.get_joint_state() inside _grasp *)
  open_loop_base_pose : list Q;      (* robot.get_base_pose() in grasp_open_loop *)
  open_loop_joint_state : list Q     (* robot.get_joint_state() in grasp_open_loop *)
}.

(** The class attributes of [GraspObjectOperation], and the name of the
    object that the task manager asks for. *)
Record config := Config {
  lift_distance : Q;
  show_servo_gui : bool;
  align_x_threshold : Z;
  align_y_threshold : Z;
  track_image_center : bool;
  min_points_to_approach : Z;
  detected_center_offset_y : Z;
  lift_arm_ratio : Q;
  base_x_step : Q;
  wrist_pitch_step : Q;
  median_distance_when_grasping : Q;
  expected_network_delay : Q;
  open_loop : bool;
  target_object : string
}.

Definition default_config (target : string) : config :=
  Config (2#10) true 15 10 false 100 (-40) (1#10) (12#100) (1#10) (175#1000)
    (2#10) false target.

(** What the operation asks of the robot and of its collaborators. *)
Inductive command :=
| ArmTo (q : list Q) (blocking : bool)
| CloseGripper (blocking : bool)
| SleepFor (d : Q)
| SolveIK (target ee_rot q0 : list Q).

Definition is_motion (c : command) : bool :=
  match c with
  | ArmTo _ _ | CloseGripper _ => true
  | SleepFor _ | SolveIK _ _ _ => false
  end.

(** The state is the [_success] attribute of the operation. *)
Definition G (A : Type) : Type := bool → outcome A * bool * list command.

#[global] Instance G_ret : MRet G := λ A a s, (Ok a, s, []).

#[global] Instance G_bind : MBind G := λ A B k m s,
  match m s with
  | (Ok a, s1, t1) =>
      match k a s1 with (r, s2, t2) => (r, s2, t1 ++ t2) end
  | (Raise e, s1, t1) => (Raise e, s1, t1)
  | (OutOfFuel, s1, t1) => (OutOfFuel, s1, t1)
  end.

Definition throw {A} (e : exn) : G A := λ s, (Raise e, s, []).

Definition no_input {A} : G A := λ s, (OutOfFuel, s, []).

Definition tell (c : command) : G unit := λ s, (Ok tt, s, [c]).

Definition set_success (b : bool) : G unit := λ _, (Ok tt, b, []).

(** [x] if it is there, else the exception [e]. *)
Definition need {A} (e : exn) (x : option A) : G A :=
  match x with
  | Some a => mret a
  | None => throw e
  end.

Section Operation.
Context {idx : HelloStretchIdx} {trig : Trig} {sensor : SemanticSensor}
  {kin : Kinematics}.

(** *** [get_class_mask] *)

Definition is_target_class (target : string) (iid : Z) : bool :=
  match get_class_name_for_id iid with
  | Some name => str_in target name
  | None => false
  end.

Definition get_class_mask (cfg : config) (s : servo_obs) : mask :=
  fold_left
    (λ m iid,
       if is_target_class (target_object cfg) iid
       then np_bitwise_or m (img_eq (semantic s) iid)
       else m)
    (np_unique (semantic s))
    (zeros_like (semantic s)).

(** *** [get_target_mask] *)

(** The four accumulators of the loop; [None] in a point count stands
    for [float("-inf")]. *)
Record selection := Selection {
  target_mask : option mask;
  target_mask_pts : option Z;
  maximum_overlap_mask : option mask;
  maximum_overlap_pts : option Z
}.

(** [n > m] where [m] may be minus infinity. *)
Definition gt_ninf (n : Z) (m : option Z) : bool :=
  match m with
  | None => true
  | Some m => m <? n
  end.

(** The two candidates that the loop forms for one instance id. *)
Definition continuity_candidate (class_mask : mask) (instance_mask : image Z)
    (prev : mask) (iid : Z) : mask :=
  np_bitwise_and (np_bitwise_and (img_eq instance_mask iid) prev) class_mask.

Definition best_candidate (class_mask : mask) (instance_mask : image Z)
    (iid : Z) : mask :=
  np_bitwise_and (img_eq instance_mask iid) class_mask.

(** The part of the loop body below the early [return]: the updates of
    the accumulators for one instance id. *)
Definition select_update (class_mask : mask) (instance_mask : image Z)
    (prev_mask : option mask) (sel : selection) (iid : Z) : selection :=
  let sel :=
    match prev_mask with
    | Some prev =>
        let m := continuity_candidate class_mask instance_mask prev iid in
        if gt_ninf (num_pts m) (maximum_overlap_pts sel)
        then Selection (target_mask sel) (target_mask_pts sel)
               (Some m) (Some (num_pts m))
        else sel
    | None => sel
    end in
  let m := best_candidate class_mask instance_mask iid in
  if gt_ninf (num_pts m) (target_mask_pts sel)
  then Selection (Some m) (Some (num_pts m))
         (maximum_overlap_mask sel) (maximum_overlap_pts sel)
  else sel.

(** The body of the loop for one instance id: either the early [return]
    of the centred instance mask, or the updated accumulators. *)
Definition select_step (class_mask : mask) (instance_mask : image Z)
    (center_x center_y : Z) (prev_mask : option mask) (sel : selection)
    (iid : Z) : G (mask + selection) :=
  let current_instance_mask := img_eq instance_mask iid in
  in_class ← need IndexError (getitem2 class_mask center_y center_x);
  centered ←
    (if (in_class : bool)
     then need IndexError (getitem2 current_instance_mask center_y center_x)
     else mret false);
  if (centered : bool) then mret (inl current_instance_mask)
  else mret (inr (select_update class_mask instance_mask prev_mask sel iid)).

Fixpoint select_loop (class_mask : mask) (instance_mask : image Z)
    (center_x center_y : Z) (prev_mask : option mask) (sel : selection)
    (ids : list Z) : G (mask + selection) :=
  match ids with
  | [] => mret (inr sel)
  | iid :: rest =>
      r ← select_step class_mask instance_mask center_x center_y prev_mask sel iid;
      match r with
      | inl m => mret (inl m)
      | inr sel' =>
          select_loop class_mask instance_mask center_x center_y prev_mask
            sel' rest
      end
  end.

(** The three [return]s after the loop. *)
Definition select_final (cfg : config) (prev_mask : option mask)
    (sel : selection) : option mask :=
  if match maximum_overlap_pts sel with
     | Some n => min_points_to_approach cfg <? n
     | None => false
     end
  then maximum_overlap_mask sel
  else
    match target_mask sel with
    | Some m => Some m
    | None => prev_mask
    end.

Definition get_target_mask (cfg : config) (s : servo_obs) (center : Z * Z)
    (prev_mask : option mask) : G (option mask) :=
  let class_mask := get_class_mask cfg s in
  let instance_mask := instance s in
  let '(center_x, center_y) := center in
  r ← select_loop class_mask instance_mask center_x center_y prev_mask
         (Selection None None None None) (np_unique instance_mask);
  match r with
  | inl m => mret (Some m)
  | inr sel => mret (select_final cfg prev_mask sel)
  end.

(** *** [_grasp] *)

Definition _grasp (fr : frame) : G bool :=
  tell (CloseGripper true) ;;
  tell (SleepFor (1#2)) ;;
  let joint_state := grasp_joint_state fr in
  lift ← need IndexError (py_index joint_state LIFT);
  lifted_joint_state ←
    need IndexError (py_setitem joint_state LIFT (fadd lift (2#10)));
  tell (ArmTo lifted_joint_state true) ;;
  mret true.

(** *** [grasp_open_loop] *)

(** The method has no [return] with a value: it hands back [None]. *)
Definition grasp_open_loop (cfg : config) (fr : frame)
    (object_xyz : option (list Q)) : G (option bool) :=
  let xyt := open_loop_base_pose fr in
  let relative_object_xyz := point_global_to_base object_xyz xyt in
  let joint_state := open_loop_joint_state fr in
  let '(ee_pos, ee_rot) := manip_fk joint_state in
  tell (SolveIK relative_object_xyz ee_rot joint_state) ;;
  let '(target_joint_state, success) :=
    manip_ik_for_grasp_frame relative_object_xyz ee_rot joint_state in
  base_x ← need IndexError (py_index target_joint_state BASE_X);
  target_joint_state ←
    need IndexError (py_setitem target_joint_state BASE_X (fsub base_x (4#100)));
  if negb success then set_success false ;; mret None
  else
    arm ← need IndexError (py_index target_joint_state ARM);
    negative ←
      (if Qltb arm 0 then mret true
       else
         lift ← need IndexError (py_index target_joint_state LIFT);
         mret (Qltb lift 0));
    if (negative : bool) then set_success false ;; mret None
    else
      lift ← need IndexError (py_index target_joint_state LIFT);
      target_joint_state_lifted ←
        need IndexError
          (py_setitem target_joint_state LIFT (fadd lift (lift_distance cfg)));
      tell (ArmTo target_joint_state true) ;;
      tell (SleepFor (1#2)) ;;
      tell (CloseGripper true) ;;
      tell (SleepFor (1#2)) ;;
      tell (ArmTo target_joint_state_lifted false) ;;
      tell (ArmTo joint_state true) ;;
      set_success true ;;
      mret None.

(** [was_successful] *)
Definition was_successful (s : bool) : bool := s.

(** *** [visual_servo_to_object] *)

(** The local variables that live across turns of the loop; [None] in
    [prev_lift] stands for [float("Inf")]. *)
Record servo_vars := ServoVars {
  aligned_once : bool;
  prev_target_mask : option mask;
  success : bool;
  prev_lift : option Q;
  current_xyz : option (list Q);
  failed_counter : Z
}.

Definition initial_vars : servo_vars := ServoVars false None false None None 0.

Definition with_failed_counter (n : Z) (v : servo_vars) : servo_vars :=
  ServoVars (aligned_once v) (prev_target_mask v) (success v) (prev_lift v)
    (current_xyz v) n.

Definition with_current_xyz (p : option (list Q)) (v : servo_vars) : servo_vars :=
  ServoVars (aligned_once v) (prev_target_mask v) (success v) (prev_lift v)
    p (failed_counter v).

Definition with_success (b : bool) (v : servo_vars) : servo_vars :=
  ServoVars (aligned_once v) (prev_target_mask v) b (prev_lift v)
    (current_xyz v) (failed_counter v).

Definition with_prev_target_mask (m : option mask) (v : servo_vars) : servo_vars :=
  ServoVars (aligned_once v) m (success v) (prev_lift v)
    (current_xyz v) (failed_counter v).

Definition with_aligned_once (b : bool) (v : servo_vars) : servo_vars :=
  ServoVars b (prev_target_mask v) (success v) (prev_lift v)
    (current_xyz v) (failed_counter v).

Definition with_prev_lift (l : option Q) (v : servo_vars) : servo_vars :=
  ServoVars (aligned_once v) (prev_target_mask v) (success v) l
    (current_xyz v) (failed_counter v).

(** How a turn of the loop ends. *)
Inductive flow :=
| Continue (v : servo_vars)
| Break (v : servo_vars)
| Return (r : option bool).

(** [(center_x, center_y)] of the picture. *)
Definition image_center (s : servo_obs) : Z * Z :=
  (Z.of_nat (ee_rgb_shape s).2 / 2, Z.of_nat (ee_rgb_shape s).1 / 2).

(** [(center_x, center_y)] of the pixel that the loop tracks. *)
Definition aim_center (cfg : config) (fr : frame) : Z * Z :=
  if track_image_center cfg then image_center (servo fr)
  else
    match detected_center fr with
    | Some (c0, c1) =>
        let center_y := np_round c0 in
        let center_x := np_round c1 in
        (center_x, center_y + detected_center_offset_y cfg)
    | None => image_center (servo fr)
    end.

(** [base_x, wrist_pitch, arm, lift], bound only if not [open_loop]. *)
Definition read_joints (cfg : config) (fr : frame) : G (option (Q * Q * Q * Q)) :=
  if open_loop cfg then mret None
  else
    base_x ← need IndexError (py_index (joint_state fr) BASE_X);
    wrist_pitch ← need IndexError (py_index (joint_state fr) WRIST_PITCH);
    arm ← need IndexError (py_index (joint_state fr) ARM);
    lift ← need IndexError (py_index (joint_state fr) LIFT);
    mret (Some (base_x, wrist_pitch, arm, lift)).

(** The branch for an empty target mask. *)
Definition lost_track (cfg : config) (v : servo_vars) (fr : frame) : G flow :=
  if negb (aligned_once v) then mret (Return (Some false))
  else if failed_counter v <? 5
  then mret (Continue (with_failed_counter (failed_counter v + 1) v))
  else
    r ← grasp_open_loop cfg fr (current_xyz v);
    mret (Return r).

(** The end of the body: the move towards the object. *)
Definition approach (cfg : config) (v : servo_vars) (target : mask)
    (joints : Q * Q * Q * Q) (dx dy center_depth : Q) (fr : frame) : G flow :=
  let '(base_x, wrist_pitch, arm, lift) := joints in
  let aligned :=
    Qltb (fabs dx) (inject_Z (align_x_threshold cfg))
    && Qltb (fabs dy) (inject_Z (align_y_threshold cfg)) in
  if aligned
  then
    if Qltb center_depth (median_distance_when_grasping cfg)
    then
      b ← _grasp fr;
      mret (Break (with_success b v))
    else
      let v := with_aligned_once true v in
      let arm_component := fmul (np_cos wrist_pitch) (lift_arm_ratio cfg) in
      let lift_component := fmul (np_sin wrist_pitch) (lift_arm_ratio cfg) in
      let arm := fadd arm arm_component in
      let lift := fadd lift lift_component in
      tell (ArmTo [base_x; lift; arm; 0%Q; wrist_pitch; 0%Q] true) ;;
      tell (SleepFor (expected_network_delay cfg)) ;;
      mret (Continue (with_prev_lift (Some lift) v))
  else
    let px := fmax (1#4) (fabs (fdiv (fmul 2 dx) (inject_Z (Z.of_nat (shape1 target))))) in
    let py := fmax (1#4) (fabs (fdiv (fmul 2 dy) (inject_Z (Z.of_nat (shape0 target))))) in
    let base_x :=
      if Qltb (inject_Z (align_x_threshold cfg)) dx
      then fadd base_x (fmul (- base_x_step cfg) px)
      else if Qltb dx (inject_Z (-1 * align_x_threshold cfg))
      then fadd base_x (fmul (base_x_step cfg) px)
      else base_x in
    let wrist_pitch :=
      if Qltb (inject_Z (align_y_threshold cfg)) dy
      then fadd wrist_pitch (fmul (- wrist_pitch_step cfg) py)
      else if Qltb dy (inject_Z (-1 * align_y_threshold cfg))
      then fadd wrist_pitch (fmul (wrist_pitch_step cfg) py)
      else wrist_pitch in
    let v := with_prev_target_mask None v in
    tell (ArmTo [base_x; lift; arm; 0%Q; wrist_pitch; 0%Q] true) ;;
    tell (SleepFor (expected_network_delay cfg)) ;;
    mret (Continue (with_prev_lift (Some lift) v)).

(** The branch for a non-empty target mask. *)
Definition track (cfg : config) (v : servo_vars) (target : mask)
    (joints : option (Q * Q * Q * Q)) (center_x center_y : Z)
    (center_depth : Q) (fr : frame) : G flow :=
  let s := servo fr in
  let v := with_failed_counter 0 v in
  let mask_center := mask_mean target in
  if negb ((shape0 (world_xyz s) =? shape0 (semantic s))%nat
           && (shape1 (world_xyz s) =? shape1 (semantic s))%nat)
  then throw AssertionError
  else
    xyz ← need IndexError
             (getitem2 (world_xyz s) (py_int mask_center.1) (py_int mask_center.2));
    let v := with_current_xyz (Some xyz) v in
    if show_servo_gui cfg && (Z.land (key fr) 255 =? 113) then mret (Break v)
    else if min_points_to_approach cfg <? num_pts target
    then
      let median_object_depth :=
        fdiv (np_median (select (ee_depth s) target)) 1000 in
      let dx := fsub mask_center.2 (inject_Z center_x) in
      let dy := fsub mask_center.1 (inject_Z center_y) in
      center_in_mask ← need IndexError (getitem2 target center_y center_x);
      let v := with_prev_target_mask (Some target) v in
      joints ← need NameError joints;
      if (center_in_mask : bool)
         && (Qltb center_depth (median_distance_when_grasping cfg)
             || Qltb median_object_depth (median_distance_when_grasping cfg))
      then
        b ← _grasp fr;
        mret (Break (with_success b v))
      else approach cfg v target joints dx dy center_depth fr
    else if Qltb center_depth (median_distance_when_grasping cfg)
    then
      b ← _grasp fr;
      mret (Continue (with_success b v))
    else mret (Continue v).

(** One turn of the [while] loop. *)
Definition servo_body (cfg : config) (v : servo_vars) (fr : frame) : G flow :=
  let s := servo fr in
  joints ← read_joints cfg fr;
  let '(center_x, center_y) := aim_center cfg fr in
  target ← get_target_mask cfg s (center_x, center_y) (prev_target_mask v);
  depth ← need IndexError (getitem2 (ee_depth s) center_y center_x);
  let center_depth := fdiv depth 1000 in
  target ← need AttributeError target;
  if num_pts target =? 0 then lost_track cfg v fr
  else track cfg v target joints center_x center_y center_depth fr.

(** The loop runs on the frames that the robot delivers; it ends in
    [OutOfFuel] if they run out before the loop ends. *)
Fixpoint servo_loop (cfg : config) (max_duration t0 : Q) (v : servo_vars)
    (frames : list frame) : G (option bool) :=
  match frames with
  | [] => no_input
  | fr :: rest =>
      if Qltb (clock fr - t0) max_duration
      then
        f ← servo_body cfg v fr;
        match f with
        | Continue v' => servo_loop cfg max_duration t0 v' rest
        | Break v' => mret (Some (success v'))
        | Return r => mret r
        end
      else mret (Some (success v))
  end.

Definition visual_servo_to_object (cfg : config) (max_duration t0 : Q)
    (frames : list frame) : G (option bool) :=
  servo_loop cfg max_duration t0 initial_vars frames.

(** ** Vocabulary for the properties of the operation *)

(** A computation is [quiet] when it issues no command and leaves the
    success flag alone. *)
Definition quiet {A} (m : G A) : Prop := ∀ s, ∃ r, m s = (r, s, []).

(** What a turn of the loop perceives before it branches: the joint
    values, the target mask that [get_target_mask] selects, and the raw
    depth at the aim pixel, none of them raising. *)
Definition perceives (cfg : config) (v : servo_vars) (fr : frame)
    (joints : option (Q * Q * Q * Q)) (m : mask) (depth : Q) : Prop :=
  (∀ s, read_joints cfg fr s = (Ok joints, s, []))
  ∧ (∀ s, get_target_mask cfg (servo fr) (aim_center cfg fr)
            (prev_target_mask v) s = (Ok (Some m), s, []))
  ∧ getitem2 (ee_depth (servo fr)) (aim_center cfg fr).2 (aim_center cfg fr).1
    = Some depth.

(** A frame on which the selected target mask is empty. *)
Definition empty_mask_frame (cfg : config) (v : servo_vars) (fr : frame) : Prop :=
  ∃ joints m depth, perceives cfg v fr joints m depth ∧ num_pts m = 0.

(** The inputs of a turn, beyond what [perceives] says, are in order:
    the point field has the shape of the label map and a point at the
    centre of the mask, and nobody pressed [q] in the viewer. *)
Definition turn_in_order (cfg : config) (fr : frame) (m : mask) : Prop :=
  ((shape0 (world_xyz (servo fr)) =? shape0 (semantic (servo fr)))%nat
   && (shape1 (world_xyz (servo fr)) =? shape1 (semantic (servo fr)))%nat = true)
  ∧ is_Some (getitem2 (world_xyz (servo fr)) (py_int (mask_mean m).1)
               (py_int (mask_mean m).2))
  ∧ show_servo_gui cfg && (Z.land (key fr) 255 =? 113) = false.

(** [m] is a largest one among the masks [f iid] for the ids in [ids]. *)
Definition largest_of (f : Z → mask) (ids : list Z) (m : mask) : Prop :=
  ∃ iid, iid ∈ ids ∧ m = f iid ∧ ∀ j, j ∈ ids → num_pts (f j) ≤ num_pts m.

(** An accumulator pair (mask, point count) after the ids [done]: unset
    before the first id, afterwards a largest mask and its count. *)
Definition acc_inv (f : Z → mask) (done : list Z) (mo : option mask)
    (no : option Z) : Prop :=
  match mo, no with
  | Some m, Some n => n = num_pts m ∧ largest_of f done m
  | None, None => done = []
  | _, _ => False
  end.

(** The accumulators of [get_target_mask] after the ids [done]. *)
Definition select_inv (cm : mask) (im : image Z) (prev : option mask)
    (done : list Z) (sel : selection) : Prop :=
  acc_inv (best_candidate cm im) done (target_mask sel) (target_mask_pts sel)
  ∧ match prev with
    | Some p =>
        acc_inv (continuity_candidate cm im p) done
          (maximum_overlap_mask sel) (maximum_overlap_pts sel)
    | None => maximum_overlap_mask sel = None ∧ maximum_overlap_pts sel = None
    end.

End Operation.

(** ** Sample instances, for evaluating the model on concrete inputs *)

Definition sample_idx : HelloStretchIdx :=
  {| BASE_X := 0; LIFT := 3; ARM := 4; WRIST_PITCH := 7 |}.

Definition sample_trig : Trig := {| np_cos _ := 1%Q; np_sin _ := 0%Q |}.

(** Label 7 is a cup, label 3 a table, every other label is unknown. *)
Definition sample_sensor : SemanticSensor :=
  {| get_class_name_for_id iid :=
       if iid =? 7 then Some "coffee cup"
       else if iid =? 3 then Some "table"
       else None |}.

(** A solver that claims success with an arm extension of -0.01. *)
Definition sample_kinematics : Kinematics :=
  {| manip_fk _ := ([0; 0; 0]%Q, [0; 0; 0; 1]%Q);
     manip_ik_for_grasp_frame _ _ _ :=
       ([0; 0; 0; 1 # 2; (-1) # 100; 0; 0; 0; 0; 0; 0]%Q, true);
     point_global_to_base xyz _ := default [] xyz |}.

Definition cup_config : config := default_config "cup".

Definition uniform {A} (rows cols : nat) (a : A) : image A :=
  Image rows cols (replicate (rows * cols) a).

Definition zero_joints : list Q := replicate 11 0%Q.

(** A 12 x 12 picture filled by one cup, [depth] millimetres away. *)
Definition cup_frame (depth : Q) : frame :=
  Frame 1
    (ServoObs (12, 12)%nat (uniform 12 12 depth) (uniform 12 12 7)
       (uniform 12 12 1) (uniform 12 12 [0; 0; 1]%Q))
    zero_joints None 0 zero_joints [0; 0; 0]%Q zero_joints.

(** A 6 x 6 picture filled by one cup: 36 pixels, fewer than an approach
    needs. *)
Definition small_cup_frame (depth : Q) : frame :=
  Frame 1
    (ServoObs (6, 6)%nat (uniform 6 6 depth) (uniform 6 6 7)
       (uniform 6 6 1) (uniform 6 6 [0; 0; 1]%Q))
    zero_joints None 0 zero_joints [0; 0; 0]%Q zero_joints.

(** A 1 x 2 picture that shows a table only. *)
Definition table_frame : frame :=
  Frame 1
    (ServoObs (1, 2)%nat (uniform 1 2 200%Q) (uniform 1 2 3)
       (Image 1 2 [1; 2]) (uniform 1 2 [0; 0; 1]%Q))
    zero_joints None 0 zero_joints [0; 0; 0]%Q zero_joints.

(** The loop variables after a step in which the controller was aligned
    and then moved off the object. *)
Definition aligned_vars : servo_vars :=
  ServoVars true None false (Some 0%Q) (Some [1; 2; 3]%Q) 0.

(** Two cups side by side in a 1 x 120 picture: instance 1 on the first
    110 pixels, instance 2 on the last 10. *)
Definition two_cups : servo_obs :=
  ServoObs (1, 120)%nat (uniform 1 120 400%Q) (uniform 1 120 7)
    (Image 1 120 (replicate 110 1 ++ replicate 10 2))
    (uniform 1 120 [0; 0; 1]%Q).

(** The mask of the turn before: the first 105 pixels. *)
Definition previous_mask : mask :=
  Image 1 120 (replicate 105 true ++ replicate 15 false).

End GraspObject.

(** * The transport client: modes and postures *)

Module ZmqModes.
Import ZmqClient.

(** [in_navigation_mode] and [in_manipulation_mode] *)
Definition in_navigation_mode (c : client) : bool :=
  bool_decide (_control_mode c = Some "navigation").

Definition in_manipulation_mode (c : client) : bool :=
  bool_decide (_control_mode c = Some "manipulation").

Section Client.
Context {env : Environment} {lib : Library}.

(** The critical section of a turn of [_wait_for_mode]: the test
    [self._control_mode == mode]. *)
Definition mode_poll (mode : string) : M bool :=
  c ← get_self;
  mret (bool_decide (_control_mode c = Some mode)).

(** The error message also carries the seconds that have passed, which
    are left out here. *)
Fixpoint wait_for_mode_loop (fuel : nat) (mode : string) (timeout t0 : Q)
  : M unit :=
  match fuel with
  | O => out_of_fuel
  | S fuel =>
      stop ← with_lock ObsLock (mode_poll mode);
      if (stop : bool) then mret tt
      else
        sleep (1#10) ;;
        t1 ← default_timer;
        if Qltb timeout (t1 - t0)
        then raise (RuntimeError ("Timeout waiting for mode " ++ mode))
        else wait_for_mode_loop fuel mode timeout t0
  end.

Definition _wait_for_mode (fuel : nat) (mode : string) (timeout : Q) : M unit :=
  t0 ← default_timer;
  wait_for_mode_loop fuel mode timeout t0.





(** ** Vocabulary *)

(** Fuel that suffices for [_wait_for_mode] with the given timeout. *)
Definition mode_fuel (timeout : Q) : nat := S (Z.to_nat (Qfloor (timeout * 10))).

(** Events by which the control thread looks at or empties the
    observation slot. *)
Definition uses_obs (e : event) : bool :=
  match e with
  | ReadObs _ _ | ClearObs => true
  | _ => false
  end.




(** The pauses of a run, in order. *)
Definition pauses (tr : list event) : list Q :=
  omap (λ e, match e with Sleep d => Some d | _ => None end) tr.

(** The step ids of the records put on the wire by a run. *)
Definition step_ids (tr : list event) : list (option pyval) :=
  (λ a : gmap string pyval, a !! "step") <$> sends tr.

(** The step counter after the messages [msgs], for a client whose
    counter is not positive yet: the step of the first message with a
    positive step, or else the step of the last message. *)
Fixpoint synced_iter (i : Z) (msgs : list obs_msg) : Z :=
  match msgs with
  | [] => i
  | o :: rest => if 0 <? step o then step o else synced_iter (step o) rest
  end.

End Client.

(** An environment in which the robot reports manipulation mode from the
    third scheduling point on, and navigation mode before. *)
Definition mode_change : Environment :=
  {| inbox k := [ObsMsg [0; 0]%Q [0%Q] true 5
                   (if (k <? 3)%nat then "navigation" else "manipulation") k];
     lag _ := 0%Q;
     debugger _ := PdbQuit |}.

End ZmqModes.

(** * The grasp operation: [run] *)

Module GraspRun.
Import GraspObject.

(** More of the libraries: the gripper entry of a joint-state vector,
    [np.arctan2] and [np.pi]. *)
Class GraspLibrary := {
  GRIPPER : Z;
  np_arctan2 : Q → Q → Q;
  np_pi : Q
}.

(** The class attributes that [run] reads, next to those of the servo
    loop. *)
Record run_config := RunConfig {
  use_pitch_from_vertical : bool;
  servo_to_grasp : bool;
  show_object_to_grasp : bool;
  servo_config : config
}.

Definition default_run_config (target : string) : run_config :=
  RunConfig true false false (default_config target).

(** What a call of [run] reads from the outside. *)
Record run_input := RunInput {
  run_joint_state : list Q;      (* robot.get_joint_state() *)
  run_base_pose : list Q;        (* robot.get_base_pose() *)
  object_xyz : list Q;           (* current_object.point_cloud.mean(axis=0) *)
  servo_t0 : Q;                  (* timeit.default_timer() at the start of the servo loop *)
  servo_frames : list frame;     (* what the servo loop reads, turn by turn *)
  final_frame : frame            (* what the last grasp_open_loop reads *)
}.

Inductive run_command :=
| Robot (c : command)
| OpenGripper (blocking : bool)
| ShowInstance.

(** In [run] the attribute [_success] can also hold [None]. *)
Definition R (A : Type) : Type :=
  option bool → outcome A * option bool * list run_command.

#[global] Instance R_ret : MRet R := λ A a s, (Ok a, s, []).

#[global] Instance R_bind : MBind R := λ A B k m s,
  match m s with
  | (Ok a, s1, t1) =>
      match k a s1 with (r, s2, t2) => (r, s2, t1 ++ t2) end
  | (Raise e, s1, t1) => (Raise e, s1, t1)
  | (OutOfFuel, s1, t1) => (OutOfFuel, s1, t1)
  end.

Definition fail {A} (e : exn) : R A := λ s, (Raise e, s, []).

Definition say (c : run_command) : R unit := λ s, (Ok tt, s, [c]).

Definition assign (v : option bool) : R unit := λ _, (Ok tt, v, []).

Definition read_success : R (option bool) := λ s, (Ok s, s, []).

Definition want {A} (e : exn) (x : option A) : R A :=
  match x with
  | Some a => mret a
  | None => fail e
  end.

(** The methods of [GraspObject] never read [_success]; a call has
    assigned it exactly when its final value does not depend on the
    value at the start. *)
Definition assigns {A} (m : G A) : bool :=
  bool_decide ((m true).1.2 = (m false).1.2).

(** A call of such a method from [run]. *)
Definition call {A} (m : G A) : R A := λ s,
  match m (default false s) with
  | (r, b, t) => (r, if assigns m then Some b else s, Robot <$> t)
  end.

(** Python truthiness of [_success]. *)
Definition succeeded (s : option bool) : bool := default false s.

Section Operation.
Context {idx : HelloStretchIdx} {trig : Trig} {sensor : SemanticSensor}
  {kin : Kinematics} {glib : GraspLibrary}.

(** The angle by which the wrist is pitched before the grasp. *)
Definition pitch_from_vertical (rc : run_config) (joint_state : list Q)
    (relative_object_xyz : list Q) : R Q :=
  if use_pitch_from_vertical rc
  then
    let '(ee_pos, ee_rot) := manip_fk joint_state in
    e1 ← want IndexError (py_index ee_pos 1);
    r1 ← want IndexError (py_index relative_object_xyz 1);
    let dy := fabs (fsub e1 r1) in
    e2 ← want IndexError (py_index ee_pos 2);
    r2 ← want IndexError (py_index relative_object_xyz 2);
    let dz := fabs (fsub e2 r2) in
    mret (np_arctan2 dy dz)
  else mret 0%Q.

Definition run (rc : run_config) (inp : run_input) : R unit :=
  assign (Some false) ;;
  (if show_object_to_grasp rc then say ShowInstance else mret tt) ;;
  let joint_state := run_joint_state inp in
  g ← want IndexError (py_index joint_state GRIPPER);
  (if Qltb g 0 then say (OpenGripper true) else mret tt) ;;
  let xyt := run_base_pose inp in
  let relative_object_xyz := point_global_to_base (Some (object_xyz inp)) xyt in
  pitch ← pitch_from_vertical rc joint_state relative_object_xyz;
  joint_state ←
    want IndexError
      (py_setitem joint_state WRIST_PITCH (fadd (fdiv (- np_pi) 2) pitch));
  say (Robot (ArmTo joint_state true)) ;;
  (if servo_to_grasp rc
   then
     r ← call (visual_servo_to_object (servo_config rc) 120 (servo_t0 inp)
                 (servo_frames inp));
     assign r
   else mret tt) ;;
  s ← read_success;
  if negb (succeeded s)
  then
    call (grasp_open_loop (servo_config rc) (final_frame inp)
            (Some (object_xyz inp))) ;;
    mret tt
  else mret tt.

(** ** Vocabulary *)

(** The part of [run] before the servo loop: the posture from which the
    grasp starts. *)
Definition pregrasp (rc : run_config) (inp : run_input) : R unit :=
  assign (Some false) ;;
  (if show_object_to_grasp rc then say ShowInstance else mret tt) ;;
  g ← want IndexError (py_index (run_joint_state inp) GRIPPER);
  (if Qltb g 0 then say (OpenGripper true) else mret tt) ;;
  pitch ← pitch_from_vertical rc (run_joint_state inp)
             (point_global_to_base (Some (object_xyz inp)) (run_base_pose inp));
  joint_state ←
    want IndexError
      (py_setitem (run_joint_state inp) WRIST_PITCH
         (fadd (fdiv (- np_pi) 2) pitch));
  say (Robot (ArmTo joint_state true)).

(** The rest of [run]: the servo loop, if it is switched on, and the
    open-loop grasp, if [_success] is not true by then. *)
Definition grasp_phase (rc : run_config) (inp : run_input) : R unit :=
  (if servo_to_grasp rc
   then
     r ← call (visual_servo_to_object (servo_config rc) 120 (servo_t0 inp)
                 (servo_frames inp));
     assign r
   else mret tt) ;;
  s ← read_success;
  if negb (succeeded s)
  then
    call (grasp_open_loop (servo_config rc) (final_frame inp)
            (Some (object_xyz inp))) ;;
    mret tt
  else mret tt.

(** The servo loop and the open-loop grasp as [run] calls them. *)
Definition servo_of (rc : run_config) (inp : run_input) : G (option bool) :=
  visual_servo_to_object (servo_config rc) 120 (servo_t0 inp) (servo_frames inp).

Definition open_loop_of (rc : run_config) (inp : run_input) : G (option bool) :=
  grasp_open_loop (servo_config rc) (final_frame inp) (Some (object_xyz inp)).

(** The inverse-kinematics problems that a run has posed. *)
Definition ik_calls (t : list command) : list (list Q * list Q * list Q) :=
  omap (λ c, match c with
             | SolveIK target rot q0 => Some (target, rot, q0)
             | _ => None
             end) t.

(** How often a run has closed the gripper. *)
Definition gripper_closings (t : list command) : nat :=
  length (filter (λ c, match c with CloseGripper _ => true | _ => false end = true) t).

(** What a turn of the servo loop may do, as far as the result of the
    loop depends on it: a turn after which the loop goes on or ends
    leaves [_success] alone, poses no inverse-kinematics problem and
    sets the local [success] only together with closing the gripper; a
    turn that returns either returns [False] without any command or
    returns [None] after an inverse-kinematics problem. *)
Definition turn_ok (v : servo_vars) (s : bool)
    (run : outcome flow * bool * list command) : Prop :=
  match run.1.1 with
  | Ok (Continue v') | Ok (Break v') =>
      run.1.2 = s ∧ ik_calls run.2 = []
      ∧ (success v' = true → success v = true ∨ CloseGripper true ∈ run.2)
  | Ok (Return r) =>
      (r = Some false ∧ run.2 = [] ∧ run.1.2 = s)
      ∨ (r = None ∧ ik_calls run.2 ≠ [])
  | _ => True
  end.

Definition robot_commands (t : list run_command) : list command :=
  omap (λ c, match c with Robot c => Some c | _ => None end) t.

(** The joint vectors of the arm commands of a run. *)
Definition arm_targets (t : list command) : list (list Q) :=
  omap (λ c, match c with ArmTo q _ => Some q | _ => None end) t.

End Operation.

Definition sample_grasp_library : GraspLibrary :=
  {| GRIPPER := 5; np_arctan2 _ _ := 0%Q; np_pi := 22 # 7 |}.

(** A solver that finds a grasp 0.3 m up and 0.2 m out. *)
Definition reachable_kinematics : Kinematics :=
  {| manip_fk _ := ([0; 0; 0]%Q, [0; 0; 0; 1]%Q);
     manip_ik_for_grasp_frame _ _ _ :=
       ([0; 0; 0; 3 # 10; 2 # 10; 0; 0; 0; 0; 0; 0]%Q, true);
     point_global_to_base xyz _ := default [] xyz |}.

(** The default attributes with the [open_loop] switch set. *)
Definition open_loop_config (target : string) : config :=
  Config (2#10) true 15 10 false 100 (-40) (1#10) (12#100) (1#10) (175#1000)
    (2#10) true target.

(** [run] with the servo loop switched on. *)
Definition servo_run_config (target : string) : run_config :=
  RunConfig true true false (default_config target).

(** A 12 x 12 picture that shows a table only. *)
Definition bare_table : frame :=
  Frame 1
    (ServoObs (12, 12)%nat (uniform 12 12 400%Q) (uniform 12 12 3)
       (uniform 12 12 1) (uniform 12 12 [0; 0; 1]%Q))
    zero_joints None 0 zero_joints [0; 0; 0]%Q zero_joints.

(** A run in which the servo loop sees the cup 0.4 m away, aligns, and
    then loses it for six turns. *)
Definition lost_object_input : run_input :=
  RunInput zero_joints [0; 0; 0]%Q [1; 2; 3]%Q 0
    [cup_frame 400; bare_table; bare_table; bare_table; bare_table;
     bare_table; bare_table]
    bare_table.

End GraspRun.

(** * The search operations: object classes and matching *)

Module SearchOperation.
Import GraspObject.

(** The classes of search operations.  The file defines two classes
    named [SearchForObjectOnFloorOperation]; the name ends up bound to
    the second one, which is the one meant here. *)
Inductive search_class :=
| ManagedSearchOperation
| SearchForReceptacleOperation
| SearchForObjectOnFloorOperation.

(** The attributes of a search operation that matching depends on.  Of
    the cached feature vector only its presence matters here.
    [object_class_attribute] is the attribute [object_class] that
    [SearchForObjectOnFloorOperation] declares, with the value [None];
    it takes the place of the property of the base class there. *)
Record search_op := SearchOp {
  op_class : search_class;
  _object_class : option string;
  _object_class_feature : option nat;
  object_class_attribute : option string;
  match_method : string
}.

(** A fresh operation, as the class attributes and [__init__] leave it. *)
Definition new_search_op (k : search_class) (method : string) : search_op :=
  SearchOp k None None None method.

(** Reading [self.object_class]: the property of the base class, which
    raises when [_object_class] is not set, or, on
    [SearchForObjectOnFloorOperation], the attribute of that name. *)
Definition object_class (op : search_op) : outcome (option string) :=
  match op_class op with
  | SearchForObjectOnFloorOperation => Ok (object_class_attribute op)
  | _ =>
      match _object_class op with
      | Some c => Ok (Some c)
      | None => Raise ValueError
      end
  end.

(** [set_target_object_class]; its warning quotes [self.object_class]
    before anything is assigned. *)
Definition set_target_object_class (c : string) (op : search_op)
  : outcome unit * search_op :=
  match object_class op with
  | Ok _ =>
      (Ok tt, SearchOp (op_class op) (Some c) None (object_class_attribute op)
                (match_method op))
  | Raise e => (Raise e, op)
  | OutOfFuel => (OutOfFuel, op)
  end.

(** [needle in hay] where either side may be [None]: [None] on the right
    is not iterable, [None] on the left is no string. *)
Definition py_in (needle hay : option string) : outcome bool :=
  match hay, needle with
  | Some h, Some n => Ok (str_in n h)
  | _, _ => Raise TypeError
  end.

(** [is_name_match], which [SearchForReceptacleOperation] overrides:
    [self.object_class in name], and there
    ["box" in name or "tray" in name]. *)
Definition is_name_match (op : search_op) (name : option string) : outcome bool :=
  match op_class op with
  | SearchForReceptacleOperation =>
      match name with
      | Some n => Ok (str_in "box" n || str_in "tray" n)
      | None => Raise TypeError
      end
  | _ =>
      match object_class op with
      | Ok c => py_in c name
      | Raise e => Raise e
      | OutOfFuel => OutOfFuel
      end
  end.

Section Matching.
Context {sensor : SemanticSensor}.

(** What matching by feature does is decided outside these files. *)
Context (is_match_by_feature : search_op → outcome (option bool) * search_op).

(** [is_match] for an instance of the given category; a method without
    [return] hands back [None]. *)
Definition is_match (op : search_op) (category_id : Z)
  : outcome (option bool) * search_op :=
  if String.eqb (match_method op) "feature" then is_match_by_feature op
  else if String.eqb (match_method op) "class"
  then
    match is_name_match op (get_class_name_for_id category_id) with
    | Ok b => (Ok (Some b), op)
    | Raise e => (Raise e, op)
    | OutOfFuel => (OutOfFuel, op)
    end
  else (Ok None, op).

End Matching.

(** The statement of [SearchForObjectOnFloorOperation.run] that sets the
    class: [if self.object_class is None:
    self.set_target_object_class(self.manager.target_object)]. *)
Definition run_sets_class (target_object : string) (op : search_op)
  : outcome unit * search_op :=
  match object_class op with
  | Ok None => set_target_object_class target_object op
  | Ok (Some _) => (Ok tt, op)
  | Raise e => (Raise e, op)
  | OutOfFuel => (OutOfFuel, op)
  end.

(** Calls of [set_target_object_class], one after the other, whatever
    they raise. *)
Definition set_classes (cs : list string) (op : search_op) : search_op :=
  fold_left (λ o c, (set_target_object_class c o).2) cs op.

End SearchOperation.

(** * The plan compiler: from a syntax tree to a tree of calls *)

Module PlanCompiler.

(** A syntax tree of [ast], as far as [build_tree] tells nodes apart.  A
    call is kept as its source text, as [ast.unparse] gives it. *)
Inductive expr :=
| Call (source : string)
| OtherExpr.

#[local] Unset Elimination Schemes.

Inductive stmt :=
| If (test : expr) (body orelse : list stmt)
| Expr (value : expr)
| FunctionDef (body : list stmt)
| OtherStmt.

Inductive node :=
| Module (body : list stmt)
| Stmt (s : stmt).

Inductive TreeNode :=
| Node (function_call : string) (success failure : option TreeNode).

#[local] Set Elimination Schemes.

(** [build_tree] on a statement. *)
Fixpoint build_tree_stmt (s : stmt) : outcome TreeNode :=
  match s with
  | If test body orelse =>
      match test with
      | Call function_call =>
          let success :=
            match body with
            | b :: _ =>
                match build_tree_stmt b with
                | Ok t => Ok (Some t)
                | Raise e => Raise e
                | OutOfFuel => OutOfFuel
                end
            | [] => Ok None
            end in
          match success with
          | Ok success =>
              let failure :=
                match orelse with
                | b :: _ =>
                    match build_tree_stmt b with
                    | Ok t => Ok (Some t)
                    | Raise e => Raise e
                    | OutOfFuel => OutOfFuel
                    end
                | [] => Ok None
                end in
              match failure with
              | Ok failure => Ok (Node function_call success failure)
              | Raise e => Raise e
              | OutOfFuel => OutOfFuel
              end
          | Raise e => Raise e
          | OutOfFuel => OutOfFuel
          end
      | OtherExpr => Raise ValueError
      end
  | Expr value =>
      match value with
      | Call function_call => Ok (Node function_call None None)
      | OtherExpr => Raise ValueError
      end
  | FunctionDef body =>
      match body with
      | b :: _ => build_tree_stmt b
      | [] => Raise ValueError
      end
  | OtherStmt => Raise ValueError
  end.

Definition build_tree (n : node) : outcome TreeNode :=
  match n with
  | Module body =>
      match body with
      | b :: _ => build_tree_stmt b
      | [] => Raise ValueError
      end
  | Stmt s => build_tree_stmt s
  end.

(** ** Vocabulary *)

(** The statement with every block cut down to its first statement. *)
Fixpoint first_only (s : stmt) : stmt :=
  match s with
  | If test body orelse =>
      If test
        (match body with b :: _ => [first_only b] | [] => [] end)
        (match orelse with b :: _ => [first_only b] | [] => [] end)
  | Expr value => Expr value
  | FunctionDef body =>
      FunctionDef (match body with b :: _ => [first_only b] | [] => [] end)
  | OtherStmt => OtherStmt
  end.

Definition first_only_node (n : node) : node :=
  match n with
  | Module body => Module (match body with b :: _ => [first_only b] | [] => [] end)
  | Stmt s => Stmt (first_only s)
  end.

(** The plan [go_to('kitchen')] followed by [pick('cup')]. *)
Definition two_step_plan : node :=
  Module [Expr (Call "go_to('kitchen')"); Expr (Call "pick('cup')")].

End PlanCompiler.

(** * Properties *)

Lemma Qltb_lt (x y : Q) : Qltb x y = true ↔ (x < y)%Q.
Proof.
  unfold Qltb. rewrite negb_true_iff. split.
  - intros H. apply Qnot_le_lt. intros Hle.
    apply Qle_bool_iff in Hle. congruence.
  - intros H. destruct (Qle_bool y x) eqn:E; [|done].
    apply Qle_bool_iff in E. exfalso. by apply (Qlt_not_le x y).
Qed.

Lemma Qltb_ge (x y : Q) : Qltb x y = false ↔ (y <= x)%Q.
Proof.
  unfold Qltb. rewrite negb_false_iff. apply Qle_bool_iff.
Qed.

(** * Properties of the transport client *)

Module ZmqClientProps.
Import ZmqClient.

Section Facts.
Context {env : Environment} {lib : Library}.

Lemma sends_app (t1 t2 : list event) : sends (t1 ++ t2) = sends t1 ++ sends t2.
Proof. apply omap_app. Qed.

Lemma polled_app (t1 t2 : list event) : polled (t1 ++ t2) = polled t1 ++ polled t2.
Proof. apply omap_app. Qed.

Lemma run_bind {A B} (m : M A) (k : A → M B) (w : world) :
  (m ≫= k) w =
  match m w with
  | (Ok a, w1, t1) => match k a w1 with (r, w2, t2) => (r, w2, t1 ++ t2) end
  | (Raise e, w1, t1) => (Raise e, w1, t1)
  | (OutOfFuel, w1, t1) => (OutOfFuel, w1, t1)
  end.
Proof. reflexivity. Qed.

Lemma passive_ret {A} (a : A) : passive (mret a).
Proof. by intros w. Qed.

Lemma passive_raise {A} (e : exn) : passive (@raise A e).
Proof. by intros w. Qed.

Lemma passive_out_of_fuel {A} : passive (@out_of_fuel A).
Proof. by intros w. Qed.

Lemma passive_get_self : passive get_self.
Proof. by intros w. Qed.

Lemma passive_get_now : passive get_now.
Proof. by intros w. Qed.

Lemma passive_bind {A B} (m : M A) (k : A → M B) :
  passive m → (∀ a, passive (k a)) → passive (m ≫= k).
Proof.
  intros Hm Hk w. rewrite run_bind.
  specialize (Hm w). destruct (m w) as [[r w1] t1]. simpl in Hm.
  destruct r as [a| |]; [|done..].
  specialize (Hk a w1). destruct (k a w1) as [[r2 w2] t2]. simpl in *.
  destruct Hm as (Hs1 & Hn1 & Hi1), Hk as (Hs2 & Hn2 & Hi2).
  rewrite sends_app, Hs1, Hs2, Hn2, Hn1. split_and!; [done..|].
  intros Hpos. rewrite Hi2; rewrite Hi1; done.
Qed.

Lemma passive_with_lock {A} (l : lock) (m : M A) :
  passive m → passive (with_lock l m).
Proof.
  intros Hm w. destruct l; simpl.
  - specialize (Hm (set_obs_locked true w)).
    destruct (m (set_obs_locked true w)) as [[r w1] t1]. simpl in *.
    rewrite sends_app. destruct Hm as (-> & Hn & Hi). done.
  - specialize (Hm w). destruct (m w) as [[r w1] t1]. simpl in *.
    rewrite sends_app. destruct Hm as (-> & Hn & Hi). done.
Qed.

Lemma spin_next_action (msgs : list obs_msg) (c : client) :
  _next_action (fold_left blocking_spin_once msgs c) = _next_action c.
Proof.
  revert c. induction msgs as [|o msgs IH]; intros c; [done|].
  simpl. rewrite IH. unfold blocking_spin_once, _update_obs. simpl.
  by destruct (_iter c <=? 0).
Qed.

Lemma spin_iter_positive (msgs : list obs_msg) (c : client) :
  0 < _iter c → _iter (fold_left blocking_spin_once msgs c) = _iter c.
Proof.
  revert c. induction msgs as [|o msgs IH]; intros c Hpos; [done|].
  simpl.
  assert (E : _iter (blocking_spin_once c o) = _iter c).
  { unfold blocking_spin_once, _update_obs. simpl.
    destruct (_iter c <=? 0) eqn:E; [|done]. lia. }
  rewrite IH; [done|]. by rewrite E.
Qed.

Lemma spin_obs_is_Some (msgs : list obs_msg) (c : client) :
  is_Some (_obs c) → is_Some (_obs (fold_left blocking_spin_once msgs c)).
Proof.
  revert c. induction msgs as [|o msgs IH]; intros c Hc; [done|].
  simpl. apply IH. unfold blocking_spin_once, _update_obs. simpl.
  destruct (_iter c <=? 0); simpl; eauto.
Qed.

Lemma passive_yield (d : Q) : passive (yield d).
Proof.
  intros w. unfold yield. simpl. destruct (obs_locked w); [done|].
  split_and!; [done|apply spin_next_action|apply spin_iter_positive].
Qed.

Lemma passive_emit (e : event) :
  (∀ a, e ≠ Send a) → passive (emit e).
Proof.
  intros He w. simpl. split_and!; [|done..].
  destruct e as [| | | | |a| | | |]; try done. by destruct (He a).
Qed.

Lemma passive_sleep (d : Q) : passive (sleep d).
Proof.
  apply passive_bind; [by apply passive_emit|]. intros _. apply passive_yield.
Qed.

Lemma passive_default_timer : passive default_timer.
Proof.
  apply passive_bind; [apply passive_yield|]. intros _. apply passive_get_now.
Qed.

Lemma passive_breakpoint : passive breakpoint.
Proof.
  apply passive_bind; [by apply passive_emit|]. intros _ w. unfold pdb.
  destruct (debugger (sched w)) as [d| |]; [apply passive_yield|done..].
Qed.

Lemma passive_read_obs : passive read_obs.
Proof.
  apply passive_bind; [apply passive_get_self|]. intros c.
  apply passive_bind; [by apply passive_emit|]. intros _. apply passive_ret.
Qed.

Lemma passive_clear_obs : passive (modify_self (with_obs None)).
Proof. by intros w. Qed.

Lemma passive_get_base_pose_loop (fuel : nat) (t0 : Q) :
  passive (get_base_pose_loop fuel t0).
Proof.
  induction fuel as [|fuel IH]; simpl; [apply passive_out_of_fuel|].
  apply passive_bind; [apply passive_read_obs|]. intros [o|]; [apply passive_ret|].
  apply passive_bind; [apply passive_sleep|]. intros _.
  apply passive_bind; [apply passive_default_timer|]. intros t.
  destruct (Qltb 5 (t - t0)); [|done].
  apply passive_bind; [by apply passive_emit|]. intros _. apply passive_ret.
Qed.

Lemma passive_get_base_pose (fuel : nat) : passive (get_base_pose fuel).
Proof.
  apply passive_bind.
  - apply passive_with_lock, passive_bind; [apply passive_default_timer|].
    intros t0. apply passive_get_base_pose_loop.
  - intros [o|]; apply passive_ret.
Qed.

Lemma passive_get_observation : passive get_observation.
Proof.
  apply passive_with_lock, passive_bind; [apply passive_read_obs|].
  intros [o|]; [|apply passive_ret].
  apply passive_bind; [apply passive_get_self|]. intros c. apply passive_ret.
Qed.

Lemma passive_wait_poll B mt at_ N g v : passive (wait_poll B mt at_ N g v).
Proof.
  apply passive_bind; [apply passive_read_obs|]. intros [o|]; [|apply passive_ret].
  destruct (py_index (compass o) 0); [|apply passive_raise].
  apply passive_bind; [apply passive_get_self|]. intros c.
  match goal with |- passive (if ?b then _ else _) => destruct b end;
    [apply passive_ret|].
  apply passive_bind; [by apply passive_emit|]. intros _.
  apply passive_bind; [apply passive_clear_obs|]. intros _. apply passive_ret.
Qed.

Lemma passive_wait_loop fuel B timeout mt at_ N g t0 v :
  passive (wait_loop fuel B timeout mt at_ N g t0 v).
Proof.
  revert v. induction fuel as [|fuel IH]; intros v; simpl;
    [apply passive_out_of_fuel|].
  apply passive_bind; [apply passive_with_lock, passive_wait_poll|].
  intros [v' [|]]; [apply passive_ret|].
  apply passive_bind; [apply passive_sleep|]. intros _.
  apply passive_bind; [apply passive_default_timer|]. intros t1.
  destruct (Qltb timeout (t1 - t0)); [apply passive_raise|apply IH].
Qed.

Lemma passive_wait_for_action fuel B timeout mt at_ N g :
  passive (_wait_for_action fuel B timeout mt at_ N g).
Proof.
  apply passive_bind; [apply passive_default_timer|]. intros t0.
  apply passive_bind; [apply passive_get_self|]. intros c.
  apply passive_wait_loop.
Qed.

Lemma passive_wait_for_waypoint_loop fuel0 fuel xyt d pthr rthr timeout t0 :
  passive (wait_for_waypoint_loop fuel0 fuel xyt d pthr rthr timeout t0).
Proof.
  induction fuel as [|fuel IH]; [apply passive_out_of_fuel|].
  cbn [wait_for_waypoint_loop].
  apply passive_bind; [apply passive_get_self|]. intros c.
  destruct (_finish c); [apply passive_ret|].
  apply passive_bind; [apply passive_default_timer|]. intros t1.
  apply passive_bind; [apply passive_get_base_pose|].
  intros [curr|]; [|apply passive_raise].
  destruct (py_index curr (-1)) as [th|]; [|apply passive_raise].
  destruct (py_index xyt 2) as [goal|]; [|apply passive_raise].
  match goal with |- passive (if ?b then _ else _) => destruct b end;
    [apply passive_ret|].
  apply passive_bind; [apply passive_default_timer|]. intros t2.
  destruct (Qltb timeout (t2 - t0)).
  - apply passive_bind; [by apply passive_emit|]. intros _.
    apply passive_bind; [apply passive_breakpoint|]. intros _. apply passive_ret.
  - apply passive_bind; [apply passive_sleep|]. intros _. apply IH.
Qed.

Lemma passive_wait_for_waypoint fuel xyt rate pthr rthr timeout :
  passive (wait_for_waypoint fuel xyt rate pthr rthr timeout).
Proof.
  unfold wait_for_waypoint. destruct (rate =? 0); [apply passive_raise|].
  apply passive_bind; [apply passive_default_timer|]. intros t0.
  apply passive_wait_for_waypoint_loop.
Qed.

Lemma send_action_run (fuel : nat) (timeout : Q) (w : world) (g : option Q) :
  goal_angle_of (outgoing w) = Ok g →
  send_action fuel timeout w =
  match after_send fuel timeout
          (default (PyBool false) (_next_action (self w) !! "nav_blocking"))
          (_iter (self w)) g (sent_world w) with
  | (r, w', t) => (r, w', send_events w ++ t)
  end.
Proof.
  intros Hg. destruct w as [c t l k]. unfold outgoing in Hg. simpl in Hg.
  unfold send_action, with_lock, send_action_locked, set_field, sent_world,
    send_events, outgoing.
  repeat (rewrite run_bind;
          cbn [emit modify_self get_self lift self now obs_locked sched]).
  cbn [_next_action with_iter with_next_action _iter]. rewrite Hg.
  repeat (rewrite run_bind;
          cbn [emit modify_self get_self lift self now obs_locked sched]).
  unfold after_send, with_next_action, with_iter. simpl.
  match goal with |- match ?x with _ => _ end = match ?y with _ => _ end =>
    change x with y; by destruct y as [[[]] ?] end.
Qed.

Ltac run_binds :=
  repeat (rewrite run_bind;
          cbn [emit modify_self get_self lift raise self now obs_locked sched]).

Ltac run_all :=
  repeat first
    [ rewrite run_bind
    | progress cbn [emit modify_self get_self get_now lift raise mret
                    M_ret self now obs_locked sched app fst snd] ].

Lemma passive_after_send fuel timeout blocking block_id g :
  passive (after_send fuel timeout blocking block_id g).
Proof.
  apply passive_bind; [apply passive_sleep|]. intros _.
  destruct (truthy blocking); [|apply passive_ret].
  apply passive_bind; [apply passive_wait_for_action|]. intros _.
  apply passive_sleep.
Qed.

(** [send_action] transmits exactly one record, the pending one with its
    step id, whatever happens afterwards. *)
Lemma send_action_sends (fuel : nat) (timeout : Q) (w : world) :
  sends (send_action fuel timeout w).2 = [outgoing w].
Proof.
  destruct (goal_angle_of (outgoing w)) as [g|e|] eqn:Hg.
  - rewrite (send_action_run _ _ _ g Hg).
    pose proof (passive_after_send fuel timeout
      (default (PyBool false) (_next_action (self w) !! "nav_blocking"))
      (_iter (self w)) g (sent_world w)) as (Hs & _ & _).
    destruct (after_send _ _ _ _ _ _) as [[r w'] t]. simpl in *.
    by rewrite Hs.
  - destruct w as [c t l k]. unfold outgoing in *. simpl in Hg.
    unfold send_action, with_lock, send_action_locked, set_field.
    run_binds. cbn [_next_action with_iter with_next_action _iter].
    rewrite Hg. by run_binds.
  - unfold goal_angle_of in Hg. by repeat case_match.
Qed.


Lemma arm_to_run (fuel : nat) (q : list Q) (blocking : bool) (w : world) :
  arm_to fuel q blocking w =
  if len (arm_to_vector q) <? 6 then (Raise ValueError, w, arm_to_warning q)
  else if negb (len (arm_to_vector q) =? 6)
  then (Raise AssertionError, w, arm_to_warning q)
  else
    match send_action fuel 10 (staged (arm_fields (arm_to_vector q) blocking) w) with
    | (r, w', t) =>
        (r, w', arm_to_warning q
                ++ stage_events (arm_fields (arm_to_vector q) blocking) ++ t)
    end.
Proof.
  unfold arm_to, arm_to_vector, arm_to_warning.
  destruct (6 <? len q) eqn:Hlong.
  - rewrite run_bind. rewrite run_bind. cbn [emit mret M_ret].
    destruct (len (config_to_manip_command q) <? 6); [done|].
    destruct (negb _); [done|].
    rewrite run_bind. unfold with_lock, set_field. run_binds.
    unfold staged. simpl.
    by destruct (send_action fuel 10 _) as [[r w'] t].
  - rewrite run_bind. cbn [mret M_ret].
    destruct (len q <? 6); [done|].
    destruct (negb _); [done|].
    rewrite run_bind. unfold with_lock, set_field. run_binds.
    unfold staged. simpl.
    by destruct (send_action fuel 10 _) as [[r w'] t].
Qed.

Lemma sends_stage_events fields : sends (stage_events fields) = [].
Proof.
  unfold stage_events. cbn [sends omap list_omap]. rewrite sends_app.
  simpl. rewrite app_nil_r. by induction fields.
Qed.

Lemma navigate_to_run (fuel : nat) (xyt : list Q) (relative blocking : bool)
    (timeout : Q) (w : world) :
  len xyt = 3 →
  navigate_to fuel xyt relative blocking timeout w =
  let fields := [("xyt", PyVec xyt); ("nav_relative", PyBool relative);
                 ("nav_blocking", PyBool blocking)] in
  match send_action fuel timeout (staged fields w) with
  | (r, w', t) => (r, w', stage_events fields ++ t)
  end.
Proof.
  intros Hq. unfold navigate_to. rewrite Hq. simpl.
  rewrite run_bind. unfold with_lock, set_field. run_binds.
  unfold staged. simpl.
  by destruct (send_action fuel timeout _) as [[r w'] t].
Qed.


(** C9. For every joint vector given to [arm_to]: a command that goes out
    carries a joint vector of exactly six elements; a vector of seven or
    more elements is replaced by [config_to_manip_command] of it before
    anything is stored or sent; a vector of fewer than six elements
    raises [ValueError] with nothing stored and nothing sent; a vector
    of six elements is sent as it is. *)
Theorem arm_to_six_dof (fuel : nat) (q : list Q) (blocking : bool) (w : world) :
  let run := arm_to fuel q blocking w in
  (∀ a, a ∈ sends run.2 →
        ∃ v, a !! "joint" = Some (PyVec v) ∧ len v = 6 ∧ v = arm_to_vector q)
  ∧ (6 < len q → arm_to_vector q = config_to_manip_command q)
  ∧ (6 < len q → len (config_to_manip_command q) = 6 →
     ∃ a, sends run.2 = [a]
          ∧ a !! "joint" = Some (PyVec (config_to_manip_command q)))
  ∧ (len q < 6 → run = (Raise ValueError, w, []))
  ∧ (len q = 6 → ∃ a, sends run.2 = [a] ∧ a !! "joint" = Some (PyVec q)).
Proof.
  intros run.
  assert (Hsent : len (arm_to_vector q) = 6 →
    sends run.2 = [outgoing (staged (arm_fields (arm_to_vector q) blocking) w)]).
  { intros H6. subst run. rewrite arm_to_run, H6.
    change (6 <? 6) with false. change (negb (6 =? 6)) with false. cbv iota.
    pose proof (send_action_sends fuel 10
      (staged (arm_fields (arm_to_vector q) blocking) w)) as Hs.
    destruct (send_action fuel 10 _) as [[r w'] t]. cbn [snd] in *.
    rewrite !sends_app, sends_stage_events, Hs.
    unfold arm_to_warning. by destruct (6 <? len q). }
  assert (Hjoint : ∀ v,
    outgoing (staged (arm_fields v blocking) w) !! "joint" = Some (PyVec v)).
  { intros v. unfold outgoing, staged, arm_fields.
    cbn [self _next_action with_next_action foldl fst snd].
    rewrite lookup_insert_ne by done. rewrite lookup_insert_ne by done.
    apply lookup_insert_eq. }
  split_and!.
  - intros a Ha.
    destruct (decide (len (arm_to_vector q) = 6)) as [H6|H6].
    + rewrite (Hsent H6) in Ha. apply list_elem_of_singleton in Ha as ->.
      exists (arm_to_vector q). by rewrite Hjoint.
    + exfalso. subst run. rewrite arm_to_run in Ha.
      destruct (len (arm_to_vector q) <? 6) eqn:E1.
      { simpl in Ha. unfold arm_to_warning in Ha.
        destruct (6 <? len q); simpl in Ha; by apply elem_of_nil in Ha. }
      destruct (len (arm_to_vector q) =? 6) eqn:E2; [lia|].
      simpl in Ha. unfold arm_to_warning in Ha.
      destruct (6 <? len q); simpl in Ha; by apply elem_of_nil in Ha.
  - intros Hlong. unfold arm_to_vector.
    destruct (6 <? len q) eqn:E; [done|lia].
  - intros Hlong H6.
    assert (E : arm_to_vector q = config_to_manip_command q).
    { unfold arm_to_vector. destruct (6 <? len q) eqn:E; [done|lia]. }
    eexists. split; [apply Hsent; by rewrite E|]. by rewrite Hjoint, E.
  - intros Hshort. subst run. rewrite arm_to_run.
    unfold arm_to_vector, arm_to_warning.
    destruct (6 <? len q) eqn:E; [lia|].
    destruct (len q <? 6) eqn:E1; [done|lia].
  - intros H6.
    assert (E : arm_to_vector q = q).
    { unfold arm_to_vector. destruct (6 <? len q) eqn:E; [lia|done]. }
    eexists. split; [apply Hsent; by rewrite E|]. by rewrite Hjoint, E.
Qed.

Lemma sent_world_staged fields w : sent_world (staged fields w) = sent_world w.
Proof. reflexivity. Qed.

Lemma navigate_to_after_send (fuel : nat) (xyt : list Q)
    (relative blocking : bool) (timeout : Q) (w : world) (th : Q) :
  len xyt = 3 →
  py_index xyt 2 = Some th →
  navigate_to fuel xyt relative blocking timeout w =
  match after_send fuel timeout (PyBool blocking) (_iter (self w)) (Some th)
          (sent_world w) with
  | (r, w', t) =>
      (r, w', command_events (nav_fields xyt relative blocking) w ++ t)
  end.
Proof.
  intros Hlen Hth. rewrite navigate_to_run by done. cbv zeta.
  fold (nav_fields xyt relative blocking).
  rewrite (send_action_run _ _ _ (Some th)).
  - rewrite sent_world_staged.
    replace (_next_action (self (staged (nav_fields xyt relative blocking) w))
               !! "nav_blocking") with (Some (PyBool blocking)).
    + cbn [default from_option]. change (_iter (self (staged _ w))) with (_iter (self w)).
      destruct (after_send _ _ _ _ _ _) as [[r w'] t].
      unfold command_events. by rewrite <- app_assoc.
    + unfold staged, nav_fields.
      cbn [self _next_action with_next_action foldl fst snd].
      by rewrite lookup_insert_eq.
  - unfold goal_angle_of, outgoing, staged, nav_fields.
    cbn [self _next_action with_next_action foldl fst snd].
    rewrite lookup_insert_ne by done. rewrite lookup_insert_ne by done.
    rewrite lookup_insert_ne by done. rewrite lookup_insert_eq.
    by rewrite Hth.
Qed.















Lemma streak_step mt at_ (b a : obs_msg) (rest : list obs_msg) :
  streak mt at_ (b :: a :: rest) =
  if still mt at_ a b then streak mt at_ (a :: rest) + 1 else 0.
Proof. reflexivity. Qed.

Lemma wait_poll_none B mt at_ N g v w :
  _obs (self w) = None →
  with_lock ObsLock (wait_poll B mt at_ N g v) w =
  (Ok (v, false), set_obs_locked false w,
   [Acquire ObsLock; ReadObs None (_last_step (self w)); Release ObsLock]).
Proof.
  intros Ho. unfold with_lock, wait_poll, read_obs. run_all.
  cbn [set_obs_locked self]. rewrite Ho. by run_all.
Qed.

Lemma wait_poll_some B mt at_ N g v w o h :
  _obs (self w) = Some o →
  wait_inv mt at_ h v →
  let h' := h ++ [(o, _last_step (self w))] in
  let run := with_lock ObsLock (wait_poll B mt at_ N g v) w in
  polled run.2 = [(o, _last_step (self w))]
  ∧ now run.1.2 = now w ∧ sched run.1.2 = sched w
  ∧ obs_locked run.1.2 = false
  ∧ match heading o with
    | None => run.1.1 = Raise IndexError ∧ converged B mt at_ N h' = false
    | Some _ =>
        ∃ v', run.1.1 = Ok (v', converged B mt at_ N h')
              ∧ wait_inv mt at_ h' v'
              ∧ _obs (self run.1.2)
                = (if converged B mt at_ N h' then Some o else None)
    end.
Proof.
  intros Ho Hinv h' run. subst run h'.
  unfold with_lock, wait_poll, read_obs. run_all.
  cbn [set_obs_locked self]. rewrite Ho.
  unfold converged, wait_inv in *. rewrite reverse_snoc.
  rewrite fmap_reverse. unfold heading in *.
  destruct (py_index (compass o) 0) as [ang|] eqn:Hang.
  2:{ run_all. by split_and!. }
  run_all.
  set (moved := match last_pos v with Some lp => np_linalg_norm (vsub (gps o) lp) | None => 0%Q end).
  set (adist := match last_ang v with Some la => angle_difference ang la | None => 0%Q end).
  set (nm := bool_decide (is_Some (last_pos v)) && Qltb moved mt && Qltb adist at_).
  set (count := if nm then not_moving_count v + 1 else 0).
  assert (Hcount : count = streak mt at_ (o :: reverse h.*1)).
  { subst count nm moved adist. rewrite <- fmap_reverse.
    destruct (reverse h) as [|[a ls] older] eqn:Hrev.
    - subst v. done.
    - destruct Hinv as (Hlp & Hla & [ha Hha] & Hc).
      rewrite Hlp, Hla. cbn [fmap list_fmap fst].
      rewrite streak_step. unfold still, heading. rewrite Hha, Hang.
      rewrite bool_decide_eq_true_2 by eauto. cbn [andb].
      by rewrite Hc. }
  rewrite bool_decide_eq_true_2 by eauto. cbn [andb].
  rewrite <- Hcount. unfold set_obs_locked. cbn [self].
  destruct ((B <=? _last_step (self w)) && at_goal o && (N <? count)) eqn:Hstop.
  - run_all. cbn [polled omap list_omap].
    split_and!; try done.
    eexists. split; [done|]. split; [|by rewrite Ho].
    cbn [last_pos last_ang not_moving_count]. split_and!; eauto.
  - run_all. cbn [polled omap list_omap].
    split_and!; try done.
    eexists. split; [done|]. split; [|done].
    cbn [last_pos last_ang not_moving_count]. split_and!; eauto.
Qed.

Lemma sleep_run d w : sleep d w = (Ok tt, tick d w, [Sleep d]).
Proof. reflexivity. Qed.

Lemma default_timer_run w : default_timer w = (Ok (now (tick 0 w)), tick 0 w, []).
Proof. reflexivity. Qed.

Lemma wait_loop_unfold fuel B timeout mt at_ N g t0 v :
  wait_loop (S fuel) B timeout mt at_ N g t0 v =
  ('(v', stop) ← with_lock ObsLock (wait_poll B mt at_ N g v);
   if (stop : bool) then mret tt else wait_cont fuel B timeout mt at_ N g t0 v').
Proof. reflexivity. Qed.

Lemma wait_cont_run fuel B timeout mt at_ N g t0 v w :
  wait_cont fuel B timeout mt at_ N g t0 v w =
  let w2 := tick 0 (tick (1#100) w) in
  if Qltb timeout (now w2 - t0)
  then (Raise (RuntimeError "Timeout waiting for block"), w2, [Sleep (1#100)])
  else
    match wait_loop fuel B timeout mt at_ N g t0 v w2 with
    | (r, w3, t) => (r, w3, Sleep (1#100) :: t)
    end.
Proof.
  unfold wait_cont. rewrite run_bind, sleep_run, run_bind, default_timer_run.
  cbv zeta. destruct (Qltb timeout _); [done|].
  by destruct (wait_loop _ _ _ _ _ _ _ _ _ _) as [[r w3] t].
Qed.

Lemma converged_nil B mt at_ N : converged B mt at_ N [] = false.
Proof. reflexivity. Qed.

(** What a finished run of the polling loop says about the samples it
    polled, given the samples [h] polled before it started. *)
Ltac split4 := split; [|split; [|split]].

Lemma wait_loop_correct fuel B timeout mt at_ N g t0 :
  ∀ v w h,
    wait_inv mt at_ h v →
    converged B mt at_ N h = false →
    let run := wait_loop fuel B timeout mt at_ N g t0 v w in
    run.1.1 ≠ OutOfFuel →
    (run.1.1 = Ok tt ↔ converged B mt at_ N (h ++ polled run.2) = true)
    ∧ (∀ h1 h2, polled run.2 = h1 ++ h2 → h2 ≠ [] →
                converged B mt at_ N (h ++ h1) = false)
    ∧ (∀ e, run.1.1 = Raise e →
            e = IndexError
            ∨ (e = RuntimeError "Timeout waiting for block"
               ∧ (timeout < now run.1.2 - t0)%Q))
    ∧ (run.1.1 = Ok tt →
       ∃ o ls older, polled run.2 = older ++ [(o, ls)]
                     ∧ _obs (self run.1.2) = Some o).
Proof.
  assert (Hsingle : ∀ (x : obs_msg * Z) (h h1 h2 : list (obs_msg * Z)),
            [x] = h1 ++ h2 → h2 ≠ [] →
            converged B mt at_ N h = false →
            converged B mt at_ N (h ++ h1) = false).
  { intros x h h1 h2 E Hh2 Hh. destruct h1 as [|y h1].
    - by rewrite app_nil_r.
    - destruct h1, h2; simplify_eq/=. }
  induction fuel as [|fuel IH]; intros v w h Hinv Hnot run Hfuel.
  { by destruct Hfuel. }
  subst run. revert Hfuel. rewrite wait_loop_unfold, run_bind.
  destruct (_obs (self w)) as [o|] eqn:Ho.
  - pose proof (wait_poll_some B mt at_ N g v w o h Ho Hinv) as Hpoll.
    cbv zeta in Hpoll.
    destruct (with_lock ObsLock (wait_poll B mt at_ N g v) w) as [[r1 w1] t1].
    cbn [fst snd] in Hpoll.
    destruct Hpoll as (Hpol & Hnow & Hsched & Hlock & Hcase).
    destruct (heading o) as [ang|].
    + destruct Hcase as (v' & -> & Hinv' & Hslot).
      destruct (converged B mt at_ N (h ++ [(o, _last_step (self w))])) eqn:Hc.
      * cbn [mret M_ret fst snd]. rewrite app_nil_r, Hpol. intros _.
        split4.
        -- by rewrite Hc.
        -- intros h1 h2 E Hh2. by apply (Hsingle _ _ _ _ E).
        -- done.
        -- intros _. by exists o, (_last_step (self w)), [].
      * rewrite wait_cont_run. cbv zeta.
        destruct (Qltb timeout _) eqn:Hto.
        -- cbn [fst snd]. intros _. rewrite polled_app, Hpol.
           cbn [polled omap list_omap]. rewrite app_nil_r. split4.
           ++ by rewrite Hc.
           ++ intros h1 h2 E Hh2. by apply (Hsingle _ _ _ _ E).
           ++ intros e [= <-]. right. split; [done|]. by apply Qltb_lt.
           ++ done.
        -- specialize (IH v' (tick 0 (tick (1#100) w1))
                         (h ++ [(o, _last_step (self w))]) Hinv' Hc).
           cbv zeta in IH.
           destruct (wait_loop fuel B timeout mt at_ N g t0 v' _) as [[r w3] t].
           cbn [fst snd] in *. intros Hfuel.
           destruct (IH Hfuel) as (IH1 & IH2 & IH3 & IH4).
           rewrite polled_app, Hpol. change (polled (Sleep (1#100) :: t)) with (polled t).
           rewrite <- app_assoc in IH1.
           split4.
           ++ done.
           ++ intros h1 h2 E Hh2. destruct h1 as [|x h1].
              ** by rewrite app_nil_r.
              ** simplify_eq/=. rewrite cons_middle, app_assoc.
                 by apply (IH2 h1 h2).
           ++ done.
           ++ intros Hok. destruct (IH4 Hok) as (o' & ls & older & E & Hs).
              exists o', ls, ((o, _last_step (self w)) :: older).
              by rewrite E.
    + destruct Hcase as [-> Hc]. cbn [fst snd]. intros _. rewrite Hpol.
      split4.
      * by rewrite Hc.
      * intros h1 h2 E Hh2. by apply (Hsingle _ _ _ _ E).
      * intros e [= <-]. by left.
      * done.
  - rewrite wait_poll_none by done. cbn [fst snd].
    rewrite wait_cont_run. cbv zeta.
    destruct (Qltb timeout _) eqn:Hto.
    + cbn [fst snd app polled omap list_omap]. intros _. rewrite app_nil_r.
      split4.
      * by rewrite Hnot.
      * intros h1 h2 E Hh2. by destruct h1, h2.
      * intros e [= <-]. right. split; [done|]. by apply Qltb_lt.
      * done.
    + specialize (IH v (tick 0 (tick (1#100) (set_obs_locked false w))) h Hinv Hnot).
      cbv zeta in IH.
      destruct (wait_loop fuel B timeout mt at_ N g t0 v _) as [[r w3] t].
      cbn [fst snd] in *. intros Hfuel.
      destruct (IH Hfuel) as (IH1 & IH2 & IH3 & IH4).
      change (polled (_ :: _ :: _ :: _ :: t)) with (polled t). done.
Qed.

Lemma wait_poll_clock B mt at_ N g v w :
  let run := with_lock ObsLock (wait_poll B mt at_ N g v) w in
  run.1.1 ≠ OutOfFuel ∧ now run.1.2 = now w.
Proof.
  cbv zeta. unfold with_lock, wait_poll, read_obs. run_all.
  unfold set_obs_locked. cbn [self].
  destruct (_obs (self w)) as [o|]; [|by run_all].
  destruct (py_index (compass o) 0); [|by run_all].
  run_all.
  match goal with |- context [if ?b then _ else _] => destruct b end;
    by run_all.
Qed.

Lemma tick_now d w :
  (∀ k, (0 <= lag k)%Q) → (now w + d <= now (tick d w))%Q.
Proof.
  intros Hlag. unfold tick, yield. cbn [fst snd now].
  rewrite Qred_correct. specialize (Hlag (sched w)). lra.
Qed.

Lemma spin_thresholds (msgs : list obs_msg) (c : client) :
  _moving_threshold (fold_left blocking_spin_once msgs c) = _moving_threshold c
  ∧ _angle_threshold (fold_left blocking_spin_once msgs c) = _angle_threshold c
  ∧ _min_steps_not_moving (fold_left blocking_spin_once msgs c)
    = _min_steps_not_moving c.
Proof.
  revert c. induction msgs as [|o msgs IH]; intros c; [done|].
  simpl. destruct (IH (blocking_spin_once c o)) as (-> & -> & ->).
  unfold blocking_spin_once, _update_obs. simpl.
  by destruct (_iter c <=? 0).
Qed.

Lemma tick_thresholds d w :
  _moving_threshold (self (tick d w)) = _moving_threshold (self w)
  ∧ _angle_threshold (self (tick d w)) = _angle_threshold (self w)
  ∧ _min_steps_not_moving (self (tick d w)) = _min_steps_not_moving (self w).
Proof.
  unfold tick, yield. cbn [fst snd self].
  destruct (obs_locked w); [done|]. apply spin_thresholds.
Qed.

(** The polling loop ends once the clock has passed the timeout: each
    turn sleeps 10 ms, so [fuel] turns are enough as soon as
    [fuel / 100] exceeds the time that is left. *)
Lemma wait_loop_terminates B timeout mt at_ N g t0 :
  (∀ k, (0 <= lag k)%Q) →
  ∀ fuel v w,
    ((timeout - (now w - t0)) * 100 < inject_Z (Z.of_nat (S fuel)))%Q →
    (wait_loop (S fuel) B timeout mt at_ N g t0 v w).1.1 ≠ OutOfFuel.
Proof.
  intros Hlag. induction fuel as [|fuel IH]; intros v w Hleft.
  - rewrite wait_loop_unfold, run_bind.
    pose proof (wait_poll_clock B mt at_ N g v w) as Hp. cbv zeta in Hp.
    destruct (with_lock ObsLock (wait_poll B mt at_ N g v) w) as [[r1 w1] t1].
    cbn [fst snd] in Hp. destruct Hp as [Hr Hnow].
    destruct r1 as [[v' [|]]|e|]; [done| |done|done].
    rewrite wait_cont_run. cbv zeta.
    destruct (Qltb timeout _) eqn:Hto; [done|]. exfalso.
    apply Qltb_ge in Hto.
    pose proof (tick_now (1#100) w1 Hlag) as H1.
    pose proof (tick_now 0 (tick (1#100) w1) Hlag) as H2.
    rewrite Hnow in H1. change (inject_Z (Z.of_nat 1)) with 1%Q in Hleft. lra.
  - rewrite wait_loop_unfold, run_bind.
    pose proof (wait_poll_clock B mt at_ N g v w) as Hp. cbv zeta in Hp.
    destruct (with_lock ObsLock (wait_poll B mt at_ N g v) w) as [[r1 w1] t1].
    cbn [fst snd] in Hp. destruct Hp as [Hr Hnow].
    destruct r1 as [[v' [|]]|e|]; [done| |done|done].
    rewrite wait_cont_run. cbv zeta.
    destruct (Qltb timeout _) eqn:Hto; [done|].
    pose proof (tick_now (1#100) w1 Hlag) as H1.
    pose proof (tick_now 0 (tick (1#100) w1) Hlag) as H2.
    rewrite Hnow in H1.
    specialize (IH v' (tick 0 (tick (1#100) w1))).
    destruct (wait_loop (S fuel) B timeout mt at_ N g t0 v' _) as [[r w3] t].
    cbn [fst snd] in *. apply IH.
    rewrite (Nat2Z.inj_succ (S fuel)) in Hleft.
    unfold Z.succ in Hleft. rewrite inject_Z_plus in Hleft.
    change (inject_Z 1) with 1%Q in Hleft. lra.
Qed.

Lemma wait_for_action_unfold fuel B timeout mt at_ N g w :
  _wait_for_action fuel B timeout mt at_ N g w =
  wait_loop fuel B timeout
    (default (_moving_threshold (self w)) mt)
    (default (_angle_threshold (self w)) at_)
    (default (_min_steps_not_moving (self w)) N)
    g (now (tick 0 w)) (WaitVars None None 0) (tick 0 w).
Proof.
  unfold _wait_for_action. rewrite run_bind, default_timer_run.
  rewrite run_bind. cbn [get_self].
  destruct (tick_thresholds 0 w) as (-> & -> & ->).
  destruct (wait_loop _ _ _ _ _ _ _ _ _ _) as [[r w'] t]. done.
Qed.

(** C2, amended.  Let the clock never run backwards.  A convergence wait
    for step id [B] then ends, after at most [wait_fuel timeout] polls.
    It returns normally exactly when the samples it polled end in one
    that satisfies the completion condition [converged]: taken when the
    server-reported last completed step was at least [B], carrying the
    at-goal flag, and ending a run of MORE than [min_steps_not_moving]
    consecutive polled samples at each of which the position moved by
    less than the moving threshold and the heading by less than the
    angle threshold since the sample before (polls that find the slot
    empty are not counted and do not break the run).  No earlier sample
    satisfied the condition.  Otherwise the wait raises the timeout
    error, and then more than [timeout] seconds have passed since it
    started (or it raises [IndexError] on a report with an empty
    compass). *)
Theorem wait_for_action_converges (fuel : nat) (B : Z) (timeout : Q)
    (moving_threshold angle_threshold : option Q)
    (min_steps_not_moving : option Z) (g : option Q) (w : world) :
  (∀ k, (0 <= lag k)%Q) →
  (wait_fuel timeout ≤ fuel)%nat →
  let mt := default (_moving_threshold (self w)) moving_threshold in
  let at_ := default (_angle_threshold (self w)) angle_threshold in
  let N := default (_min_steps_not_moving (self w)) min_steps_not_moving in
  let run := _wait_for_action fuel B timeout moving_threshold angle_threshold
               min_steps_not_moving g w in
  run.1.1 ≠ OutOfFuel
  ∧ (run.1.1 = Ok tt ↔ converged B mt at_ N (polled run.2) = true)
  ∧ (∀ h1 h2, polled run.2 = h1 ++ h2 → h2 ≠ [] →
              converged B mt at_ N h1 = false)
  ∧ (∀ e, run.1.1 = Raise e →
          e = IndexError
          ∨ (e = RuntimeError "Timeout waiting for block"
             ∧ (timeout < now run.1.2 - now (tick 0 w))%Q)).
Proof.
  intros Hlag Hfuel mt at_ N run. subst run.
  rewrite wait_for_action_unfold. fold mt at_ N.
  assert (Hterm : (wait_loop fuel B timeout mt at_ N g (now (tick 0 w))
                     (WaitVars None None 0) (tick 0 w)).1.1 ≠ OutOfFuel).
  { destruct fuel as [|fuel]; [unfold wait_fuel in Hfuel; lia|].
    apply wait_loop_terminates; [done|].
    assert (H1 : (timeout * 100 < inject_Z (Qfloor (timeout * 100) + 1))%Q)
      by apply Qlt_floor.
    assert (H2 : (inject_Z (Qfloor (timeout * 100) + 1)
                  <= inject_Z (Z.of_nat (S fuel)))%Q).
    { rewrite <- Zle_Qle. unfold wait_fuel in Hfuel. lia. }
    lra. }
  pose proof (wait_loop_correct fuel B timeout mt at_ N g (now (tick 0 w))
                (WaitVars None None 0) (tick 0 w) [] eq_refl eq_refl Hterm)
    as (H1 & H2 & H3 & _).
  split4; done.
Qed.

Lemma wait_poll_consumes B mt at_ N g v w v' :
  (with_lock ObsLock (wait_poll B mt at_ N g v) w).1.1 = Ok (v', false) →
  _obs (self (with_lock ObsLock (wait_poll B mt at_ N g v) w).1.2) = None.
Proof.
  unfold with_lock, wait_poll, read_obs. run_all.
  unfold set_obs_locked. cbn [self].
  destruct (_obs (self w)) as [o|] eqn:Ho; [|by run_all].
  destruct (py_index (compass o) 0); [|by run_all].
  run_all.
  match goal with |- context [if ?b then _ else _] => destruct b end;
    by run_all.
Qed.

Lemma tick_obs_is_Some d w :
  is_Some (_obs (self w)) → is_Some (_obs (self (tick d w))).
Proof.
  unfold tick, yield. cbn [fst snd self].
  destruct (obs_locked w); [done|]. apply spin_obs_is_Some.
Qed.

Lemma get_observation_some w :
  is_Some (_obs (self w)) → ∃ ob, (get_observation w).1.1 = Ok (Some ob).
Proof.
  intros [o Ho]. unfold get_observation, with_lock, read_obs. run_all.
  unfold set_obs_locked. cbn [self]. rewrite Ho. run_all. eauto.
Qed.

Lemma get_observation_none w :
  _obs (self w) = None → (get_observation w).1.1 = Ok None.
Proof.
  intros Ho. unfold get_observation, with_lock, read_obs. run_all.
  unfold set_obs_locked. cbn [self]. rewrite Ho. by run_all.
Qed.

Lemma wait_for_action_slot fuel B timeout mt at_ N g w :
  let run := _wait_for_action fuel B timeout mt at_ N g w in
  run.1.1 = Ok tt →
  ∃ o ls older, polled run.2 = older ++ [(o, ls)]
                ∧ _obs (self run.1.2) = Some o.
Proof.
  cbv zeta. rewrite wait_for_action_unfold. intros Hok.
  eapply (wait_loop_correct fuel B timeout _ _ _ g _ _ _ [] eq_refl eq_refl);
    [|done]. by rewrite Hok.
Qed.

Lemma navigate_to_blocking_slot fuel xyt relative timeout w :
  (navigate_to fuel xyt relative true timeout w).1.1 = Ok tt →
  is_Some (_obs (self (navigate_to fuel xyt relative true timeout w).1.2)).
Proof.
  destruct (decide (len xyt = 3)) as [Hlen|Hlen].
  2:{ unfold navigate_to. destruct (len xyt =? 3) eqn:E; [lia|]. done. }
  assert (∃ th, py_index xyt 2 = Some th) as [th Hth].
  { unfold py_index. unfold len in Hlen. rewrite Hlen. simpl.
    apply lookup_lt_is_Some. lia. }
  rewrite (navigate_to_after_send _ _ _ _ _ _ th) by done.
  unfold after_send. cbn [truthy]. rewrite run_bind, sleep_run, run_bind.
  pose proof (wait_for_action_slot fuel (_iter (self w)) timeout None None
                (Some 1) (Some th) (tick (2 # 10) (sent_world w))) as Hslot.
  cbv zeta in Hslot.
  destruct (_wait_for_action _ _ _ _ _ _ _ _) as [[[[]| |] w2] t2];
    cbn [fst snd] in *; [|done..].
  rewrite sleep_run. cbn [fst snd]. intros _.
  destruct (Hslot eq_refl) as (o & ls & older & _ & Ho).
  apply tick_obs_is_Some. by rewrite Ho.
Qed.

(** C10, amended.  A poll of the convergence wait that does not meet the
    completion condition leaves the shared latest-observation slot
    empty: the wait consumes the observations it looks at.  The poll
    that meets the condition leaves the slot as it is, so when the wait
    returns the slot holds the observation on which completion was
    detected, and when a blocking [navigate_to] returns (0.2 s later,
    in which the receive loop can only replace the slot by a newer
    frame) [get_observation] yields a value. *)
Theorem wait_consumes_observations (fuel : nat) (B : Z) (timeout : Q)
    (mt at_ : Q) (N : Z) (g : option Q) (v : wait_vars) (w : world) :
  (∀ v', (with_lock ObsLock (wait_poll B mt at_ N g v) w).1.1 = Ok (v', false) →
         _obs (self (with_lock ObsLock (wait_poll B mt at_ N g v) w).1.2) = None)
  ∧ (∀ omt oat oN,
       let run := _wait_for_action fuel B timeout omt oat oN g w in
       run.1.1 = Ok tt →
       ∃ o ls older, polled run.2 = older ++ [(o, ls)]
                     ∧ _obs (self run.1.2) = Some o)
  ∧ (∀ xyt relative,
       let run := navigate_to fuel xyt relative true timeout w in
       run.1.1 = Ok tt → ∃ ob, (get_observation run.1.2).1.1 = Ok (Some ob)).
Proof.
  split_and!.
  - intros v'. apply wait_poll_consumes.
  - intros omt oat oN. apply wait_for_action_slot.
  - intros xyt relative run Hok. apply get_observation_some.
    by apply navigate_to_blocking_slot.
Qed.

(** ** Waypoints and trajectories *)

Lemma get_base_pose_loop_unfold fuel t0 :
  get_base_pose_loop (S fuel) t0 =
  (o ← read_obs;
   match o with
   | Some o => mret (Some o)
   | None =>
       sleep (1#100) ;;
       t ← default_timer;
       if Qltb 5 (t - t0)
       then emit (Log "Timeout waiting for observation") ;; mret None
       else get_base_pose_loop fuel t0
   end).
Proof. reflexivity. Qed.

Lemma wait_for_waypoint_loop_unfold fuel0 fuel xyt _delay pthr rthr timeout t0 :
  wait_for_waypoint_loop fuel0 (S fuel) xyt _delay pthr rthr timeout t0 =
  (c ← get_self;
   if _finish c then mret false
   else
     t1 ← default_timer;
     curr ← get_base_pose fuel0;
     match curr with
     | None => raise TypeError
     | Some curr =>
         let pos_err := np_linalg_norm (vsub (take 2 xyt) (take 2 curr)) in
         match py_index curr (-1), py_index xyt 2 with
         | Some th, Some goal =>
             let rot_err := fabs (angle_difference th goal) in
             if Qltb pos_err pthr && Qltb rot_err rthr
             then mret true
             else
               t2 ← default_timer;
               let dt := fsub t2 t1 in
               if Qltb timeout (t2 - t0)
               then
                 emit (Log "[WAIT FOR WAYPOINT] WARNING! Could not reach goal in time") ;;
                 breakpoint ;;
                 mret false
               else
                 sleep (fmax 0 (fsub _delay dt)) ;;
                 wait_for_waypoint_loop fuel0 fuel xyt _delay pthr rthr timeout t0
         | _, _ => raise IndexError
         end
     end).
Proof. reflexivity. Qed.



Lemma get_base_pose_loop_terminates t0 :
  (∀ k, (0 <= lag k)%Q) →
  ∀ fuel w,
    ((5 - (now w - t0)) * 100 < inject_Z (Z.of_nat (S fuel)))%Q →
    let run := get_base_pose_loop (S fuel) t0 w in
    run.1.1 ≠ OutOfFuel ∧ (now w <= now run.1.2)%Q.
Proof.
  intros Hlag. induction fuel as [|fuel IH]; intros w Hleft; cbv zeta.
  - rewrite get_base_pose_loop_unfold. unfold read_obs. run_all.
    destruct (_obs (self w)) as [o|]; run_all; [split; [done|lra]|].
    rewrite sleep_run. run_all. rewrite default_timer_run. run_all.
    pose proof (tick_now (1#100) w Hlag) as H1.
    pose proof (tick_now 0 (tick (1#100) w) Hlag) as H2.
    destruct (Qltb 5 _) eqn:Hto; run_all; [split; [done|lra]|]. exfalso.
    apply Qltb_ge in Hto.
    change (inject_Z (Z.of_nat 1)) with 1%Q in Hleft. lra.
  - rewrite get_base_pose_loop_unfold. unfold read_obs. run_all.
    destruct (_obs (self w)) as [o|]; run_all; [split; [done|lra]|].
    rewrite sleep_run. run_all. rewrite default_timer_run. run_all.
    pose proof (tick_now (1#100) w Hlag) as H1.
    pose proof (tick_now 0 (tick (1#100) w) Hlag) as H2.
    destruct (Qltb 5 _) eqn:Hto; run_all; [split; [done|lra]|].
    specialize (IH (tick 0 (tick (1#100) w))). cbv zeta in IH.
    destruct (get_base_pose_loop (S fuel) t0 _) as [[r w'] t].
    cbn [fst snd] in *.
    rewrite (Nat2Z.inj_succ (S fuel)) in Hleft.
    unfold Z.succ in Hleft. rewrite inject_Z_plus in Hleft.
    change (inject_Z 1) with 1%Q in Hleft.
    assert (Hpre : ((5 - (now (tick 0 (tick (1#100) w)) - t0)) * 100
                    < inject_Z (Z.of_nat (S fuel)))%Q) by lra.
    destruct (IH Hpre) as [IH1 IH2]. split; [done|lra].
Qed.

Lemma get_base_pose_terminates fuel w :
  (∀ k, (0 <= lag k)%Q) →
  (base_pose_fuel ≤ fuel)%nat →
  let run := get_base_pose fuel w in
  run.1.1 ≠ OutOfFuel ∧ (now w <= now run.1.2)%Q.
Proof.
  intros Hlag Hfuel. cbv zeta. unfold get_base_pose, with_lock.
  rewrite run_bind, run_bind, default_timer_run.
  destruct fuel as [|fuel]; [unfold base_pose_fuel in Hfuel; lia|].
  pose proof (get_base_pose_loop_terminates
                (now (tick 0 (set_obs_locked true w))) Hlag fuel
                (tick 0 (set_obs_locked true w))) as H. cbv zeta in H.
  pose proof (tick_now 0 (set_obs_locked true w) Hlag) as H0.
  change (now (set_obs_locked true w)) with (now w) in H0.
  destruct (get_base_pose_loop (S fuel) _ _) as [[r w'] t]. cbn [fst snd] in *.
  assert (Hpre : ((5 - (now (tick 0 (set_obs_locked true w))
                          - now (tick 0 (set_obs_locked true w)))) * 100
                  < inject_Z (Z.of_nat (S fuel)))%Q).
  { assert (500 < inject_Z (Z.of_nat (S fuel)))%Q; [|lra].
    change 500%Q with (inject_Z 500). rewrite <- Zlt_Qlt.
    unfold base_pose_fuel in Hfuel. lia. }
  destruct (H Hpre) as [H1 H2].
  destruct r as [[o|]| |]; cbn [mret M_ret fst snd set_obs_locked now];
    (split; [done|lra]).
Qed.

Lemma breakpoint_run w :
  breakpoint w =
  match debugger (sched w) with
  | PdbContinue x => (Ok tt, tick x w, [Breakpoint])
  | PdbQuit => (Raise BdbQuit, w, [Breakpoint])
  | PdbHang => (OutOfFuel, w, [Breakpoint])
  end.
Proof.
  unfold breakpoint. rewrite run_bind. cbn [emit]. unfold pdb, tick, yield.
  by destruct (debugger (sched w)).
Qed.


Lemma fmax_ge (x : Q) : (0 <= fmax 0 x)%Q ∧ (x <= fmax 0 x)%Q.
Proof.
  unfold fmax. destruct (Qltb 0 x) eqn:E.
  - apply Qltb_lt in E. lra.
  - apply Qltb_ge in E. lra.
Qed.

Lemma timeout_branch_ends (w : world) :
  (∀ k, debugger k ≠ PdbHang) →
  ((emit waypoint_warning ;; breakpoint ;; mret false) w).1.1 ≠ OutOfFuel.
Proof.
  intros Hdbg. rewrite run_bind. cbn [emit]. rewrite run_bind, breakpoint_run.
  destruct (debugger (sched w)) as [x| |] eqn:E; [done..|]. by destruct (Hdbg _ E).
Qed.

Lemma wait_for_waypoint_loop_terminates fuel0 xyt d pthr rthr timeout t0 :
  (∀ k, (0 <= lag k)%Q) →
  (∀ k, debugger k ≠ PdbHang) →
  (0 < d)%Q →
  (base_pose_fuel ≤ fuel0)%nat →
  ∀ fuel w,
    (timeout - (now w - t0) < inject_Z (Z.of_nat fuel) * d)%Q →
    (wait_for_waypoint_loop fuel0 (S fuel) xyt d pthr rthr timeout t0 w).1.1
    ≠ OutOfFuel.
Proof.
  intros Hlag Hdbg Hd Hfuel0. induction fuel as [|fuel IH]; intros w Hleft.
  - rewrite wait_for_waypoint_loop_unfold, run_bind. cbn [get_self].
    destruct (_finish (self w)); [done|].
    rewrite run_bind, default_timer_run, run_bind.
    pose proof (get_base_pose_terminates fuel0 (tick 0 w) Hlag Hfuel0) as Hp.
    cbv zeta in Hp. pose proof (tick_now 0 w Hlag) as H0.
    destruct (get_base_pose fuel0 (tick 0 w)) as [[r1 w1] t1]. cbn [fst snd] in Hp.
    destruct Hp as [Hr Hclock].
    destruct r1 as [[curr|]| |]; cbn [raise fst snd]; try done.
    destruct (py_index curr (-1)); [|done]. destruct (py_index xyt 2); [|done].
    destruct (_ && _); [done|].
    rewrite run_bind, default_timer_run.
    pose proof (tick_now 0 w1 Hlag) as H2.
    destruct (Qltb timeout _) eqn:Hto.
    { pose proof (timeout_branch_ends (tick 0 w1) Hdbg) as Hb.
      unfold waypoint_warning in Hb.
      by destruct ((emit _ ;; breakpoint ;; mret false) (tick 0 w1))
        as [[[?| |] ?] ?]. }
    exfalso.
    apply Qltb_ge in Hto. change (inject_Z (Z.of_nat 0)) with 0%Q in Hleft. lra.
  - rewrite wait_for_waypoint_loop_unfold, run_bind. cbn [get_self].
    destruct (_finish (self w)); [done|].
    rewrite run_bind, default_timer_run, run_bind.
    pose proof (get_base_pose_terminates fuel0 (tick 0 w) Hlag Hfuel0) as Hp.
    cbv zeta in Hp. pose proof (tick_now 0 w Hlag) as H0.
    destruct (get_base_pose fuel0 (tick 0 w)) as [[r1 w1] t1]. cbn [fst snd] in Hp.
    destruct Hp as [Hr Hclock].
    destruct r1 as [[curr|]| |]; cbn [raise fst snd]; try done.
    destruct (py_index curr (-1)); [|done]. destruct (py_index xyt 2); [|done].
    destruct (_ && _); [done|].
    rewrite run_bind, default_timer_run.
    pose proof (tick_now 0 w1 Hlag) as H2.
    destruct (Qltb timeout _) eqn:Hto.
    { pose proof (timeout_branch_ends (tick 0 w1) Hdbg) as Hb.
      unfold waypoint_warning in Hb.
      by destruct ((emit _ ;; breakpoint ;; mret false) (tick 0 w1))
        as [[[?| |] ?] ?]. }
    rewrite run_bind, sleep_run.
    set (dt := fsub (now (tick 0 w1)) (now (tick 0 w))).
    pose proof (tick_now (fmax 0 (fsub d dt)) (tick 0 w1) Hlag) as H3.
    pose proof (fmax_ge (fsub d dt)) as [_ H4].
    assert (H5 : (fsub d dt == d - (now (tick 0 w1) - now (tick 0 w)))%Q).
    { assert (E1 : (dt == now (tick 0 w1) - now (tick 0 w))%Q)
        by (unfold dt, fsub; apply Qred_correct).
      unfold fsub at 1. rewrite Qred_correct. by rewrite E1. }
    specialize (IH (tick (fmax 0 (fsub d dt)) (tick 0 w1))).
    destruct (wait_for_waypoint_loop fuel0 (S fuel) xyt d pthr rthr timeout t0 _)
      as [[r w3] t]. cbn [fst snd] in *. apply IH.
    rewrite (Nat2Z.inj_succ fuel) in Hleft.
    unfold Z.succ in Hleft. rewrite inject_Z_plus in Hleft.
    change (inject_Z 1) with 1%Q in Hleft. lra.
Qed.

Lemma py_index_2_of_3 (xyt : list Q) : len xyt = 3 → ∃ th, py_index xyt 2 = Some th.
Proof.
  intros Hlen. unfold py_index. unfold len in Hlen. rewrite Hlen. simpl.
  apply lookup_lt_is_Some. lia.
Qed.

Lemma navigate_to_effect fuel xyt relative blocking timeout w :
  len xyt = 3 →
  let run := navigate_to fuel xyt relative blocking timeout w in
  nav_part <$> sends run.2 = [nav_command xyt relative blocking]
  ∧ _next_action (self run.1.2) = ∅.
Proof.
  intros Hlen. cbv zeta. destruct (py_index_2_of_3 xyt Hlen) as [th Hth].
  rewrite (navigate_to_after_send _ _ _ _ _ _ th) by done.
  pose proof (passive_after_send fuel timeout (PyBool blocking) (_iter (self w))
                (Some th) (sent_world w)) as (Hs & Hn & _).
  destruct (after_send _ _ _ _ _ _) as [[r w'] t]. cbn [fst snd] in *.
  split; [|by rewrite Hn].
  unfold command_events. rewrite !sends_app, sends_stage_events, Hs.
  cbn [send_events sends omap list_omap app fmap list_fmap].
  unfold nav_part, nav_command, outgoing, staged, nav_fields.
  cbn [self _next_action with_next_action foldl fst snd].
  rewrite (lookup_insert_ne _ "step" "xyt") by done.
  rewrite (lookup_insert_ne _ "step" "nav_relative") by done.
  rewrite (lookup_insert_ne _ "step" "nav_blocking") by done.
  rewrite lookup_insert_eq.
  rewrite (lookup_insert_ne _ "nav_blocking" "nav_relative") by done.
  rewrite lookup_insert_eq.
  rewrite (lookup_insert_ne _ "nav_blocking" "xyt") by done.
  rewrite (lookup_insert_ne _ "nav_relative" "xyt") by done.
  by rewrite lookup_insert_eq.
Qed.


Lemma wait_for_waypoint_terminates fuel xyt rate pthr rthr timeout w :
  (∀ k, (0 <= lag k)%Q) →
  (∀ k, debugger k ≠ PdbHang) →
  0 < rate →
  waypoint_fuel_ok fuel rate timeout →
  (wait_for_waypoint fuel xyt rate pthr rthr timeout w).1.1 ≠ OutOfFuel.
Proof.
  intros Hlag Hdbg Hrate [Hbase Hfuel]. unfold wait_for_waypoint.
  destruct (rate =? 0) eqn:E; [lia|]. cbv zeta.
  rewrite run_bind, default_timer_run.
  destruct fuel as [|fuel]; [unfold base_pose_fuel in Hbase; lia|].
  assert (Hr : (0 < inject_Z rate)%Q).
  { change 0%Q with (inject_Z 0). by rewrite <- Zlt_Qlt. }
  assert (Hd : (fdiv 1 (inject_Z rate) == 1 / inject_Z rate)%Q)
    by apply Qred_correct.
  assert (Hdpos : (0 < fdiv 1 (inject_Z rate))%Q).
  { rewrite Hd. apply Qlt_shift_div_l; [done|lra]. }
  pose proof (wait_for_waypoint_loop_terminates (S fuel) xyt
                (fdiv 1 (inject_Z rate)) pthr rthr timeout (now (tick 0 w))
                Hlag Hdbg Hdpos Hbase fuel (tick 0 w)) as H.
  destruct (wait_for_waypoint_loop _ _ _ _ _ _ _ _ _) as [[r w'] t].
  cbn [fst snd] in *. apply H.
  assert (Hlt : (timeout < inject_Z (Z.of_nat fuel) / inject_Z rate)%Q).
  { apply Qlt_shift_div_l; [done|].
    rewrite (Nat2Z.inj_succ fuel) in Hfuel. unfold Z.succ in Hfuel.
    rewrite inject_Z_plus in Hfuel. change (inject_Z 1) with 1%Q in Hfuel. lra. }
  rewrite Hd. unfold Qdiv in *. lra.
Qed.

Lemma navigate_nonblocking_run (fuel : nat) (xyt : list Q) (relative : bool)
    (timeout : Q) (w : world) :
  len xyt = 3 →
  navigate_to fuel xyt relative false timeout w
  = (Ok tt, tick (2#10) (sent_world w),
     command_events (nav_fields xyt relative false) w ++ [Sleep (2#10)]).
Proof.
  intros Hlen. destruct (py_index_2_of_3 xyt Hlen) as [th Hth].
  rewrite (navigate_to_after_send _ _ _ _ _ _ th) by done.
  unfold after_send. cbn [truthy]. rewrite run_bind, sleep_run. by run_all.
Qed.

Lemma execute_trajectory_loop_cons (fuel : nat) (p : list Q)
    (rest : list (list Q)) (pthr rthr : Q) (rate : Z) (wpt : Q)
    (relative : bool) (pt : option (list Q)) :
  execute_trajectory_loop fuel (p :: rest) pthr rthr rate wpt relative pt =
  if negb ((len p =? 3) || (len p =? 2)) then raise AssertionError
  else
    navigate_to fuel p relative false 10 ;;
    wait_for_waypoint fuel p rate pthr rthr wpt ;;
    execute_trajectory_loop fuel rest pthr rthr rate wpt relative (Some p).
Proof. reflexivity. Qed.

Lemma execute_trajectory_loop_spec fuel pthr rthr rate wpt relative :
  ∀ trajectory pt w,
    Forall (λ p, len p = 3) trajectory →
    let run := execute_trajectory_loop fuel trajectory pthr rthr rate wpt
                 relative pt w in
    nav_part <$> sends run.2
      `prefix_of` map (λ p, nav_command p relative false) trajectory
    ∧ (∀ pt', run.1.1 = Ok pt' →
         nav_part <$> sends run.2
         = map (λ p, nav_command p relative false) trajectory
         ∧ pt' = from_option Some pt (last trajectory))
    ∧ ((∀ k, (0 <= lag k)%Q) → (∀ k, debugger k ≠ PdbHang) → 0 < rate →
       waypoint_fuel_ok fuel rate wpt →
       run.1.1 ≠ OutOfFuel).
Proof.
  induction trajectory as [|p rest IH]; intros pt w Hall; cbv zeta.
  { cbn [execute_trajectory_loop mret M_ret fst snd]. split_and!; try done.
    by intros pt' [= <-]. }
  apply Forall_cons in Hall as [Hp Hrest].
  cbn [execute_trajectory_loop]. rewrite Hp.
  change (negb ((3 =? 3) || (3 =? 2))) with false. cbv iota.
  rewrite run_bind.
  pose proof (navigate_to_effect fuel p relative false 10 w Hp) as Hnav.
  pose proof (navigate_to_after_send fuel p relative false 10 w) as Hrun.
  cbv zeta in Hnav.
  assert (Hok : (navigate_to fuel p relative false 10 w).1.1 = Ok tt).
  { destruct (py_index_2_of_3 p Hp) as [th Hth].
    rewrite (Hrun th Hp Hth). unfold after_send.
    rewrite run_bind, sleep_run. done. }
  clear Hrun.
  destruct (navigate_to fuel p relative false 10 w) as [[r1 w1] t1].
  cbn [fst snd] in *. subst r1. destruct Hnav as [Hs1 Hn1].
  rewrite run_bind.
  pose proof (passive_wait_for_waypoint fuel p rate pthr rthr wpt w1)
    as (Hs2 & Hn2 & _).
  pose proof (wait_for_waypoint_terminates fuel p rate pthr rthr wpt w1) as Ht2.
  destruct (wait_for_waypoint fuel p rate pthr rthr wpt w1) as [[r2 w2] t2].
  cbn [fst snd] in *.
  destruct r2 as [b|e|].
  - specialize (IH (Some p) w2 Hrest). cbv zeta in IH.
    destruct (execute_trajectory_loop fuel rest pthr rthr rate wpt relative
                (Some p) w2) as [[r3 w3] t3].
    cbn [fst snd] in *. destruct IH as (IH1 & IH2 & IH3).
    rewrite !sends_app, Hs2, !fmap_app, Hs1. cbn [app fmap list_fmap map].
    split_and!.
    + by apply prefix_cons.
    + intros pt' Hr. destruct (IH2 pt' Hr) as [E ->]. split; [by rewrite E|].
      rewrite last_cons. by destruct (last rest).
    + done.
  - cbn [fst snd]. rewrite !sends_app, Hs2, !fmap_app, Hs1.
    cbn [app fmap list_fmap map]. split_and!; try done.
    apply prefix_cons, prefix_nil.
  - cbn [fst snd]. rewrite !sends_app, Hs2, !fmap_app, Hs1.
    cbn [app fmap list_fmap map]. split_and!; try done.
    + apply prefix_cons, prefix_nil.
    + intros Hlag Hdbg Hrate Hfuel. by destruct (Ht2 Hlag Hdbg Hrate Hfuel).
Qed.





End Facts.



Lemma arm_to_six_dof_witness :
  ∃ a, sends (arm_to (env:=silent) (lib:=sample_library) 0
                [1; 2; 3; 4; 5; 6; 7; 8]%Q false fresh_world).2 = [a]
       ∧ a !! "joint" = Some (PyVec [1; 2; 3; 4; 5; 6]%Q).
Proof.
  destruct (arm_to_six_dof (env:=silent) (lib:=sample_library) 0
              [1; 2; 3; 4; 5; 6; 7; 8]%Q false fresh_world)
    as (_ & _ & H & _).
  apply H; reflexivity.
Defined.

Lemma wait_for_action_converges_witness :
  let run := _wait_for_action (env:=steady) (lib:=sample_library)
               1001 0 10 None None (Some 1) None fresh_world in
  run.1.1 ≠ OutOfFuel
  ∧ (run.1.1 = Ok tt
     ↔ converged (lib:=sample_library) 0 (1#100) (1#100) 1 (polled run.2) = true).
Proof.
  destruct (wait_for_action_converges (env:=steady) (lib:=sample_library)
              1001 0 10 None None (Some 1) None fresh_world)
    as (H1 & H2 & _).
  - intros k. simpl. lra.
  - vm_compute. lia.
  - split; [exact H1|exact H2].
Defined.

(** C2 as stated fails.  With the default [min_steps_not_moving = 1]
    the robot reports twice from the same place, at goal and past the
    awaited step: at the second poll it has been observed not-moving for
    one poll, which is "at least [min_steps_not_moving]", yet the wait
    goes on and, as nothing more arrives, ends in the timeout error. *)
Lemma one_still_poll_is_not_enough :
  let run := _wait_for_action (env:=two_reports) (lib:=sample_library)
               1001 0 10 None None (Some 1) None fresh_world in
  polled run.2 = [(at_rest 0, 5); (at_rest 1, 5)]
  ∧ claimed_converged (lib:=sample_library) 0 (1#100) (1#100) 1 (polled run.2) = true
  ∧ run.1.1 = Raise (RuntimeError "Timeout waiting for block").
Proof. cbv zeta. split_and!; vm_compute; reflexivity. Qed.

Lemma wait_consumes_observations_witness :
  let run := navigate_to (env:=steady) (lib:=sample_library) 1001
               [0; 0; 0]%Q false true 10 fresh_world in
  run.1.1 = Ok tt
  ∧ ∃ ob, (get_observation run.1.2).1.1 = Ok (Some ob).
Proof.
  cbv zeta.
  assert (Hok : (navigate_to (env:=steady) (lib:=sample_library) 1001
                   [0; 0; 0]%Q false true 10 fresh_world).1.1 = Ok tt)
    by (vm_compute; reflexivity).
  split; [exact Hok|].
  destruct (wait_consumes_observations (env:=steady) (lib:=sample_library)
              1001 0 10 (1#100) (1#100) 1 None (WaitVars None None 0) fresh_world)
    as (_ & _ & H).
  exact (H [0; 0; 0]%Q false Hok).
Defined.

(** C10 as stated fails in its second half: there is no run in which a
    blocking [navigate_to] returns and [get_observation], called right
    after it, finds the slot empty. *)
Lemma no_absent_observation_after_blocking_return :
  ¬ ∃ (env : Environment) (lib : Library) (fuel : nat) (xyt : list Q)
      (relative : bool) (timeout : Q) (w : world),
      let run := navigate_to fuel xyt relative true timeout w in
      run.1.1 = Ok tt ∧ (get_observation run.1.2).1.1 = Ok None.
Proof.
  intros (env & lib & fuel & xyt & relative & timeout & w & Hok & Hnone).
  destruct (get_observation_some _ (navigate_to_blocking_slot _ _ _ _ _ Hok))
    as [ob Hob].
  rewrite Hob in Hnone. discriminate.
Qed.



End ZmqClientProps.

(** * Properties of the grasp operation *)

Module GraspObjectProps.
Import GraspObject.

Section Facts.
Context {idx : HelloStretchIdx} {trig : Trig} {sensor : SemanticSensor}
  {kin : Kinematics}.

(** ** Reasoning about the operation *)

Lemma g_run_bind {A B} (m : G A) (k : A → G B) (s : bool) :
  (m ≫= k) s =
  match m s with
  | (Ok a, s1, t1) => match k a s1 with (r, s2, t2) => (r, s2, t1 ++ t2) end
  | (Raise e, s1, t1) => (Raise e, s1, t1)
  | (OutOfFuel, s1, t1) => (OutOfFuel, s1, t1)
  end.
Proof. reflexivity. Qed.

Ltac g_all :=
  repeat first
    [ rewrite g_run_bind
    | progress cbn [need throw tell set_success no_input mret G_ret app fst snd] ].

Lemma quiet_ret {A} (a : A) : quiet (mret a).
Proof. intros s. by eexists. Qed.

Lemma quiet_throw {A} (e : exn) : quiet (@throw A e).
Proof. intros s. by eexists. Qed.

Lemma quiet_need {A} (e : exn) (x : option A) : quiet (need e x).
Proof. destruct x; [apply quiet_ret|apply quiet_throw]. Qed.

Lemma quiet_bind {A B} (m : G A) (k : A → G B) :
  quiet m → (∀ a, quiet (k a)) → quiet (m ≫= k).
Proof.
  intros Hm Hk s. rewrite g_run_bind. destruct (Hm s) as [r ->].
  destruct r as [a| |]; [|by eexists..].
  destruct (Hk a s) as [r' ->]. by eexists.
Qed.

Lemma quiet_run {A} (m : G A) (s : bool) :
  quiet m → m s = ((m s).1.1, s, []).
Proof. intros Hm. by destruct (Hm s) as [r ->]. Qed.

Lemma quiet_select_step cm im cx cy prev sel iid :
  quiet (select_step cm im cx cy prev sel iid).
Proof.
  unfold select_step.
  apply quiet_bind; [apply quiet_need|]. intros in_class.
  apply quiet_bind.
  { destruct in_class; [apply quiet_need|apply quiet_ret]. }
  intros [|]; apply quiet_ret.
Qed.

Lemma quiet_select_loop cm im cx cy prev ids :
  ∀ sel, quiet (select_loop cm im cx cy prev sel ids).
Proof.
  induction ids as [|iid rest IH]; intros sel; [apply quiet_ret|].
  cbn [select_loop]. apply quiet_bind; [apply quiet_select_step|].
  intros [m|sel']; [apply quiet_ret|apply IH].
Qed.

Lemma quiet_get_target_mask cfg s center prev :
  quiet (get_target_mask cfg s center prev).
Proof.
  unfold get_target_mask. destruct center as [cx cy].
  apply quiet_bind; [apply quiet_select_loop|].
  intros [m|sel]; apply quiet_ret.
Qed.

Lemma quiet_read_joints cfg fr : quiet (read_joints cfg fr).
Proof.
  unfold read_joints. destruct (open_loop cfg); [apply quiet_ret|].
  repeat (apply quiet_bind; [apply quiet_need|]; intros ?).
  apply quiet_ret.
Qed.

(** *** The open-loop planner *)

(** C7. Let the joint state returned by the inverse-kinematics solver
    have an entry for the base, the arm and the lift.  If the solver
    reports no solution, or the solved arm extension is negative, or the
    solved lift is negative, then [grasp_open_loop] sets the success
    flag of the operation to false (so [was_successful] is false) and
    issues no motion command; this holds also when the solver's own
    success flag is true.  The solver is called exactly once. *)
Theorem grasp_open_loop_rejects (cfg : config) (fr : frame)
    (object_xyz : option (list Q)) (s0 : bool)
    (target target' : list Q) (ok : bool) (base_x arm lift : Q) :
  manip_ik_for_grasp_frame
    (point_global_to_base object_xyz (open_loop_base_pose fr))
    (manip_fk (open_loop_joint_state fr)).2 (open_loop_joint_state fr)
  = (target, ok) →
  py_index target BASE_X = Some base_x →
  py_setitem target BASE_X (fsub base_x (4#100)) = Some target' →
  py_index target' ARM = Some arm →
  py_index target' LIFT = Some lift →
  ok = false ∨ (arm < 0)%Q ∨ (lift < 0)%Q →
  let run := grasp_open_loop cfg fr object_xyz s0 in
  run.1.1 = Ok None
  ∧ was_successful run.1.2 = false
  ∧ filter (λ c, is_motion c = true) run.2 = []
  ∧ run.2 = [SolveIK (point_global_to_base object_xyz (open_loop_base_pose fr))
               (manip_fk (open_loop_joint_state fr)).2 (open_loop_joint_state fr)].
Proof.
  intros Hik Hbx Hset Harm Hlift Hbad. cbv zeta. unfold grasp_open_loop.
  destruct (manip_fk (open_loop_joint_state fr)) as [ee_pos ee_rot].
  cbn [snd] in Hik. g_all. rewrite Hik. g_all. rewrite Hbx. g_all.
  rewrite Hset. g_all.
  destruct ok; cbn [negb]; [|by g_all].
  rewrite Harm. g_all.
  destruct Hbad as [?|[Hneg|Hneg]]; [done| |].
  - apply Qltb_lt in Hneg. rewrite Hneg. by g_all.
  - destruct (Qltb arm 0); g_all; [done|].
    rewrite Hlift. g_all. apply Qltb_lt in Hneg. rewrite Hneg. by g_all.
Qed.

Lemma servo_body_perceived cfg v fr joints m depth s :
  perceives cfg v fr joints m depth →
  servo_body cfg v fr s =
  if num_pts m =? 0 then lost_track cfg v fr s
  else track cfg v m joints (aim_center cfg fr).1 (aim_center cfg fr).2
         (fdiv depth 1000) fr s.
Proof.
  intros (Hj & Hm & Hd). unfold servo_body. rewrite g_run_bind, Hj.
  destruct (aim_center cfg fr) as [cx cy] eqn:Hc. cbn [fst snd] in *.
  rewrite g_run_bind, Hm. rewrite Hd. g_all.
  destruct (num_pts m =? 0).
  - by destruct (lost_track cfg v fr s) as [[r s'] t].
  - by destruct (track cfg v m joints cx cy (fdiv depth 1000) fr s) as [[r s'] t].
Qed.

(** C5. If the target mask is empty on a turn of the servo loop and the
    controller has never been aligned, the turn ends with [return False]
    and issues no command at all; in particular
    [visual_servo_to_object] returns [False] without any command when
    this happens on the first frame. *)
Theorem lost_before_alignment_fails (cfg : config) (v : servo_vars) (fr : frame)
    (s : bool) (max_duration t0 : Q) (rest : list frame) :
  aligned_once v = false →
  empty_mask_frame cfg v fr →
  servo_body cfg v fr s = (Ok (Return (Some false)), s, [])
  ∧ (success v = false →
     servo_loop cfg max_duration t0 v (fr :: rest) s = (Ok (Some false), s, []))
  ∧ (v = initial_vars →
     visual_servo_to_object cfg max_duration t0 (fr :: rest) s
     = (Ok (Some false), s, [])).
Proof.
  intros Hal (joints & m & depth & Hper & Hempty).
  assert (Hbody : servo_body cfg v fr s = (Ok (Return (Some false)), s, [])).
  { rewrite (servo_body_perceived _ _ _ _ _ _ _ Hper), Hempty.
    change (0 =? 0) with true. cbv iota. unfold lost_track. by rewrite Hal. }
  assert (Hloop : success v = false →
    servo_loop cfg max_duration t0 v (fr :: rest) s = (Ok (Some false), s, [])).
  { intros Hs. cbn [servo_loop].
    destruct (Qltb (clock fr - t0) max_duration).
    - rewrite g_run_bind, Hbody. by g_all.
    - by rewrite Hs. }
  split_and!; [done..|].
  intros ->. by apply Hloop.
Qed.

Lemma lost_track_retry cfg v fr s n :
  aligned_once v = true → 0 ≤ n < 5 →
  empty_mask_frame cfg v fr →
  servo_body cfg (with_failed_counter n v) fr s
  = (Ok (Continue (with_failed_counter (n + 1) v)), s, []).
Proof.
  intros Hal Hn (joints & m & depth & Hper & Hempty).
  rewrite (servo_body_perceived _ _ _ joints m depth) by exact Hper.
  rewrite Hempty. change (0 =? 0) with true. cbv iota. unfold lost_track.
  cbn [aligned_once failed_counter with_failed_counter]. rewrite Hal.
  cbn [negb]. destruct (n <? 5) eqn:E; [done|lia].
Qed.

Lemma lost_track_fallback cfg v fr s :
  aligned_once v = true →
  empty_mask_frame cfg v fr →
  servo_body cfg (with_failed_counter 5 v) fr s
  = match grasp_open_loop cfg fr (current_xyz v) s with
    | (Ok r, s', t) => (Ok (Return r), s', t)
    | (Raise e, s', t) => (Raise e, s', t)
    | (OutOfFuel, s', t) => (OutOfFuel, s', t)
    end.
Proof.
  intros Hal (joints & m & depth & Hper & Hempty).
  rewrite (servo_body_perceived _ _ _ joints m depth) by exact Hper.
  rewrite Hempty. change (0 =? 0) with true. cbv iota. unfold lost_track.
  cbn [aligned_once failed_counter with_failed_counter current_xyz]. rewrite Hal.
  cbn [negb]. change (5 <? 5) with false. cbv iota. rewrite g_run_bind.
  destruct (grasp_open_loop cfg fr (current_xyz v) s) as [[[r| |] s'] t];
    g_all; by rewrite ?app_nil_r.
Qed.

Lemma servo_loop_continue cfg max_duration t0 v v' fr rest s :
  Qltb (clock fr - t0) max_duration = true →
  servo_body cfg v fr s = (Ok (Continue v'), s, []) →
  servo_loop cfg max_duration t0 v (fr :: rest) s
  = servo_loop cfg max_duration t0 v' rest s.
Proof.
  intros Ht Hb. cbn [servo_loop]. rewrite Ht, g_run_bind, Hb.
  by destruct (servo_loop cfg max_duration t0 v' rest s) as [[r s'] t].
Qed.

Ltac g_crunch :=
  repeat first
    [ progress g_all
    | match goal with
      | |- context [_grasp ?f ?s] =>
          destruct (_grasp f s) as [[[?| |] ?] ?]
      | |- context [need _ ?x] => destruct x eqn:?
      | |- context [if ?b then _ else _] => destruct b eqn:?
      end ].

Lemma approach_keeps cfg v m joints dx dy cd fr s v' :
  (approach cfg v m joints dx dy cd fr s).1.1 = Ok (Continue v')
  ∨ (approach cfg v m joints dx dy cd fr s).1.1 = Ok (Break v') →
  failed_counter v' = failed_counter v ∧ current_xyz v' = current_xyz v.
Proof.
  unfold approach. destruct joints as [[[base_x wrist_pitch] arm] lift].
  g_crunch; intros [[=]|[=]]; by subst.
Qed.

Lemma approach_continue cfg v m joints dx dy cd fr s v' :
  (approach cfg v m joints dx dy cd fr s).1.1 = Ok (Continue v') →
  failed_counter v' = failed_counter v ∧ current_xyz v' = current_xyz v.
Proof. intros H. apply (approach_keeps cfg v m joints dx dy cd fr s). by left. Qed.

(** Whenever the loop variables survive a turn with a non-empty mask,
    the counter is back at zero and the estimate is the point at the
    centre of the mask. *)
Lemma track_resets cfg v m joints cx cy cd fr s v' :
  (track cfg v m joints cx cy cd fr s).1.1 = Ok (Continue v')
  ∨ (track cfg v m joints cx cy cd fr s).1.1 = Ok (Break v') →
  failed_counter v' = 0
  ∧ is_Some (current_xyz v')
  ∧ current_xyz v'
    = getitem2 (world_xyz (servo fr)) (py_int (mask_mean m).1)
        (py_int (mask_mean m).2).
Proof.
  unfold track. destruct (negb _); [by intros [?|?]|].
  rewrite g_run_bind.
  destruct (getitem2 (world_xyz (servo fr)) _ _) as [xyz|]; [|by intros [?|?]].
  g_all. destruct (show_servo_gui cfg && _).
  { intros [[=]|[= <-]]. by split_and!. }
  destruct (min_points_to_approach cfg <? num_pts m).
  - rewrite g_run_bind. destruct (getitem2 m cy cx) as [cim|]; [|by intros [?|?]].
    g_all. destruct joints as [j|]; [|by intros [?|?]]. g_all.
    destruct (cim && _).
    + rewrite g_run_bind. destruct (_grasp fr s) as [[[?| |] ?] ?];
        [|by intros [?|?]..].
      g_all. intros [[=]|[= <-]]. by split_and!.
    + match goal with |- context [approach ?c ?v0 ?m0 ?j0 ?a ?b ?d ?f ?s0] =>
        pose proof (approach_keeps c v0 m0 j0 a b d f s0 v') as H;
        destruct (approach c v0 m0 j0 a b d f s0) as [[r s'] t] end.
      cbn [fst snd app] in *. intros Hr. destruct (H Hr) as [-> ->].
      by split_and!.
  - destruct (Qltb cd _).
    + rewrite g_run_bind. destruct (_grasp fr s) as [[[?| |] ?] ?];
        [|by intros [?|?]..].
      g_all. intros [[= <-]|[=]]. by split_and!.
    + g_all. intros [[= <-]|[=]]. by split_and!.
Qed.

Lemma track_continue cfg v m joints cx cy cd fr s v' :
  (track cfg v m joints cx cy cd fr s).1.1 = Ok (Continue v') →
  failed_counter v' = 0 ∧ is_Some (current_xyz v').
Proof.
  intros H. destruct (track_resets cfg v m joints cx cy cd fr s v') as (? & ? & _);
    [by left|done].
Qed.

(** A non-empty mask that is too small for an approach, away from the
    grasping range: the turn does nothing but set the counter back and
    record the estimate. *)
Lemma track_small_mask cfg v m joints cx cy cd fr s xyz :
  turn_in_order cfg fr m →
  getitem2 (world_xyz (servo fr)) (py_int (mask_mean m).1) (py_int (mask_mean m).2)
  = Some xyz →
  num_pts m ≤ min_points_to_approach cfg →
  Qltb cd (median_distance_when_grasping cfg) = false →
  track cfg v m joints cx cy cd fr s
  = (Ok (Continue (with_current_xyz (Some xyz) (with_failed_counter 0 v))), s, []).
Proof.
  intros (Hshape & _ & Hkey) Hxyz Hsmall Hfar. unfold track.
  rewrite Hshape. cbn [negb]. rewrite g_run_bind, Hxyz. g_all. rewrite Hkey.
  destruct (min_points_to_approach cfg <? num_pts m) eqn:E; [lia|].
  by rewrite Hfar.
Qed.

Lemma servo_loop_step cfg max_duration t0 v v' fr rest s s' t :
  Qltb (clock fr - t0) max_duration = true →
  servo_body cfg v fr s = (Ok (Continue v'), s', t) →
  servo_loop cfg max_duration t0 v (fr :: rest) s
  = match servo_loop cfg max_duration t0 v' rest s' with
    | (r, s2, t2) => (r, s2, t ++ t2)
    end.
Proof. intros Ht Hb. cbn [servo_loop]. by rewrite Ht, g_run_bind, Hb. Qed.

(** C6. After the controller has been aligned once, with the failure
    counter at zero: each of five consecutive frames with an empty
    target mask is skipped without any command, the counter going up by
    one each time; on the sixth consecutive such frame the loop hands
    over to [grasp_open_loop] with the last 3D estimate [current_xyz]
    and returns what it returns.  Any turn with a non-empty mask that
    the loop variables survive, whether the loop goes on or is left, has
    set the counter back to zero and has recorded as the estimate the
    point at the centre of the mask; on a mask too small for an approach
    and away from grasping range that is all the turn does.  So when
    such a turn, started with any counter, is followed by six frames
    with an empty mask, the fallback is invoked on the sixth of them, at
    the point that this turn has recorded. *)
Theorem lost_track_retries_then_falls_back (cfg : config) (v : servo_vars)
    (s : bool) (max_duration t0 : Q) (f1 f2 f3 f4 f5 f6 : frame)
    (rest : list frame) :
  aligned_once v = true →
  failed_counter v = 0 →
  Forall (λ f, empty_mask_frame cfg v f
               ∧ Qltb (clock f - t0) max_duration = true)
    [f1; f2; f3; f4; f5; f6] →
  (∀ n f, 0 ≤ n < 5 → empty_mask_frame cfg v f →
          servo_body cfg (with_failed_counter n v) f s
          = (Ok (Continue (with_failed_counter (n + 1) v)), s, []))
  ∧ servo_loop cfg max_duration t0 v ([f1; f2; f3; f4; f5; f6] ++ rest) s
    = grasp_open_loop cfg f6 (current_xyz v) s
  ∧ (∀ v0 f joints m depth v',
       perceives cfg v0 f joints m depth → num_pts m ≠ 0 →
       (servo_body cfg v0 f s).1.1 = Ok (Continue v')
       ∨ (servo_body cfg v0 f s).1.1 = Ok (Break v') →
       failed_counter v' = 0
       ∧ is_Some (current_xyz v')
       ∧ current_xyz v'
         = getitem2 (world_xyz (servo f)) (py_int (mask_mean m).1)
             (py_int (mask_mean m).2))
  ∧ (∀ v0 f joints m depth xyz,
       perceives cfg v0 f joints m depth →
       0 < num_pts m ≤ min_points_to_approach cfg →
       turn_in_order cfg f m →
       getitem2 (world_xyz (servo f)) (py_int (mask_mean m).1)
         (py_int (mask_mean m).2) = Some xyz →
       Qltb (fdiv depth 1000) (median_distance_when_grasping cfg) = false →
       servo_body cfg v0 f s
       = (Ok (Continue (with_current_xyz (Some xyz) (with_failed_counter 0 v0))),
          s, []))
  ∧ (∀ v0 f0 joints m depth t,
       perceives cfg v0 f0 joints m depth → num_pts m ≠ 0 →
       Qltb (clock f0 - t0) max_duration = true →
       servo_body cfg v0 f0 s = (Ok (Continue v), s, t) →
       servo_loop cfg max_duration t0 v0 (f0 :: [f1; f2; f3; f4; f5; f6] ++ rest) s
       = match grasp_open_loop cfg f6
                 (getitem2 (world_xyz (servo f0)) (py_int (mask_mean m).1)
                    (py_int (mask_mean m).2)) s with
         | (r, s', t') => (r, s', t ++ t')
         end).
Proof.
  intros Hal Hzero Hframes.
  assert (Hfall :
    servo_loop cfg max_duration t0 v ([f1; f2; f3; f4; f5; f6] ++ rest) s
    = grasp_open_loop cfg f6 (current_xyz v) s).
  { repeat (apply Forall_cons in Hframes as [[?He ?Ht] Hframes]).
    assert (Hv : v = with_failed_counter 0 v).
    { destruct v. cbn in Hzero. by subst. }
    rewrite Hv at 1. cbn [app].
    rewrite (servo_loop_continue _ _ _ _ (with_failed_counter (0 + 1) v))
      by (try done; by apply lost_track_retry).
    rewrite (servo_loop_continue _ _ _ _ (with_failed_counter (1 + 1) v))
      by (try done; by apply lost_track_retry).
    rewrite (servo_loop_continue _ _ _ _ (with_failed_counter (2 + 1) v))
      by (try done; by apply lost_track_retry).
    rewrite (servo_loop_continue _ _ _ _ (with_failed_counter (3 + 1) v))
      by (try done; by apply lost_track_retry).
    rewrite (servo_loop_continue _ _ _ _ (with_failed_counter (4 + 1) v))
      by (try done; by apply lost_track_retry).
    cbn [servo_loop]. rewrite Ht4, g_run_bind.
    change (4 + 1) with 5. rewrite lost_track_fallback by done.
    destruct (grasp_open_loop cfg f6 (current_xyz v) s) as [[[r| |] s'] t];
      g_all; by rewrite ?app_nil_r. }
  assert (Hreset : ∀ v0 f joints m depth v',
       perceives cfg v0 f joints m depth → num_pts m ≠ 0 →
       (servo_body cfg v0 f s).1.1 = Ok (Continue v')
       ∨ (servo_body cfg v0 f s).1.1 = Ok (Break v') →
       failed_counter v' = 0
       ∧ is_Some (current_xyz v')
       ∧ current_xyz v'
         = getitem2 (world_xyz (servo f)) (py_int (mask_mean m).1)
             (py_int (mask_mean m).2)).
  { intros v0 f joints m depth v' Hper Hne.
    rewrite (servo_body_perceived _ _ _ joints m depth) by exact Hper.
    destruct (num_pts m =? 0) eqn:E; [lia|]. apply track_resets. }
  split_and!.
  - intros n f Hn Hf. by apply lost_track_retry.
  - exact Hfall.
  - exact Hreset.
  - intros v0 f joints m depth xyz Hper Hsmall Hord Hxyz Hfar.
    rewrite (servo_body_perceived _ _ _ joints m depth) by exact Hper.
    destruct (num_pts m =? 0) eqn:E; [lia|].
    apply track_small_mask; [done|done|lia|done].
  - intros v0 f0 joints m depth t Hper Hne Ht Hbody.
    destruct (Hreset v0 f0 joints m depth v Hper Hne) as (_ & _ & <-).
    { left. by rewrite Hbody. }
    rewrite (servo_loop_step _ _ _ _ _ _ _ _ _ _ Ht Hbody). by rewrite Hfall.
Qed.

Lemma getitem2_lookup {A} (img : image A) (y x : Z) (a : A) :
  getitem2 img y x = Some a → ∃ k, pixels img !! k = Some a.
Proof.
  unfold getitem2. destruct (axis_index (shape0 img) y) as [r|]; [|done].
  destruct (axis_index (shape1 img) x) as [c|]; [|done]. cbn. eauto.
Qed.

Lemma num_pts_pos (m : mask) (y x : Z) :
  getitem2 m y x = Some true → 0 < num_pts m.
Proof.
  intros [k Hk]%getitem2_lookup. apply list_elem_of_lookup_2 in Hk.
  assert (Hin : true ∈ filter (λ b : bool, b = true) (pixels m)).
  { by apply list_elem_of_filter. }
  unfold num_pts. destruct (filter _ (pixels m)); [|simpl; lia].
  by apply elem_of_nil in Hin.
Qed.

Lemma py_setitem_is_Some {A} (l : list A) (i : Z) (x y : A) :
  py_index l i = Some x → is_Some (py_setitem l i y).
Proof.
  unfold py_index, py_setitem. repeat case_match; naive_solver.
Qed.

Lemma grasp_run fr s l :
  py_index (grasp_joint_state fr) LIFT = Some l →
  ∃ lifted,
    py_setitem (grasp_joint_state fr) LIFT (fadd l (2#10)) = Some lifted
    ∧ _grasp fr s
      = (Ok true, s, [CloseGripper true; SleepFor (1#2); ArmTo lifted true]).
Proof.
  intros Hl. destruct (py_setitem_is_Some _ _ _ (fadd l (2#10)) Hl) as [lifted Hs].
  exists lifted. split; [done|]. unfold _grasp. g_all. rewrite Hl. g_all.
  rewrite Hs. by g_all.
Qed.

(** The grasp decision where the code makes it as documented.  Take a
    turn of the servo loop in which the aim pixel is inside
    the target mask, the close-range threshold is 0.175 m, and the mask
    is large enough for a median object depth (more than
    [min_points_to_approach] pixels).  If the depth at the aim pixel is
    150 mm (0.15 m) the controller closes the gripper, lifts the arm and
    leaves the loop, and [visual_servo_to_object] returns [True].  If it
    is 200 mm (0.20 m) and the median object depth is not below the
    threshold either, the turn issues no gripper command: it moves the
    arm one step and goes on. *)
Theorem grasp_decision_at_close_range (cfg : config) (v : servo_vars)
    (fr : frame) (s : bool) (joints : Q * Q * Q * Q) (m : mask) (depth l : Q)
    (max_duration t0 : Q) (rest : list frame) :
  median_distance_when_grasping cfg = 175#1000 →
  perceives cfg v fr (Some joints) m depth →
  getitem2 m (aim_center cfg fr).2 (aim_center cfg fr).1 = Some true →
  min_points_to_approach cfg < num_pts m →
  turn_in_order cfg fr m →
  py_index (grasp_joint_state fr) LIFT = Some l →
  (depth = 150%Q →
   ∃ lifted v',
     py_setitem (grasp_joint_state fr) LIFT (fadd l (2#10)) = Some lifted
     ∧ servo_body cfg v fr s
       = (Ok (Break v'), s,
          [CloseGripper true; SleepFor (1#2); ArmTo lifted true])
     ∧ success v' = true
     ∧ (Qltb (clock fr - t0) max_duration = true →
        servo_loop cfg max_duration t0 v (fr :: rest) s
        = (Ok (Some true), s,
           [CloseGripper true; SleepFor (1#2); ArmTo lifted true])))
  ∧ (depth = 200%Q →
     Qltb (fdiv (np_median (select (ee_depth (servo fr)) m)) 1000) (175#1000)
     = false →
     ∃ q v',
       servo_body cfg v fr s
       = (Ok (Continue v'), s,
          [ArmTo q true; SleepFor (expected_network_delay cfg)])).
Proof.
  intros Hthr Hper Hcenter Hlarge (Hshape & [xyz Hxyz] & Hkey) Hl.
  pose proof (num_pts_pos _ _ _ Hcenter) as Hpos.
  assert (Hbody : servo_body cfg v fr s
                  = track cfg v m (Some joints) (aim_center cfg fr).1
                      (aim_center cfg fr).2 (fdiv depth 1000) fr s).
  { rewrite (servo_body_perceived _ _ _ _ _ _ _ Hper).
    destruct (num_pts m =? 0) eqn:E; [lia|done]. }
  assert (Htrack : ∀ cd,
    track cfg v m (Some joints) (aim_center cfg fr).1 (aim_center cfg fr).2 cd fr s
    = (if Qltb cd (175#1000)
          || Qltb (fdiv (np_median (select (ee_depth (servo fr)) m)) 1000) (175#1000)
       then b ← _grasp fr;
            mret (Break (with_success b
                           (with_prev_target_mask (Some m)
                              (with_current_xyz (Some xyz)
                                 (with_failed_counter 0 v)))))
       else approach cfg
              (with_prev_target_mask (Some m)
                 (with_current_xyz (Some xyz) (with_failed_counter 0 v)))
              m joints
              (fsub (mask_mean m).2 (inject_Z (aim_center cfg fr).1))
              (fsub (mask_mean m).1 (inject_Z (aim_center cfg fr).2))
              cd fr) s).
  { intros cd. unfold track. rewrite Hshape. cbn [negb]. rewrite g_run_bind, Hxyz.
    g_all. rewrite Hkey.
    destruct (min_points_to_approach cfg <? num_pts m) eqn:E; [|lia].
    rewrite g_run_bind, Hcenter. g_all. rewrite Hthr. cbn [andb].
    match goal with |- _ = (if ?b then _ else _) _ => destruct b end.
    - match goal with |- _ = ?rhs => by destruct rhs as [[r s'] t] end.
    - by destruct (approach _ _ _ _ _ _ _ _ _) as [[r s'] t]. }
  split.
  - intros ->. destruct (grasp_run fr s l Hl) as (lifted & Hset & Hg).
    eexists lifted, _. split; [done|].
    assert (Hb : servo_body cfg v fr s
                 = (Ok (Break (with_success true
                                 (with_prev_target_mask (Some m)
                                    (with_current_xyz (Some xyz)
                                       (with_failed_counter 0 v))))), s,
                    [CloseGripper true; SleepFor (1#2); ArmTo lifted true])).
    { rewrite Hbody, Htrack.
      change (Qltb (fdiv 150 1000) (175#1000)) with true. cbn [orb].
      rewrite g_run_bind, Hg. by g_all. }
    split; [exact Hb|]. split; [done|].
    intros Ht. cbn [servo_loop]. rewrite Ht, g_run_bind, Hb. by g_all.
  - intros -> Hmed. rewrite Hbody, Htrack, Hmed.
    change (Qltb (fdiv 200 1000) (175#1000)) with false. cbn [orb].
    unfold approach. destruct joints as [[[base_x wrist_pitch] arm] lift].
    rewrite Hthr. change (Qltb (fdiv 200 1000) (175#1000)) with false.
    destruct (Qltb _ _ && Qltb _ _); g_all; by eexists _, _.
Qed.

(** On a mask too small for a median depth the close-range test is made
    at the aim pixel alone; the grasp is then executed but the loop goes
    on with the next frame. *)
Lemma small_mask_grasp_continues (cfg : config) (v : servo_vars) (fr : frame)
    (s : bool) (joints : option (Q * Q * Q * Q)) (m : mask) (depth l : Q) :
  perceives cfg v fr joints m depth →
  0 < num_pts m ≤ min_points_to_approach cfg →
  turn_in_order cfg fr m →
  py_index (grasp_joint_state fr) LIFT = Some l →
  Qltb (fdiv depth 1000) (median_distance_when_grasping cfg) = true →
  ∃ lifted v',
    servo_body cfg v fr s
    = (Ok (Continue v'), s,
       [CloseGripper true; SleepFor (1#2); ArmTo lifted true])
    ∧ success v' = true.
Proof.
  intros Hper Hsmall (Hshape & [xyz Hxyz] & Hkey) Hl Hclose.
  destruct (grasp_run fr s l Hl) as (lifted & Hset & Hg).
  rewrite (servo_body_perceived _ _ _ _ _ _ _ Hper).
  destruct (num_pts m =? 0) eqn:E; [lia|].
  unfold track. rewrite Hshape. cbn [negb]. rewrite g_run_bind, Hxyz.
  g_all. rewrite Hkey.
  destruct (min_points_to_approach cfg <? num_pts m) eqn:E'; [lia|].
  rewrite Hclose, g_run_bind, Hg. g_all. by eexists _, _.
Qed.

(** *** Target-mask selection *)

Lemma elem_of_insert_sorted (x y : Z) (l : list Z) :
  x ∈ insert_sorted y l ↔ x = y ∨ x ∈ l.
Proof.
  induction l as [|z l IH]; cbn [insert_sorted].
  - rewrite list_elem_of_singleton. split; [by left|].
    intros [?|H]; [done|]. by apply elem_of_nil in H.
  - destruct (y <? z) eqn:E1; [apply elem_of_cons|].
    destruct (y =? z) eqn:E2.
    + apply Z.eqb_eq in E2 as ->. rewrite elem_of_cons. tauto.
    + rewrite !elem_of_cons, IH. tauto.
Qed.

Lemma elem_of_np_unique (img : image Z) (x : Z) :
  x ∈ np_unique img ↔ x ∈ pixels img.
Proof.
  unfold np_unique. induction (pixels img) as [|y l IH]; [done|].
  cbn [foldr]. by rewrite elem_of_insert_sorted, IH, elem_of_cons.
Qed.

Lemma getitem2_img_map {A B} (f : A → B) (img : image A) (y x : Z) :
  getitem2 (img_map f img) y x = f <$> getitem2 img y x.
Proof.
  unfold getitem2, img_map. cbn [shape0 shape1 pixels].
  destruct (axis_index (shape0 img) y) as [r|]; [|done].
  destruct (axis_index (shape1 img) x) as [c|]; [|done].
  cbn. apply list_lookup_fmap.
Qed.

Lemma select_loop_centered cm im cx cy prev v s :
  getitem2 cm cy cx = Some true →
  getitem2 im cy cx = Some v →
  ∀ ids sel, v ∈ ids →
    select_loop cm im cx cy prev sel ids s = (Ok (inl (img_eq im v)), s, []).
Proof.
  intros Hc Hv. induction ids as [|iid rest IH]; intros sel Hin.
  { by apply elem_of_nil in Hin. }
  cbn [select_loop]. unfold select_step. rewrite g_run_bind. rewrite Hc.
  g_all. unfold img_eq at 1. rewrite getitem2_img_map, Hv. cbn [fmap option_fmap option_map].
  g_all. destruct (iid =? v) eqn:E.
  - apply Z.eqb_eq in E as ->. by g_all.
  - g_all. rewrite IH; [done|].
    apply elem_of_cons in Hin as [->|Hin]; [|done].
    rewrite Z.eqb_refl in E. done.
Qed.

Lemma select_loop_uncentered cm im cx cy prev s :
  getitem2 cm cy cx = Some false →
  ∀ ids sel,
    select_loop cm im cx cy prev sel ids s
    = (Ok (inr (fold_left (select_update cm im prev) ids sel)), s, []).
Proof.
  intros Hc. induction ids as [|iid rest IH]; intros sel; [done|].
  cbn [select_loop fold_left]. unfold select_step. rewrite g_run_bind, Hc.
  g_all. by rewrite IH.
Qed.

Lemma select_loop_out_of_bounds cm im cx cy prev s iid rest sel :
  getitem2 cm cy cx = None →
  select_loop cm im cx cy prev sel (iid :: rest) s = (Raise IndexError, s, []).
Proof.
  intros Hc. cbn [select_loop]. unfold select_step. rewrite g_run_bind, Hc.
  by g_all.
Qed.

Lemma acc_step (f : Z → mask) (done : list Z) (mo : option mask)
    (no : option Z) (iid : Z) :
  acc_inv f done mo no →
  acc_inv f (done ++ [iid])
    (if gt_ninf (num_pts (f iid)) no then Some (f iid) else mo)
    (if gt_ninf (num_pts (f iid)) no then Some (num_pts (f iid)) else no).
Proof.
  unfold acc_inv. destruct mo as [m|], no as [n|]; try done; cbn [gt_ninf].
  - intros [-> Hl]. destruct (num_pts m <? num_pts (f iid)) eqn:E.
    + split; [done|]. exists iid. split; [|split; [done|]].
      * apply elem_of_app. right. by apply list_elem_of_singleton.
      * intros j [Hj|Hj]%elem_of_app.
        -- destruct Hl as (i & _ & -> & Hmax). specialize (Hmax j Hj). lia.
        -- apply list_elem_of_singleton in Hj as ->. lia.
    + split; [done|]. destruct Hl as (i & Hi & -> & Hmax).
      exists i. split; [|split; [done|]].
      * apply elem_of_app. by left.
      * intros j [Hj|Hj]%elem_of_app; [by apply Hmax|].
        apply list_elem_of_singleton in Hj as ->. lia.
  - intros ->. split; [done|]. exists iid. split; [|split; [done|]].
    + by apply list_elem_of_singleton.
    + intros j Hj. apply list_elem_of_singleton in Hj as ->. lia.
Qed.

Lemma select_update_inv cm im prev done sel iid :
  select_inv cm im prev done sel →
  select_inv cm im prev (done ++ [iid]) (select_update cm im prev sel iid).
Proof.
  intros [Hb Ho]. unfold select_update, select_inv.
  pose proof (acc_step _ _ _ _ iid Hb) as Hb'.
  destruct prev as [p|].
  - pose proof (acc_step _ _ _ _ iid Ho) as Ho'.
    destruct (gt_ninf (num_pts (continuity_candidate cm im p iid))
                (maximum_overlap_pts sel));
      cbn [target_mask target_mask_pts maximum_overlap_mask maximum_overlap_pts];
      destruct (gt_ninf (num_pts (best_candidate cm im iid)) (target_mask_pts sel));
      cbn [target_mask target_mask_pts maximum_overlap_mask maximum_overlap_pts];
      done.
  - destruct (gt_ninf (num_pts (best_candidate cm im iid)) (target_mask_pts sel));
      cbn [target_mask target_mask_pts maximum_overlap_mask maximum_overlap_pts];
      done.
Qed.

Lemma select_fold_inv cm im prev :
  ∀ ids done sel,
    select_inv cm im prev done sel →
    select_inv cm im prev (done ++ ids)
      (fold_left (select_update cm im prev) ids sel).
Proof.
  induction ids as [|iid rest IH]; intros done sel Hinv.
  - by rewrite app_nil_r.
  - cbn [fold_left]. rewrite cons_middle, app_assoc.
    by apply IH, select_update_inv.
Qed.

Lemma select_inv_initial cm im prev :
  select_inv cm im prev [] (Selection None None None None).
Proof. unfold select_inv, acc_inv. cbn. by destruct prev. Qed.

Lemma num_pts_pos_lookup (m : mask) (k : nat) :
  pixels m !! k = Some true → 0 < num_pts m.
Proof.
  intros Hk. apply list_elem_of_lookup_2 in Hk.
  assert (Hin : true ∈ filter (λ b : bool, b = true) (pixels m)).
  { by apply list_elem_of_filter. }
  unfold num_pts. destruct (filter _ (pixels m)); [|simpl; lia].
  by apply elem_of_nil in Hin.
Qed.

Lemma num_pts_pos_inv (m : mask) :
  0 < num_pts m → ∃ k, pixels m !! k = Some true.
Proof.
  unfold num_pts. intros Hpos.
  destruct (filter (λ b : bool, b = true) (pixels m)) as [|b l] eqn:E;
    [simpl in Hpos; lia|].
  assert (Hin : b ∈ filter (λ b : bool, b = true) (pixels m)).
  { rewrite E. by left. }
  apply list_elem_of_filter in Hin as [-> Hin].
  by apply list_elem_of_lookup_1 in Hin.
Qed.

Lemma class_mask_length cfg sv :
  length (pixels (get_class_mask cfg sv)) = length (pixels (semantic sv)).
Proof.
  unfold get_class_mask.
  assert (H : ∀ ids m, length (pixels m) = length (pixels (semantic sv)) →
    length (pixels (fold_left
      (λ m iid, if is_target_class (target_object cfg) iid
                then np_bitwise_or m (img_eq (semantic sv) iid) else m)
      ids m)) = length (pixels (semantic sv))).
  { induction ids as [|iid rest IH]; intros m Hm; [done|].
    cbn [fold_left]. apply IH. destruct (is_target_class _ _); [|done].
    cbn [np_bitwise_or pixels img_eq img_map].
    rewrite length_zip_with, length_fmap. lia. }
  apply H. cbn [zeros_like img_map pixels]. apply length_fmap.
Qed.

Lemma best_candidate_nonempty cm im :
  length (pixels im) = length (pixels cm) →
  0 < num_pts cm →
  ∃ v, v ∈ np_unique im ∧ 0 < num_pts (best_candidate cm im v).
Proof.
  intros Hlen [k Hk]%num_pts_pos_inv.
  assert (is_Some (pixels im !! k)) as [v Hv].
  { apply lookup_lt_is_Some. rewrite Hlen. by apply lookup_lt_Some in Hk. }
  exists v. split.
  - apply elem_of_np_unique. by apply list_elem_of_lookup_2 in Hv.
  - apply (num_pts_pos_lookup _ k).
    cbn [best_candidate np_bitwise_and pixels img_eq img_map].
    rewrite lookup_zip_with, list_lookup_fmap, Hv, Hk. cbn.
    by rewrite Z.eqb_refl.
Qed.

Lemma getitem2_np_unique (im : image Z) (y x v : Z) :
  getitem2 im y x = Some v → v ∈ np_unique im.
Proof.
  intros [k Hk]%getitem2_lookup. apply elem_of_np_unique.
  by apply list_elem_of_lookup_2 in Hk.
Qed.

Lemma np_unique_nil (im : image Z) : pixels im = [] → np_unique im = [].
Proof. unfold np_unique. by intros ->. Qed.

Lemma np_unique_cons (im : image Z) :
  pixels im ≠ [] → ∃ iid rest, np_unique im = iid :: rest.
Proof.
  intros Hne. destruct (pixels im) as [|x l] eqn:E; [done|].
  assert (Hx : x ∈ np_unique im).
  { apply elem_of_np_unique. rewrite E. by left. }
  destruct (np_unique im) as [|iid rest]; [by apply elem_of_nil in Hx|eauto].
Qed.

Lemma get_target_mask_uncentered cfg sv cx cy prev s :
  getitem2 (get_class_mask cfg sv) cy cx = Some false →
  get_target_mask cfg sv (cx, cy) prev s
  = (Ok (select_final cfg prev
           (fold_left (select_update (get_class_mask cfg sv) (instance sv) prev)
              (np_unique (instance sv)) (Selection None None None None))),
     s, []).
Proof.
  intros Hc. unfold get_target_mask. rewrite g_run_bind.
  rewrite select_loop_uncentered by done. by g_all.
Qed.

(** C3, amended.  For a servo frame with class mask [cm] and instance
    map [im], aim pixel [(cx, cy)] and previous mask [prev]:
    if the aim pixel lies in the class mask, selection returns the whole
    mask of the instance under the aim pixel, whatever the candidates
    are; if it lies outside the class mask, selection returns the
    continuity candidate (a largest instance-mask ∩ previous-mask ∩
    class-mask) when a previous mask is given and that candidate has
    more than [min_points_to_approach] pixels, and otherwise the best
    candidate (a largest instance-mask ∩ class-mask), also when that one
    is empty; the previous mask is returned only for an image without
    pixels.  Whenever the class mask has a pixel, the returned mask has
    one too. *)
Theorem target_mask_selection (cfg : config) (sv : servo_obs) (cx cy : Z)
    (prev : option mask) (s : bool) :
  let cm := get_class_mask cfg sv in
  let im := instance sv in
  let ids := np_unique im in
  let run := get_target_mask cfg sv (cx, cy) prev s in
  (∀ v, getitem2 cm cy cx = Some true → getitem2 im cy cx = Some v →
        run = (Ok (Some (img_eq im v)), s, []))
  ∧ (getitem2 cm cy cx = Some false → pixels im ≠ [] →
     ∃ m, run = (Ok (Some m), s, [])
          ∧ ((∃ p, prev = Some p
                   ∧ largest_of (continuity_candidate cm im p) ids m
                   ∧ min_points_to_approach cfg < num_pts m)
             ∨ (largest_of (best_candidate cm im) ids m
                ∧ ∀ p j, prev = Some p → j ∈ ids →
                         num_pts (continuity_candidate cm im p j)
                         ≤ min_points_to_approach cfg)))
  ∧ (pixels im = [] → run = (Ok prev, s, []))
  ∧ (0 ≤ min_points_to_approach cfg →
     length (pixels im) = length (pixels (semantic sv)) →
     0 < num_pts cm →
     ∀ m, run.1.1 = Ok (Some m) → 0 < num_pts m).
Proof.
  intros cm im ids run.
  assert (HA : ∀ v, getitem2 cm cy cx = Some true → getitem2 im cy cx = Some v →
                    run = (Ok (Some (img_eq im v)), s, [])).
  { intros v Hc Hv. subst run. unfold get_target_mask. rewrite g_run_bind.
    rewrite (select_loop_centered _ _ _ _ _ v) by
      (try done; by apply (getitem2_np_unique _ cy cx)).
    by g_all. }
  assert (HB : getitem2 cm cy cx = Some false → pixels im ≠ [] →
     ∃ m, run = (Ok (Some m), s, [])
          ∧ ((∃ p, prev = Some p
                   ∧ largest_of (continuity_candidate cm im p) ids m
                   ∧ min_points_to_approach cfg < num_pts m)
             ∨ (largest_of (best_candidate cm im) ids m
                ∧ ∀ p j, prev = Some p → j ∈ ids →
                         num_pts (continuity_candidate cm im p j)
                         ≤ min_points_to_approach cfg))).
  { intros Hc Hne. subst run. rewrite get_target_mask_uncentered by done.
    fold cm im ids.
    pose proof (select_fold_inv cm im prev ids [] _ (select_inv_initial cm im prev))
      as [Hb Ho]. cbn [app] in Hb, Ho.
    destruct (np_unique_cons im Hne) as (i0 & rest & Hids). fold ids in Hids.
    set (sel := fold_left (select_update cm im prev) ids
                  (Selection None None None None)) in *.
    unfold select_final, acc_inv in *.
    destruct (target_mask sel) as [mt|], (target_mask_pts sel) as [nt|];
      try done; [|by rewrite Hids in Hb].
    destruct Hb as [-> Hlt].
    destruct prev as [p|].
    - destruct (maximum_overlap_mask sel) as [mo|],
               (maximum_overlap_pts sel) as [no|]; try done;
        [|by rewrite Hids in Ho].
      destruct Ho as [-> Hlo].
      destruct (min_points_to_approach cfg <? num_pts mo) eqn:E.
      + exists mo. split; [done|]. left. exists p. split_and!; [done..|lia].
      + exists mt. split; [done|]. right. split; [done|].
        intros p' j [= <-] Hj. destruct Hlo as (i & _ & -> & Hmax).
        specialize (Hmax j Hj). lia.
    - destruct Ho as [-> ->]. exists mt. split; [done|]. right.
      split; [done|]. by intros p j [=]. }
  assert (HC : pixels im = [] → run = (Ok prev, s, [])).
  { intros Hnil. subst run. unfold get_target_mask. fold im.
    rewrite (np_unique_nil _ Hnil). cbn [select_loop]. g_all.
    unfold select_final. cbn. done. }
  split; [exact HA|]. split; [exact HB|]. split; [exact HC|].
  intros Hmin Hlen Hpos m Hrun.
  assert (Hlen' : length (pixels im) = length (pixels cm)).
  { subst cm. by rewrite class_mask_length. }
  assert (Hne : pixels im ≠ []).
  { intros Hnil. destruct (num_pts_pos_inv _ Hpos) as [k Hk].
    apply lookup_lt_Some in Hk. rewrite <- Hlen', Hnil in Hk. simpl in Hk. lia. }
  destruct (np_unique_cons im Hne) as (i0 & rest & Hids).
  destruct (getitem2 cm cy cx) as [[|]|] eqn:Hc.
  - destruct (getitem2 im cy cx) as [v|] eqn:Hv.
    + rewrite (HA v eq_refl eq_refl) in Hrun. cbn in Hrun.
      injection Hrun as <-. apply (num_pts_pos _ cy cx).
      unfold img_eq. rewrite getitem2_img_map, Hv. cbn.
      by rewrite Z.eqb_refl.
    + exfalso. subst run. unfold get_target_mask in Hrun.
      rewrite g_run_bind in Hrun. fold im cm in Hrun. rewrite Hids in Hrun.
      cbn [select_loop] in Hrun. unfold select_step in Hrun.
      rewrite g_run_bind, g_run_bind, Hc in Hrun. g_all.
      cbn [need mret G_ret throw] in Hrun. rewrite g_run_bind in Hrun.
      unfold img_eq in Hrun at 1. rewrite getitem2_img_map, Hv in Hrun.
      cbn in Hrun. done.
  - destruct (HB eq_refl Hne) as (m' & Hm' & Hcase).
    rewrite Hm' in Hrun. cbn in Hrun. injection Hrun as <-.
    destruct Hcase as [(p & _ & _ & Hgt)|[Hl _]]; [lia|].
    destruct (best_candidate_nonempty cm im Hlen' Hpos) as (v & Hv & Hvpos).
    destruct Hl as (i & _ & -> & Hmax). specialize (Hmax v Hv). lia.
  - exfalso. subst run. unfold get_target_mask in Hrun.
    rewrite g_run_bind in Hrun. fold im cm in Hrun. rewrite Hids in Hrun.
    rewrite select_loop_out_of_bounds in Hrun by done. done.
Qed.

End Facts.

Lemma table_frame_empty (v : servo_vars) :
  prev_target_mask v = None →
  empty_mask_frame (sensor:=sample_sensor) (idx:=sample_idx) cup_config v table_frame.
Proof.
  intros Hprev.
  exists (Some (0, 0, 0, 0)%Q), (Image 1 2 [false; false]), 200%Q.
  split; [|reflexivity]. unfold perceives. rewrite Hprev.
  split_and!; [intros s; reflexivity|intros s; reflexivity|reflexivity].
Qed.

Lemma grasp_open_loop_rejects_witness :
  let run := grasp_open_loop (idx:=sample_idx) (kin:=sample_kinematics)
               cup_config table_frame (Some [1; 2; 3]%Q) true in
  run.1.1 = Ok None
  ∧ was_successful run.1.2 = false
  ∧ filter (λ c, is_motion c = true) run.2 = [].
Proof.
  destruct (grasp_open_loop_rejects (idx:=sample_idx) (kin:=sample_kinematics)
              cup_config table_frame (Some [1; 2; 3]%Q) true
              [0; 0; 0; 1 # 2; (-1) # 100; 0; 0; 0; 0; 0; 0]%Q
              [(-1) # 25; 0; 0; 1 # 2; (-1) # 100; 0; 0; 0; 0; 0; 0]%Q
              true 0 ((-1) # 100) (1 # 2))
    as (H1 & H2 & H3 & _); try reflexivity.
  - right. left. reflexivity.
  - split; [exact H1|]. split; [exact H2|exact H3].
Defined.

Lemma lost_before_alignment_fails_witness :
  visual_servo_to_object (idx:=sample_idx) (trig:=sample_trig)
    (sensor:=sample_sensor) (kin:=sample_kinematics)
    cup_config 120 0 [table_frame] false
  = (Ok (Some false), false, []).
Proof.
  destruct (lost_before_alignment_fails (idx:=sample_idx) (trig:=sample_trig)
              (sensor:=sample_sensor) (kin:=sample_kinematics)
              cup_config initial_vars table_frame false 120 0 [])
    as (_ & _ & H).
  - reflexivity.
  - apply table_frame_empty. reflexivity.
  - exact (H eq_refl).
Defined.

Lemma small_cup_frame_perceived (v : servo_vars) (depth : Q) :
  prev_target_mask v = None →
  perceives (sensor:=sample_sensor) (idx:=sample_idx) cup_config v
    (small_cup_frame depth) (Some (0, 0, 0, 0)%Q) (uniform 6 6 true) depth.
Proof.
  intros Hprev. unfold perceives. rewrite Hprev.
  split_and!; [intros s; reflexivity|intros s; vm_compute; reflexivity|reflexivity].
Qed.

Lemma lost_track_retries_then_falls_back_witness :
  servo_loop (idx:=sample_idx) (trig:=sample_trig) (sensor:=sample_sensor)
    (kin:=sample_kinematics) cup_config 120 0
    (with_failed_counter 3 aligned_vars)
    (small_cup_frame 400
     :: [table_frame; table_frame; table_frame; table_frame; table_frame;
         table_frame] ++ []) false
  = match grasp_open_loop (idx:=sample_idx) (kin:=sample_kinematics) cup_config
            table_frame
            (getitem2 (world_xyz (servo (small_cup_frame 400)))
               (py_int (mask_mean (uniform 6 6 true)).1)
               (py_int (mask_mean (uniform 6 6 true)).2)) false with
    | (r, s', t') => (r, s', [] ++ t')
    end
  ∧ getitem2 (world_xyz (servo (small_cup_frame 400)))
      (py_int (mask_mean (uniform 6 6 true)).1)
      (py_int (mask_mean (uniform 6 6 true)).2) = Some [0; 0; 1]%Q
  ∧ current_xyz (with_failed_counter 3 aligned_vars) = Some [1; 2; 3]%Q.
Proof.
  destruct (lost_track_retries_then_falls_back (idx:=sample_idx)
              (trig:=sample_trig) (sensor:=sample_sensor)
              (kin:=sample_kinematics) cup_config
              (with_current_xyz (Some [0; 0; 1]%Q)
                 (with_failed_counter 0 (with_failed_counter 3 aligned_vars)))
              false 120 0
              table_frame table_frame table_frame table_frame table_frame
              table_frame []) as (_ & _ & _ & _ & H).
  - reflexivity.
  - reflexivity.
  - repeat (apply List.Forall_cons;
            [split; [apply table_frame_empty; reflexivity|reflexivity]|]).
    apply List.Forall_nil.
  - split; [|split; [vm_compute; reflexivity|reflexivity]].
    apply (H (with_failed_counter 3 aligned_vars) (small_cup_frame 400)
             (Some (0, 0, 0, 0)%Q) (uniform 6 6 true) 400%Q []).
    + apply small_cup_frame_perceived. reflexivity.
    + vm_compute. discriminate.
    + reflexivity.
    + vm_compute. reflexivity.
Defined.

Lemma cup_frame_perceived (depth : Q) :
  perceives (sensor:=sample_sensor) (idx:=sample_idx) cup_config initial_vars
    (cup_frame depth) (Some (0, 0, 0, 0)%Q) (uniform 12 12 true) depth.
Proof.
  unfold perceives.
  split_and!; [intros s; reflexivity|intros s; vm_compute; reflexivity|reflexivity].
Qed.

Lemma cup_frame_in_order (depth : Q) :
  turn_in_order cup_config (cup_frame depth) (uniform 12 12 true).
Proof.
  unfold turn_in_order. split_and!; [reflexivity| |reflexivity].
  vm_compute. by eexists.
Qed.

Lemma grasp_decision_at_close_range_witness :
  (∃ lifted v',
     servo_body (idx:=sample_idx) (trig:=sample_trig) (sensor:=sample_sensor)
       (kin:=sample_kinematics) cup_config initial_vars (cup_frame 150) false
     = (Ok (Break v'), false,
        [CloseGripper true; SleepFor (1#2); ArmTo lifted true])
     ∧ success v' = true)
  ∧ (∃ q v',
       servo_body (idx:=sample_idx) (trig:=sample_trig) (sensor:=sample_sensor)
         (kin:=sample_kinematics) cup_config initial_vars (cup_frame 200) false
       = (Ok (Continue v'), false, [ArmTo q true; SleepFor (2#10)])).
Proof.
  split.
  - destruct (grasp_decision_at_close_range (idx:=sample_idx) (trig:=sample_trig)
                (sensor:=sample_sensor) (kin:=sample_kinematics)
                cup_config initial_vars (cup_frame 150) false (0, 0, 0, 0)%Q
                (uniform 12 12 true) 150 0 120 0 []) as [H _].
    + reflexivity.
    + apply cup_frame_perceived.
    + reflexivity.
    + vm_compute. reflexivity.
    + apply cup_frame_in_order.
    + reflexivity.
    + destruct (H eq_refl) as (lifted & v' & _ & Hb & Hs & _).
      exists lifted, v'. split; [exact Hb|exact Hs].
  - destruct (grasp_decision_at_close_range (idx:=sample_idx) (trig:=sample_trig)
                (sensor:=sample_sensor) (kin:=sample_kinematics)
                cup_config initial_vars (cup_frame 200) false (0, 0, 0, 0)%Q
                (uniform 12 12 true) 200 0 120 0 []) as [_ H].
    + reflexivity.
    + apply cup_frame_perceived.
    + reflexivity.
    + vm_compute. reflexivity.
    + apply cup_frame_in_order.
    + reflexivity.
    + apply H; [reflexivity|vm_compute; reflexivity].
Defined.

(** C4.  The code at the failing input: a target mask too small for a
    median depth.  The picture is filled by one cup of 36 pixels, 0.15 m
    away, and the aim pixel is inside the mask.  The turn closes the
    gripper and lifts the arm, as on a large mask at that depth, yet it
    does not leave the loop as the other two grasp sites do: it goes on
    with the next frame, and when that frame shows no cup
    [visual_servo_to_object] returns [False] after the grasp. *)
Lemma small_mask_grasp_does_not_terminate :
  let cfg := cup_config in
  let fr := small_cup_frame 150 in
  let target := get_target_mask (sensor:=sample_sensor) cfg (servo fr)
                  (aim_center cfg fr) None false in
  let turn := servo_body (idx:=sample_idx) (trig:=sample_trig)
                (sensor:=sample_sensor) (kin:=sample_kinematics)
                cfg initial_vars fr false in
  let run := visual_servo_to_object (idx:=sample_idx) (trig:=sample_trig)
               (sensor:=sample_sensor) (kin:=sample_kinematics)
               cfg 120 0 [fr; table_frame] false in
  target.1.1 = Ok (Some (uniform 6 6 true))
  ∧ getitem2 (uniform 6 6 true) (aim_center cfg fr).2 (aim_center cfg fr).1
    = Some true
  ∧ num_pts (uniform 6 6 true) = 36
  ∧ getitem2 (ee_depth (servo fr)) (aim_center cfg fr).2 (aim_center cfg fr).1
    = Some 150%Q
  ∧ Qltb (fdiv 150 1000) (median_distance_when_grasping cfg) = true
  ∧ turn.2 = [CloseGripper true; SleepFor (1#2);
              ArmTo [0; 0; 0; 1 # 5; 0; 0; 0; 0; 0; 0; 0]%Q true]
  ∧ (∃ v', turn.1.1 = Ok (Continue v') ∧ success v' = true)
  ∧ run.1.1 = Ok (Some false)
  ∧ run.2 = turn.2.
Proof.
  cbv zeta. split_and!; try (vm_compute; reflexivity).
  eexists. split; vm_compute; reflexivity.
Qed.

Lemma target_mask_selection_witness :
  get_target_mask (sensor:=sample_sensor) cup_config (servo (cup_frame 150))
    (6, 6) None false
  = (Ok (Some (img_eq (uniform 12 12 1) 1)), false, []).
Proof.
  destruct (target_mask_selection (sensor:=sample_sensor) cup_config
              (servo (cup_frame 150)) 6 6 None false) as [H _].
  apply H; vm_compute; reflexivity.
Defined.

(** C3 as stated fails twice.  (1) With the aim pixel on the second cup,
    selection returns the whole mask of that cup (10 pixels) although
    the continuity candidate, the first cup within the previous mask,
    has 105 pixels, more than the threshold of 100.  (2) On a picture
    without any pixel of the target class, selection returns the empty
    best candidate although a non-empty previous mask is given. *)
Lemma selection_skips_continuity_and_can_be_empty :
  let cm := get_class_mask (sensor:=sample_sensor) cup_config two_cups in
  let run := get_target_mask (sensor:=sample_sensor) cup_config two_cups
               (115, 0) (Some previous_mask) false in
  let run' := get_target_mask (sensor:=sample_sensor) cup_config
                (servo table_frame) (0, 0) (Some (Image 1 2 [true; false]))
                false in
  num_pts (continuity_candidate cm (instance two_cups) previous_mask 1) = 105
  ∧ run.1.1 = Ok (Some (img_eq (instance two_cups) 2))
  ∧ num_pts (img_eq (instance two_cups) 2) = 10
  ∧ run'.1.1 = Ok (Some (Image 1 2 [false; false]))
  ∧ num_pts (Image 1 2 [true; false]) = 1
  ∧ num_pts (Image 1 2 [false; false]) = 0.
Proof. cbv zeta. split_and!; vm_compute; reflexivity. Qed.

End GraspObjectProps.

(** * Properties of the mode and posture commands *)

Module ZmqModesProps.
Import ZmqClient ZmqModes ZmqClientProps.

Section Facts.
Context {env : Environment} {lib : Library}.

Ltac steps :=
  repeat first
    [ rewrite run_bind
    | progress cbn [emit modify_self get_self get_now lift raise mret
                    M_ret self now obs_locked sched app fst snd] ].

Lemma mode_poll_run (mode : string) (w : world) :
  with_lock ObsLock (mode_poll mode) w
  = (Ok (bool_decide (_control_mode (self w) = Some mode)),
     set_obs_locked false w, [Acquire ObsLock; Release ObsLock]).
Proof. reflexivity. Qed.

Lemma wait_for_mode_loop_run (fuel : nat) (mode : string) (timeout t0 : Q)
    (w : world) :
  wait_for_mode_loop (S fuel) mode timeout t0 w =
  if bool_decide (_control_mode (self w) = Some mode)
  then (Ok tt, set_obs_locked false w, [Acquire ObsLock; Release ObsLock])
  else
    let w2 := tick 0 (tick (1#10) (set_obs_locked false w)) in
    if Qltb timeout (now w2 - t0)
    then (Raise (RuntimeError ("Timeout waiting for mode " ++ mode)), w2,
          [Acquire ObsLock; Release ObsLock; Sleep (1#10)])
    else
      match wait_for_mode_loop fuel mode timeout t0 w2 with
      | (r, w3, t) => (r, w3, Acquire ObsLock :: Release ObsLock :: Sleep (1#10) :: t)
      end.
Proof.
  cbn [wait_for_mode_loop]. rewrite run_bind, mode_poll_run.
  destruct (bool_decide _); [reflexivity|].
  rewrite run_bind, sleep_run, run_bind, default_timer_run. cbv zeta.
  destruct (Qltb timeout _); [reflexivity|].
  by destruct (wait_for_mode_loop fuel mode timeout t0 _) as [[r w3] t].
Qed.

Lemma passive_wait_for_mode (fuel : nat) (mode : string) (timeout : Q) :
  passive (_wait_for_mode fuel mode timeout).
Proof.
  apply passive_bind; [apply passive_default_timer|]. intros t0.
  induction fuel as [|fuel IH]; [apply passive_out_of_fuel|].
  cbn [wait_for_mode_loop]. apply passive_bind.
  { apply passive_with_lock, passive_bind; [apply passive_get_self|].
    intros c. apply passive_ret. }
  intros [|]; [apply passive_ret|].
  apply passive_bind; [apply passive_sleep|]. intros _.
  apply passive_bind; [apply passive_default_timer|]. intros t1.
  destruct (Qltb timeout _); [apply passive_raise|apply IH].
Qed.

Lemma spin_control_mode (msgs : list obs_msg) (o : obs_msg) (c : client) :
  _control_mode (fold_left blocking_spin_once (msgs ++ [o]) c)
  = Some (control_mode o).
Proof.
  rewrite fold_left_app. cbn [fold_left].
  unfold blocking_spin_once, _update_obs.
  cbn [_iter with_obs with_control_mode with_last_step with_seq_id].
  by destruct (_ <=? 0).
Qed.

Lemma wait_for_mode_loop_spec (mode : string) (timeout t0 : Q) :
  ∀ fuel w,
    let run := wait_for_mode_loop fuel mode timeout t0 w in
    (run.1.1 = Ok tt →
     _control_mode (self run.1.2) = Some mode ∧ obs_locked run.1.2 = false)
    ∧ (∀ e, run.1.1 = Raise e →
            e = RuntimeError ("Timeout waiting for mode " ++ mode)
            ∧ (timeout < now run.1.2 - t0)%Q)
    ∧ existsb uses_obs run.2 = false
    ∧ (is_Some (_obs (self w)) → is_Some (_obs (self run.1.2))).
Proof.
  induction fuel as [|fuel IH]; intros w; cbv zeta.
  { cbn. split_and!; done. }
  rewrite wait_for_mode_loop_run.
  destruct (bool_decide _) eqn:Hm.
  { apply bool_decide_eq_true in Hm. cbn. split_and!; done. }
  cbv zeta. set (w2 := tick 0 (tick (1#10) (set_obs_locked false w))).
  assert (Hobs : is_Some (_obs (self w)) → is_Some (_obs (self w2))).
  { intros H. unfold w2. by do 2 apply tick_obs_is_Some. }
  destruct (Qltb timeout (now w2 - t0)) eqn:Hto.
  { apply Qltb_lt in Hto. cbn [fst snd]. split_and!; [done| |done|done].
    intros e [= <-]. done. }
  specialize (IH w2). cbv zeta in IH.
  destruct (wait_for_mode_loop fuel mode timeout t0 w2) as [[r w3] t].
  cbn [fst snd] in *. destruct IH as (H1 & H2 & H3 & H4).
  split_and!; [done|done|by cbn [existsb uses_obs orb]|auto].
Qed.

(** Each turn sleeps a tenth of a second, so [fuel] turns are enough as
    soon as [fuel / 10] exceeds the time that is left. *)
Lemma wait_for_mode_loop_terminates (mode : string) (timeout t0 : Q) :
  (∀ k, (0 <= lag k)%Q) →
  ∀ fuel w,
    ((timeout - (now w - t0)) * 10 < inject_Z (Z.of_nat (S fuel)))%Q →
    (wait_for_mode_loop (S fuel) mode timeout t0 w).1.1 ≠ OutOfFuel.
Proof.
  intros Hlag. induction fuel as [|fuel IH]; intros w Hleft;
    rewrite wait_for_mode_loop_run;
    (destruct (bool_decide _); [done|]); cbv zeta;
    pose proof (tick_now (1#10) (set_obs_locked false w) Hlag) as H1;
    pose proof (tick_now 0 (tick (1#10) (set_obs_locked false w)) Hlag) as H2;
    change (now (set_obs_locked false w)) with (now w) in H1;
    destruct (Qltb timeout _) eqn:Hto; try done; apply Qltb_ge in Hto.
  - exfalso. change (inject_Z (Z.of_nat 1)) with 1%Q in Hleft. lra.
  - specialize (IH (tick 0 (tick (1#10) (set_obs_locked false w)))).
    destruct (wait_for_mode_loop (S fuel) mode timeout t0 _) as [[r w3] t].
    cbn [fst snd] in *. apply IH.
    rewrite (Nat2Z.inj_succ (S fuel)) in Hleft.
    unfold Z.succ in Hleft. rewrite inject_Z_plus in Hleft.
    change (inject_Z 1) with 1%Q in Hleft. lra.
Qed.

Lemma wait_for_mode_unfold (fuel : nat) (mode : string) (timeout : Q) (w : world) :
  _wait_for_mode fuel mode timeout w
  = wait_for_mode_loop fuel mode timeout (now (tick 0 w)) (tick 0 w).
Proof.
  unfold _wait_for_mode. rewrite run_bind, default_timer_run.
  by destruct (wait_for_mode_loop _ _ _ _ _) as [[r w'] t].
Qed.

(** X1.  Let the clock never run backwards.  [_wait_for_mode] ends.  When
    it returns, the client's control mode is the awaited one.  The only
    error it raises is the timeout error, and then more than [timeout]
    seconds have passed since it started.  It puts nothing on the wire,
    and unlike the convergence wait it neither reads nor empties the
    observation slot: a slot that was filled is still filled afterwards.
    If the mode is already the awaited one when the wait starts, it
    returns without sleeping. *)
Theorem wait_for_mode_returns_in_mode (fuel : nat) (mode : string)
    (timeout : Q) (w : world) :
  (∀ k, (0 <= lag k)%Q) →
  (mode_fuel timeout ≤ fuel)%nat →
  let run := _wait_for_mode fuel mode timeout w in
  run.1.1 ≠ OutOfFuel
  ∧ (run.1.1 = Ok tt → _control_mode (self run.1.2) = Some mode)
  ∧ (∀ e, run.1.1 = Raise e →
          e = RuntimeError ("Timeout waiting for mode " ++ mode)
          ∧ (timeout < now run.1.2 - now (tick 0 w))%Q)
  ∧ sends run.2 = []
  ∧ existsb uses_obs run.2 = false
  ∧ (is_Some (_obs (self w)) → is_Some (_obs (self run.1.2)))
  ∧ (_control_mode (self (tick 0 w)) = Some mode →
     run.1.1 = Ok tt ∧ now run.1.2 = now (tick 0 w) ∧ Sleep (1#10) ∉ run.2).
Proof.
  intros Hlag Hfuel. cbv zeta.
  pose proof (passive_wait_for_mode fuel mode timeout w) as (Hs & _ & _).
  rewrite wait_for_mode_unfold in *.
  pose proof (wait_for_mode_loop_spec mode timeout (now (tick 0 w)) fuel (tick 0 w))
    as (H1 & H2 & H3 & H4). cbv zeta in *.
  split_and!; [|intros H; by destruct (H1 H)|done|done|done| |].
  - destruct fuel as [|fuel]; [unfold mode_fuel in Hfuel; lia|].
    apply wait_for_mode_loop_terminates; [done|].
    assert (Ha : (timeout * 10 < inject_Z (Qfloor (timeout * 10) + 1))%Q)
      by apply Qlt_floor.
    assert (Hb : (inject_Z (Qfloor (timeout * 10) + 1)
                  <= inject_Z (Z.of_nat (S fuel)))%Q).
    { rewrite <- Zle_Qle. unfold mode_fuel in Hfuel. lia. }
    lra.
  - intros H. apply H4. by apply tick_obs_is_Some.
  - intros Hm. destruct fuel as [|fuel]; [unfold mode_fuel in Hfuel; lia|].
    rewrite wait_for_mode_loop_run, bool_decide_eq_true_2 by done.
    cbn [fst snd]. split_and!; [done|done|].
    intros Hin. apply elem_of_cons in Hin as [?|Hin]; [done|].
    apply elem_of_cons in Hin as [?|Hin]; [done|].
    by apply elem_of_nil in Hin.
Qed.



Lemma sleep_keeps_obs_events (d : Q) (w : world) :
  existsb uses_obs (sleep d w).2 = false.
Proof. by rewrite sleep_run. Qed.



(** *** [get_base_pose] under the observation lock *)

Lemma tick_locked (d : Q) (w : world) :
  obs_locked w = true →
  self (tick d w) = self w ∧ obs_locked (tick d w) = true.
Proof. intros H. unfold tick, yield. cbn [fst snd self obs_locked]. by rewrite H. Qed.

Lemma get_base_pose_loop_locked (t0 : Q) :
  ∀ fuel w,
    obs_locked w = true →
    _obs (self w) = None →
    let run := get_base_pose_loop fuel t0 w in
    self run.1.2 = self w
    ∧ obs_locked run.1.2 = true
    ∧ (run.1.1 = Ok None ∨ run.1.1 = OutOfFuel)
    ∧ (run.1.1 = Ok None →
       (5 < now run.1.2 - t0)%Q
       ∧ Log "Timeout waiting for observation" ∈ run.2).
Proof.
  induction fuel as [|fuel IH]; intros w Hl Hn; cbv zeta.
  { cbn. split_and!; [done|done|by right|done]. }
  rewrite get_base_pose_loop_unfold. unfold read_obs. steps. rewrite Hn. steps.
  rewrite sleep_run. steps. rewrite default_timer_run. steps.
  destruct (tick_locked (1#100) w Hl) as [Hs1 Hl1].
  destruct (tick_locked 0 (tick (1#100) w) Hl1) as [Hs2 Hl2].
  destruct (Qltb 5 _) eqn:Hto.
  - steps. apply Qltb_lt in Hto.
    split_and!; [congruence|done|by left|].
    intros _. split; [done|]. set_unfold. auto.
  - specialize (IH (tick 0 (tick (1#100) w)) Hl2).
    rewrite Hs2, Hs1 in IH. specialize (IH Hn). cbv zeta in IH.
    destruct (get_base_pose_loop fuel t0 _) as [[r w'] t].
    cbn [fst snd] in *. destruct IH as (H1 & H2 & H3 & H4).
    split_and!; [done|done|done|].
    intros Hr. destruct (H4 Hr) as [Ha Hb]. split; [done|].
    set_unfold. auto.
Qed.

Lemma get_base_pose_filled (fuel : nat) (w : world) (o : obs_msg) :
  _obs (self w) = Some o →
  get_base_pose (S fuel) w
  = (Ok (Some (gps o ++ compass o)),
     set_obs_locked false (tick 0 (set_obs_locked true w)),
     [Acquire ObsLock; ReadObs (Some o) (_last_step (self w)); Release ObsLock]).
Proof.
  intros Ho. unfold get_base_pose. rewrite run_bind. unfold with_lock.
  rewrite run_bind, default_timer_run, get_base_pose_loop_unfold.
  unfold read_obs. steps.
  destruct (tick_locked 0 (set_obs_locked true w) eq_refl) as [Hs Hl].
  rewrite Hs. cbn [self set_obs_locked]. rewrite Ho. by steps.
Qed.

Lemma get_base_pose_empty (fuel : nat) (w : world) :
  _obs (self w) = None →
  (∀ k, (0 <= lag k)%Q) →
  (base_pose_fuel ≤ fuel)%nat →
  let run := get_base_pose fuel w in
  run.1.1 = Ok None
  ∧ self run.1.2 = self w
  ∧ (5 < now run.1.2 - now w)%Q
  ∧ Log "Timeout waiting for observation" ∈ run.2.
Proof.
  intros Hn Hlag Hbig.
  pose proof (get_base_pose_terminates fuel w Hlag Hbig) as [Hterm _].
  cbv zeta in *. revert Hterm.
  unfold get_base_pose. rewrite run_bind. unfold with_lock.
  rewrite run_bind, default_timer_run.
  destruct (tick_locked 0 (set_obs_locked true w) eq_refl) as [Hs Hl].
  pose proof (get_base_pose_loop_locked (now (tick 0 (set_obs_locked true w)))
                fuel (tick 0 (set_obs_locked true w)) Hl) as H.
  rewrite Hs in H. specialize (H Hn). cbv zeta in H.
  pose proof (tick_now 0 (set_obs_locked true w) Hlag) as Ht.
  change (now (set_obs_locked true w)) with (now w) in Ht.
  destruct (get_base_pose_loop fuel _ _) as [[r w'] t].
  cbn [fst snd] in *. destruct H as (H1 & H2 & H3 & H4).
  destruct H3 as [-> | ->]; [|cbn; done].
  intros _. destruct (H4 eq_refl) as [Ha Hb]. cbn [mret M_ret fst snd].
  split_and!; [done|done|cbn [now set_obs_locked]; lra|].
  set_unfold. auto.
Qed.

(** X3.  [get_base_pose] keeps the observation lock while it waits, so no
    message can reach the client during the call.  If the slot holds an
    observation when the lock is taken, the call returns its position and
    heading at once, without sleeping.  If the slot is empty, then
    whatever the robot sends the call ends (with a clock that never runs
    backwards) with [None], after more than five seconds and with the
    error logged.  In both cases the client object is after the call
    exactly what it was before. *)
Theorem get_base_pose_holds_lock (fuel : nat) (w : world) :
  (0 < fuel)%nat →
  let run := get_base_pose fuel w in
  (∀ o, _obs (self w) = Some o →
        run.1.1 = Ok (Some (gps o ++ compass o))
        ∧ self run.1.2 = self w
        ∧ (∀ d, Sleep d ∉ run.2))
  ∧ (_obs (self w) = None →
     (∀ k, (0 <= lag k)%Q) →
     (base_pose_fuel ≤ fuel)%nat →
     run.1.1 = Ok None
     ∧ self run.1.2 = self w
     ∧ (5 < now run.1.2 - now w)%Q
     ∧ Log "Timeout waiting for observation" ∈ run.2).
Proof.
  intros Hfuel. cbv zeta. split.
  - intros o Ho. destruct fuel as [|fuel]; [lia|].
    rewrite (get_base_pose_filled _ _ _ Ho). cbn [fst snd].
    destruct (tick_locked 0 (set_obs_locked true w) eq_refl) as [Hs Hl].
    split_and!; [done|unfold set_obs_locked at 1; cbn [self]; by rewrite Hs|].
    intros d Hin. set_unfold. by destruct Hin as [?|[?|[?|?]]].
  - apply get_base_pose_empty.
Qed.

(** *** A waypoint poll that finds no pose *)

Lemma spin_finish (msgs : list obs_msg) (c : client) :
  _finish (fold_left blocking_spin_once msgs c) = _finish c.
Proof.
  revert c. induction msgs as [|o msgs IH]; intros c; [done|].
  cbn [fold_left]. rewrite IH. unfold blocking_spin_once, _update_obs.
  cbn [_iter with_obs with_control_mode with_last_step with_seq_id].
  by destruct (_ <=? 0).
Qed.

Lemma tick_finish (d : Q) (w : world) : _finish (self (tick d w)) = _finish (self w).
Proof.
  unfold tick, yield. cbn [fst snd self].
  destruct (obs_locked w); [done|]. apply spin_finish.
Qed.

(** X4.  [wait_for_waypoint] does not check the result of
    [get_base_pose].  When the slot is still empty after the two clock
    readings that precede the first pose reading, the pose reading times
    out with [None] and the poll raises [TypeError] ([curr[:2]] on
    [None]), more than five seconds after the call, without having sent
    anything: it neither returns [False] nor waits for its own timeout. *)
Theorem wait_for_waypoint_without_pose (fuel : nat) (xyt : list Q) (rate : Z)
    (pos_err_threshold rot_err_threshold timeout : Q) (w : world) :
  rate ≠ 0 →
  _finish (self w) = false →
  _obs (self (tick 0 (tick 0 w))) = None →
  (∀ k, (0 <= lag k)%Q) →
  (base_pose_fuel ≤ fuel)%nat →
  let run := wait_for_waypoint fuel xyt rate pos_err_threshold
               rot_err_threshold timeout w in
  run.1.1 = Raise TypeError
  ∧ sends run.2 = []
  ∧ (5 < now run.1.2 - now w)%Q.
Proof.
  intros Hrate Hfin Hobs Hlag Hfuel. cbv zeta.
  pose proof (passive_wait_for_waypoint fuel xyt rate pos_err_threshold
                rot_err_threshold timeout w) as (Hs & _ & _).
  split; [|split; [done|]];
    unfold wait_for_waypoint; (destruct (rate =? 0) eqn:E; [lia|]);
    rewrite run_bind, default_timer_run;
    (destruct fuel as [|fuel]; [unfold base_pose_fuel in Hfuel; lia|]);
    rewrite wait_for_waypoint_loop_unfold; steps;
    rewrite tick_finish, Hfin, run_bind, default_timer_run, run_bind;
    destruct (get_base_pose_empty (S fuel) (tick 0 (tick 0 w)) Hobs Hlag Hfuel)
      as (Hr & _ & Ht & _); cbv zeta in Hr, Ht;
    pose proof (tick_now 0 w Hlag) as H1;
    pose proof (tick_now 0 (tick 0 w) Hlag) as H2;
    destruct (get_base_pose (S fuel) (tick 0 (tick 0 w))) as [[r w'] t];
    cbn [fst snd] in *; subst r; steps; [done|lra].
Qed.

(** *** The receive loop *)

Lemma spin_snoc (msgs : list obs_msg) (o : obs_msg) (c : client) :
  let c' := fold_left blocking_spin_once (msgs ++ [o]) c in
  _obs c' = Some o
  ∧ _last_step c' = step o
  ∧ _control_mode c' = Some (control_mode o).
Proof.
  cbv zeta. rewrite fold_left_app. cbn [fold_left].
  unfold blocking_spin_once, _update_obs.
  cbn [_iter with_obs with_control_mode with_last_step with_seq_id].
  by destruct (_ <=? 0).
Qed.

Lemma spin_seq_id (msgs : list obs_msg) (c : client) :
  _seq_id (fold_left blocking_spin_once msgs c) = _seq_id c + len msgs.
Proof.
  revert c. induction msgs as [|o msgs IH]; intros c.
  - unfold len. cbn. lia.
  - cbn [fold_left]. rewrite IH. unfold len, blocking_spin_once, _update_obs.
    cbn [_iter with_obs with_control_mode with_last_step with_seq_id length].
    destruct (_ <=? 0);
      cbn [_seq_id with_iter with_last_step with_control_mode with_obs with_seq_id];
      lia.
Qed.

(** X5.  What the receive loop stores can be read back.  After it has
    processed the messages [msgs] and then [o], [get_observation] hands
    out the position, heading and picture of [o], the newest message,
    numbered with the count of all messages received so far; the last
    completed step and the control mode are those of [o]; the pending
    action is untouched; and the call leaves the client as it is. *)
Theorem newest_message_is_observed (msgs : list obs_msg) (o : obs_msg)
    (c : client) (t : Q) (k : nat) :
  let c' := fold_left blocking_spin_once (msgs ++ [o]) c in
  let run := get_observation (World c' t false k) in
  run.1.1 = Ok (Some (MkObservations (gps o) (compass o) (frame o)
                        (_seq_id c + len msgs + 1)))
  ∧ run.1.2 = World c' t false k
  ∧ _last_step c' = step o
  ∧ in_navigation_mode c' = bool_decide (control_mode o = "navigation")
  ∧ in_manipulation_mode c' = bool_decide (control_mode o = "manipulation")
  ∧ _next_action c' = _next_action c.
Proof.
  cbv zeta. destruct (spin_snoc msgs o c) as (Ho & Hl & Hm). cbv zeta in *.
  pose proof (spin_seq_id (msgs ++ [o]) c) as Hseq.
  unfold get_observation, with_lock, read_obs. steps.
  cbn [set_obs_locked self now sched]. rewrite Ho. steps.
  cbn [set_obs_locked self now sched fst snd].
  split_and!; [|done|done| | |apply spin_next_action].
  - rewrite Hseq. unfold len. rewrite length_app. cbn [length].
    do 3 f_equal. lia.
  - unfold in_navigation_mode. rewrite Hm.
    apply bool_decide_ext. split; congruence.
  - unfold in_manipulation_mode. rewrite Hm.
    apply bool_decide_ext. split; congruence.
Qed.

Lemma spin_iter_sync (msgs : list obs_msg) (c : client) :
  _iter c ≤ 0 →
  _iter (fold_left blocking_spin_once msgs c) = synced_iter (_iter c) msgs.
Proof.
  revert c. induction msgs as [|o msgs IH]; intros c Hc; [done|].
  cbn [fold_left synced_iter].
  assert (Ho : _iter (blocking_spin_once c o) = step o).
  { unfold blocking_spin_once, _update_obs.
    cbn [_iter with_obs with_control_mode with_last_step with_seq_id _last_step].
    destruct (_iter c <=? 0) eqn:E; [done|lia]. }
  destruct (0 <? step o) eqn:E.
  - rewrite spin_iter_positive; [done|lia].
  - rewrite IH; [by rewrite Ho|lia].
Qed.

(** X6.  How the step counter follows the robot.  Messages never change
    a positive counter.  A counter that is not positive is set from the
    messages: to the step of the first message whose step is positive,
    or, when there is none, to the step of the newest message.  The next
    command then carries exactly that number as its step id. *)
Theorem step_counter_follows_server (msgs : list obs_msg) (c : client)
    (t : Q) (k : nat) (fuel : nat) (xyt : list Q) (relative blocking : bool)
    (timeout : Q) :
  let c' := fold_left blocking_spin_once msgs c in
  let i := if 0 <? _iter c then _iter c else synced_iter (_iter c) msgs in
  _iter c' = i
  ∧ (len xyt = 3 →
     step_ids (navigate_to fuel xyt relative blocking timeout
                 (World c' t false k)).2 = [Some (PyInt i)]).
Proof.
  cbv zeta.
  assert (Hi : _iter (fold_left blocking_spin_once msgs c)
               = if 0 <? _iter c then _iter c else synced_iter (_iter c) msgs).
  { destruct (0 <? _iter c) eqn:E.
    - apply spin_iter_positive. lia.
    - apply spin_iter_sync. lia. }
  split; [done|]. intros Hlen. unfold step_ids.
  rewrite navigate_to_run by done. cbv zeta.
  pose proof (send_action_sends fuel timeout
    (staged [("xyt", PyVec xyt); ("nav_relative", PyBool relative);
             ("nav_blocking", PyBool blocking)]
       (World (fold_left blocking_spin_once msgs c) t false k))) as Hs.
  destruct (send_action fuel timeout _) as [[r w'] tr]. cbn [fst snd] in *.
  rewrite sends_app, sends_stage_events, Hs. cbn [app fmap list_fmap].
  unfold outgoing. rewrite lookup_insert_eq.
  cbn [self staged _iter with_next_action]. by rewrite Hi.
Qed.

(** *** Trajectories that the executor cannot run *)

Lemma execute_trajectory_loop_refuses (fuel : nat) (p : list Q)
    (rest : list (list Q)) (pthr rthr : Q) (rate : Z) (wpt : Q)
    (relative : bool) (pt : option (list Q)) (w : world) :
  len p ≠ 3 →
  execute_trajectory_loop fuel (p :: rest) pthr rthr rate wpt relative pt w
  = (Raise AssertionError, w, []).
Proof.
  intros Hp. rewrite execute_trajectory_loop_cons.
  assert (E3 : (len p =? 3) = false) by lia. rewrite E3.
  destruct (len p =? 2) eqn:E2; cbn [orb negb]; [|done].
  rewrite run_bind. unfold navigate_to. rewrite E3. by cbn [negb].
Qed.

Lemma execute_trajectory_loop_app (fuel : nat) (pthr rthr : Q) (rate : Z)
    (wpt : Q) (relative : bool) :
  ∀ l1 l2 pt w,
    execute_trajectory_loop fuel (l1 ++ l2) pthr rthr rate wpt relative pt w
    = match execute_trajectory_loop fuel l1 pthr rthr rate wpt relative pt w with
      | (Ok pt', w1, t1) =>
          match execute_trajectory_loop fuel l2 pthr rthr rate wpt relative
                  pt' w1 with
          | (r, w2, t2) => (r, w2, t1 ++ t2)
          end
      | (Raise e, w1, t1) => (Raise e, w1, t1)
      | (OutOfFuel, w1, t1) => (OutOfFuel, w1, t1)
      end.
Proof.
  induction l1 as [|q l1 IH]; intros l2 pt w.
  - cbn [app execute_trajectory_loop mret M_ret].
    by destruct (execute_trajectory_loop fuel l2 _ _ _ _ _ pt w) as [[r w2] t2].
  - cbn [app]. rewrite !execute_trajectory_loop_cons.
    destruct (negb _); [done|]. rewrite !run_bind.
    destruct (navigate_to fuel q relative false 10 w) as [[[[]| |] w1] t1];
      [|done..].
    rewrite !run_bind.
    destruct (wait_for_waypoint fuel q rate pthr rthr wpt w1)
      as [[[b| |] w2] t2]; [|done..].
    rewrite IH.
    destruct (execute_trajectory_loop fuel l1 _ _ _ _ _ (Some q) w2)
      as [[[pt'| |] w3] t3]; [|done..].
    destruct (execute_trajectory_loop fuel l2 _ _ _ _ _ pt' w3) as [[r w4] t4].
    by rewrite !app_assoc.
Qed.

(** X8.  A pose that is not made of three numbers stops
    [execute_trajectory], wherever it stands in the trajectory.  A pose
    of two elements passes the executor's own assertion, which admits
    poses without heading, but is refused by the assertion of
    [navigate_to]; a pose of any other length is refused by the
    executor.  Let the poses before it have three elements.  Then the
    call never returns normally and sends commands for poses before the
    bad one only; and when the commands and polls for the poses before
    it have all returned, the call raises [AssertionError] at that
    point: every pose before the bad one has been sent, the bad pose and
    those after it have not.  On an empty trajectory the call raises
    [NameError] (the loop variable is unbound after the loop) with
    nothing sent. *)
Theorem execute_trajectory_refuses (fuel : nat) (good : list (list Q))
    (p : list Q) (rest : list (list Q)) (pos_err_threshold
    rot_err_threshold : Q) (spin_rate : Z) (per_waypoint_timeout
    final_timeout : Q) (relative : bool) (w : world) :
  Forall (λ q, len q = 3) good →
  len p ≠ 3 →
  let run := execute_trajectory fuel (good ++ p :: rest) pos_err_threshold
               rot_err_threshold spin_rate per_waypoint_timeout final_timeout
               relative w in
  let before := execute_trajectory_loop fuel good pos_err_threshold
                  rot_err_threshold spin_rate per_waypoint_timeout relative
                  None w in
  (∀ r, run.1.1 ≠ Ok r)
  ∧ nav_part <$> sends run.2
    `prefix_of` map (λ q, nav_command q relative false) good
  ∧ (∀ pt w1 t1, before = (Ok pt, w1, t1) →
       run = (Raise AssertionError, w1, t1)
       ∧ nav_part <$> sends run.2 = map (λ q, nav_command q relative false) good)
  ∧ (∀ e, before.1.1 = Raise e → run = (Raise e, before.1.2, before.2))
  ∧ execute_trajectory fuel [] pos_err_threshold rot_err_threshold spin_rate
      per_waypoint_timeout final_timeout relative w
    = (Raise NameError, w, []).
Proof.
  intros Hgood Hp. cbv zeta. unfold execute_trajectory.
  rewrite !run_bind, execute_trajectory_loop_app.
  pose proof (execute_trajectory_loop_spec fuel pos_err_threshold
                rot_err_threshold spin_rate per_waypoint_timeout relative
                good None w Hgood) as (Hpre & Hfull & _). cbv zeta in Hpre, Hfull.
  destruct (execute_trajectory_loop fuel good _ _ _ _ _ None w)
    as [[[pt| |] w1] t1]; cbn [fst snd] in *.
  - rewrite execute_trajectory_loop_refuses by done.
    destruct (Hfull pt eq_refl) as [Hs _]. rewrite app_nil_r. cbn [fst snd].
    split_and!; [done|by rewrite Hs| |done|done].
    by intros pt' w1' t1' [= <- <- <-].
  - split_and!; [done|done|done| |done]. by intros e' [= <-].
  - by split_and!.
Qed.

End Facts.


Lemma get_base_pose_holds_lock_witness :
  (get_base_pose (env:=steady) 501 fresh_world).1.1 = Ok None.
Proof.
  destruct (get_base_pose_holds_lock (env:=steady) 501 fresh_world) as [_ H].
  - lia.
  - destruct H as (H & _); [reflexivity| |unfold base_pose_fuel; lia|exact H].
    intros k. simpl. lra.
Defined.

Lemma wait_for_waypoint_without_pose_witness :
  (wait_for_waypoint (env:=silent) (lib:=sample_library) 501 [0; 0; 0]%Q 10
     (2#10) (75#100) 10 fresh_world).1.1 = Raise TypeError.
Proof.
  destruct (wait_for_waypoint_without_pose (env:=silent) (lib:=sample_library)
              501 [0; 0; 0]%Q 10 (2#10) (75#100) 10 fresh_world) as (H & _).
  - lia.
  - reflexivity.
  - reflexivity.
  - intros k. simpl. lra.
  - unfold base_pose_fuel. lia.
  - exact H.
Defined.

Lemma execute_trajectory_refuses_witness :
  (execute_trajectory (env:=steady) (lib:=sample_library) 1001
     ([[0; 0; 0]; [0; 0; 0]]%Q ++ [1; 2]%Q :: [[0; 0; 0]%Q]) (2#10) (75#100) 10
     10 10 false fresh_world).1.1 = Raise AssertionError
  ∧ nav_part <$> sends
      (execute_trajectory (env:=steady) (lib:=sample_library) 1001
         ([[0; 0; 0]; [0; 0; 0]]%Q ++ [1; 2]%Q :: [[0; 0; 0]%Q]) (2#10) (75#100)
         10 10 10 false fresh_world).2
    = map (λ q, nav_command q false false) [[0; 0; 0]; [0; 0; 0]]%Q.
Proof.
  destruct (execute_trajectory_refuses (env:=steady) (lib:=sample_library) 1001
              [[0; 0; 0]; [0; 0; 0]]%Q [1; 2]%Q [[0; 0; 0]%Q] (2#10) (75#100) 10
              10 10 false fresh_world) as (_ & _ & H & _).
  - repeat (apply List.Forall_cons; [reflexivity|]). apply List.Forall_nil.
  - discriminate.
  - destruct (H (Some [0; 0; 0]%Q)
               (execute_trajectory_loop (env:=steady) (lib:=sample_library) 1001
                  [[0; 0; 0]; [0; 0; 0]]%Q (2#10) (75#100) 10 10 false None
                  fresh_world).1.2
               (execute_trajectory_loop (env:=steady) (lib:=sample_library) 1001
                  [[0; 0; 0]; [0; 0; 0]]%Q (2#10) (75#100) 10 10 false None
                  fresh_world).2) as [Hrun Hs].
    + vm_compute. reflexivity.
    + split; [exact (f_equal (λ x, x.1.1) Hrun)|exact Hs].
Defined.

Lemma wait_for_mode_returns_in_mode_witness :
  let run := _wait_for_mode (env:=mode_change) 101 "manipulation" 10 fresh_world in
  run.1.1 = Ok tt ∧ _control_mode (self run.1.2) = Some "manipulation".
Proof.
  cbv zeta.
  assert (Hok : (_wait_for_mode (env:=mode_change) 101 "manipulation" 10
                   fresh_world).1.1 = Ok tt) by (vm_compute; reflexivity).
  split; [exact Hok|].
  destruct (wait_for_mode_returns_in_mode (env:=mode_change) 101 "manipulation"
              10 fresh_world) as (_ & H & _).
  - intros k. simpl. lra.
  - vm_compute. lia.
  - exact (H Hok).
Defined.

End ZmqModesProps.

(** * More properties of the grasp operation *)

Module GraspMoreProps.
Import GraspObject GraspRun GraspObjectProps.

Section Facts.
Context {idx : HelloStretchIdx} {trig : Trig} {sensor : SemanticSensor}
  {kin : Kinematics} {glib : GraspLibrary}.

Ltac g_steps :=
  repeat first
    [ rewrite g_run_bind
    | progress cbn [need throw tell set_success no_input mret G_ret app fst snd] ].

(** *** The class mask *)

Lemma zip_with_fmap_same {A B C D} (f : B → C → D) (g : A → B) (h : A → C)
    (l : list A) :
  zip_with f (g <$> l) (h <$> l) = (λ x, f (g x) (h x)) <$> l.
Proof. induction l as [|x l IH]; [done|]. cbn. by rewrite IH. Qed.

Lemma class_mask_fold (target : string) (sem : image Z) :
  ∀ (ids : list Z) (g : Z → bool),
    fold_left
      (λ m iid,
         if is_target_class target iid
         then np_bitwise_or m (img_eq sem iid)
         else m)
      ids (img_map g sem)
    = img_map
        (λ l, g l || existsb (λ iid, (iid =? l) && is_target_class target iid) ids)
        sem.
Proof.
  induction ids as [|iid ids IH]; intros g.
  - cbn [fold_left existsb]. unfold img_map. f_equal.
    apply list_fmap_ext. intros i x _. by rewrite orb_false_r.
  - cbn [fold_left existsb].
    destruct (is_target_class target iid) eqn:E.
    + replace (np_bitwise_or (img_map g sem) (img_eq sem iid))
        with (img_map (λ l, g l || (iid =? l)) sem).
      * rewrite IH. unfold img_map. f_equal.
        apply list_fmap_ext. intros i x _.
        by rewrite andb_true_r, orb_assoc.
      * unfold np_bitwise_or, img_eq, img_map. cbn [shape0 shape1 pixels].
        by rewrite zip_with_fmap_same.
    + rewrite IH. unfold img_map. f_equal.
      apply list_fmap_ext. intros i x _. by rewrite andb_false_r.
Qed.

Lemma class_mask_is_pointwise_aux (cfg : config) (sv : servo_obs) :
  get_class_mask cfg sv
  = img_map (is_target_class (target_object cfg)) (semantic sv)
  ∧ (∀ y x, getitem2 (get_class_mask cfg sv) y x
            = is_target_class (target_object cfg) <$> getitem2 (semantic sv) y x).
Proof.
  assert (H : get_class_mask cfg sv
              = img_map (is_target_class (target_object cfg)) (semantic sv)).
  { unfold get_class_mask, zeros_like. rewrite class_mask_fold.
    unfold img_map. f_equal. apply list_fmap_ext. intros i l Hl.
    cbn [orb]. apply list_elem_of_lookup_2, elem_of_np_unique in Hl.
    destruct (is_target_class (target_object cfg) l) eqn:E.
    - apply existsb_exists. exists l. split; [by apply list_elem_of_In|].
      by rewrite Z.eqb_refl, E.
    - apply not_true_is_false. intros (iid & _ & Hi)%existsb_exists.
      apply andb_true_iff in Hi as [->%Z.eqb_eq Hi]. congruence. }
  split; [done|]. intros y x. rewrite H. apply getitem2_img_map.
Qed.

(** X9.  The class mask is the label map seen through the class test: it
    has the shape of the label map, and a pixel is set exactly when the
    name of the label at that pixel contains the name of the target
    object.  Labels without a name never match. *)
Theorem class_mask_is_pointwise (cfg : config) (sv : servo_obs) :
  get_class_mask cfg sv
  = img_map (is_target_class (target_object cfg)) (semantic sv)
  ∧ (∀ y x, getitem2 (get_class_mask cfg sv) y x
            = is_target_class (target_object cfg) <$> getitem2 (semantic sv) y x)
  ∧ (∀ iid, get_class_name_for_id iid = None →
            is_target_class (target_object cfg) iid = false).
Proof.
  destruct (class_mask_is_pointwise_aux cfg sv) as [H1 H2].
  split_and!; [done|done|].
  intros iid Hn. unfold is_target_class. by rewrite Hn.
Qed.

(** *** The aim pixel and the target mask *)

Lemma getitem2_bitwise_and (a b : mask) (y x : Z) :
  shape0 a = shape0 b → shape1 a = shape1 b →
  getitem2 (np_bitwise_and a b) y x = Some true →
  getitem2 b y x = Some true.
Proof.
  intros H0 H1. unfold getitem2, np_bitwise_and. cbn [shape0 shape1 pixels].
  rewrite H0, H1.
  destruct (axis_index (shape0 b) y) as [r|]; [|done].
  destruct (axis_index (shape1 b) x) as [c|]; [|done]. cbn.
  intros (p & q & Hpq & _ & Hq)%lookup_zip_with_Some.
  symmetry in Hpq. apply andb_true_iff in Hpq as [_ ->]. done.
Qed.

Lemma candidates_inside_class (cm : mask) (im : image Z) (y x : Z) :
  shape0 im = shape0 cm → shape1 im = shape1 cm →
  (∀ iid, getitem2 (best_candidate cm im iid) y x = Some true →
          getitem2 cm y x = Some true)
  ∧ (∀ p iid, getitem2 (continuity_candidate cm im p iid) y x = Some true →
              getitem2 cm y x = Some true).
Proof.
  intros H0 H1. split.
  - intros iid. apply getitem2_bitwise_and; done.
  - intros p iid. apply getitem2_bitwise_and; done.
Qed.

(** X10.  Let the aim pixel lie inside the pictures, and let the instance
    map have the shape of the label map.  Then target-mask selection
    returns a mask, and that mask contains the aim pixel exactly when the
    label at the aim pixel belongs to the target class.  So the test
    [center_in_mask] of the servo loop is a test of the class at the aim
    pixel, whatever mask was selected. *)
Theorem aim_pixel_in_mask_iff_class (cfg : config) (sv : servo_obs) (cx cy : Z)
    (prev : option mask) (s : bool) (v l : Z) :
  shape0 (instance sv) = shape0 (semantic sv) →
  shape1 (instance sv) = shape1 (semantic sv) →
  getitem2 (instance sv) cy cx = Some v →
  getitem2 (semantic sv) cy cx = Some l →
  ∃ m, get_target_mask cfg sv (cx, cy) prev s = (Ok (Some m), s, [])
       ∧ (getitem2 m cy cx = Some true
          ↔ is_target_class (target_object cfg) l = true).
Proof.
  intros H0 H1 Hv Hl.
  destruct (class_mask_is_pointwise_aux cfg sv) as [Hcm Hget].
  pose proof (Hget cy cx) as Hc. rewrite Hl in Hc. cbn in Hc.
  assert (Hs0 : shape0 (instance sv) = shape0 (get_class_mask cfg sv))
    by (by rewrite Hcm).
  assert (Hs1 : shape1 (instance sv) = shape1 (get_class_mask cfg sv))
    by (by rewrite Hcm).
  destruct (is_target_class (target_object cfg) l) eqn:E.
  - exists (img_eq (instance sv) v). split.
    + unfold get_target_mask. rewrite g_run_bind.
      rewrite (select_loop_centered _ _ _ _ _ v) by
        (done || by apply (getitem2_np_unique _ cy cx)).
      done.
    + unfold img_eq. rewrite getitem2_img_map, Hv. cbn.
      by rewrite Z.eqb_refl.
  - rewrite get_target_mask_uncentered by done.
    pose proof (select_fold_inv (get_class_mask cfg sv) (instance sv) prev
                  (np_unique (instance sv)) [] _
                  (select_inv_initial _ _ _)) as [Hbest Hcont].
    rewrite app_nil_l in Hbest, Hcont.
    set (sel := fold_left _ _ _) in *.
    assert (Hne : np_unique (instance sv) ≠ []).
    { intros Hnil. pose proof (getitem2_np_unique _ _ _ _ Hv) as Hin.
      rewrite Hnil in Hin. by apply elem_of_nil in Hin. }
    destruct (candidates_inside_class (get_class_mask cfg sv) (instance sv)
                cy cx Hs0 Hs1) as [Hb Hco].
    assert (Hfinal : ∃ m, select_final cfg prev sel = Some m
                          ∧ getitem2 m cy cx ≠ Some true).
    { unfold select_final. unfold acc_inv in Hbest.
      destruct (target_mask sel) as [m1|] eqn:E1,
               (target_mask_pts sel) as [n1|] eqn:E2; try done.
      destruct Hbest as [_ (i1 & _ & -> & _)].
      destruct prev as [p|].
      - unfold acc_inv in Hcont.
        destruct (maximum_overlap_mask sel) as [m2|] eqn:E3,
                 (maximum_overlap_pts sel) as [n2|] eqn:E4; try done.
        destruct Hcont as [_ (i2 & _ & -> & _)].
        destruct (min_points_to_approach cfg <? n2).
        + eexists. split; [done|]. intros H. apply Hco in H. congruence.
        + eexists. split; [done|]. intros H. apply Hb in H. congruence.
      - destruct Hcont as [-> ->].
        eexists. split; [done|]. intros H. apply Hb in H. congruence. }
    destruct Hfinal as (m & -> & Hm). exists m. split; [done|].
    split; [done|discriminate].
Qed.

(** *** The step towards the object *)

Lemma fmax_quarter (x : Q) : (1#4 <= fmax (1#4) x)%Q.
Proof.
  unfold fmax. destruct (Qltb (1#4) x) eqn:E; [|lra].
  apply Qltb_lt in E. lra.
Qed.

Lemma fadd_eq (x y : Q) : (fadd x y == x + y)%Q.
Proof. apply Qred_correct. Qed.

Lemma fmul_eq (x y : Q) : (fmul x y == x * y)%Q.
Proof. apply Qred_correct. Qed.

(** X11.  One step of the approach, for a turn that does not grasp.
    While the object is off the aim pixel by the alignment threshold or
    more in either direction, the arm command keeps lift and arm
    extension as they are: the base moves against a horizontal offset
    beyond the threshold, by at least a quarter of [base_x_step], the
    wrist pitches against a vertical offset beyond the threshold, by at
    least a quarter of [wrist_pitch_step], an axis whose offset is
    within the threshold is left alone, and the previous mask is
    forgotten (the thresholds and step sizes not being negative).  Once
    both offsets are below the thresholds, and the aim
    pixel is not yet in grasping range, base and wrist stay as they are
    and the arm advances by [lift_arm_ratio] along the wrist direction;
    the turn counts as aligned.  Either way the turn issues one blocking
    arm command and one pause, and the loop goes on. *)
Theorem approach_step (cfg : config) (v : servo_vars) (target : mask)
    (base_x wrist_pitch arm lift dx dy cd : Q) (fr : frame) (s : bool) :
  (0 <= base_x_step cfg)%Q →
  (0 <= wrist_pitch_step cfg)%Q →
  0 ≤ align_x_threshold cfg →
  0 ≤ align_y_threshold cfg →
  let tx := inject_Z (align_x_threshold cfg) in
  let ty := inject_Z (align_y_threshold cfg) in
  let run := approach cfg v target (base_x, wrist_pitch, arm, lift) dx dy cd fr s in
  (Qltb (fabs dx) tx && Qltb (fabs dy) ty = false →
   ∃ bx wp,
     run = (Ok (Continue (with_prev_lift (Some lift) (with_prev_target_mask None v))),
            s,
            [ArmTo [bx; lift; arm; 0; wp; 0]%Q true;
             SleepFor (expected_network_delay cfg)])
     ∧ ((tx < dx)%Q → (bx <= base_x - base_x_step cfg * (1#4))%Q)
     ∧ ((dx < - tx)%Q → (base_x + base_x_step cfg * (1#4) <= bx)%Q)
     ∧ ((- tx <= dx <= tx)%Q → bx = base_x)
     ∧ ((ty < dy)%Q → (wp <= wrist_pitch - wrist_pitch_step cfg * (1#4))%Q)
     ∧ ((dy < - ty)%Q → (wrist_pitch + wrist_pitch_step cfg * (1#4) <= wp)%Q)
     ∧ ((- ty <= dy <= ty)%Q → wp = wrist_pitch))
  ∧ (Qltb (fabs dx) tx && Qltb (fabs dy) ty = true →
     Qltb cd (median_distance_when_grasping cfg) = false →
     ∃ lift' arm' v',
       run = (Ok (Continue v'), s,
              [ArmTo [base_x; lift'; arm'; 0; wrist_pitch; 0]%Q true;
               SleepFor (expected_network_delay cfg)])
       ∧ (lift' == lift + np_sin wrist_pitch * lift_arm_ratio cfg)%Q
       ∧ (arm' == arm + np_cos wrist_pitch * lift_arm_ratio cfg)%Q
       ∧ aligned_once v' = true
       ∧ prev_target_mask v' = prev_target_mask v
       ∧ success v' = success v).
Proof.
  intros Hbx Hwp Htx Hty. cbv zeta.
  rewrite Zle_Qle in Htx, Hty. change (inject_Z 0) with 0%Q in Htx, Hty.
  split.
  - intros Hal. unfold approach. rewrite Hal.
    set (px := fmax (1#4) _). set (py := fmax (1#4) _).
    pose proof (fmax_quarter (fabs (fdiv (fmul 2 dx)
                  (inject_Z (Z.of_nat (shape1 target)))))) as Hpx.
    pose proof (fmax_quarter (fabs (fdiv (fmul 2 dy)
                  (inject_Z (Z.of_nat (shape0 target)))))) as Hpy.
    fold px in Hpx. fold py in Hpy.
    eexists _, _. split; [by g_steps|].
    rewrite inject_Z_mult. change (inject_Z (-1)) with (-1)%Q.
    rewrite (inject_Z_mult (-1)). change (inject_Z (-1)) with (-1)%Q.
    split_and!.
    + intros H. apply Qltb_lt in H as H'. rewrite H'.
      rewrite fadd_eq, fmul_eq. nra.
    + intros H.
      assert (H1 : Qltb (inject_Z (align_x_threshold cfg)) dx = false)
        by (apply Qltb_ge; lra).
      assert (H2 : Qltb dx (-1 * inject_Z (align_x_threshold cfg)) = true)
        by (apply Qltb_lt; lra).
      rewrite H1, H2, fadd_eq, fmul_eq. nra.
    + intros H.
      assert (H1 : Qltb (inject_Z (align_x_threshold cfg)) dx = false)
        by (apply Qltb_ge; lra).
      assert (H2 : Qltb dx (-1 * inject_Z (align_x_threshold cfg)) = false)
        by (apply Qltb_ge; lra).
      by rewrite H1, H2.
    + intros H. apply Qltb_lt in H as H'. rewrite H'.
      rewrite fadd_eq, fmul_eq. nra.
    + intros H.
      assert (H1 : Qltb (inject_Z (align_y_threshold cfg)) dy = false)
        by (apply Qltb_ge; lra).
      assert (H2 : Qltb dy (-1 * inject_Z (align_y_threshold cfg)) = true)
        by (apply Qltb_lt; lra).
      rewrite H1, H2, fadd_eq, fmul_eq. nra.
    + intros H.
      assert (H1 : Qltb (inject_Z (align_y_threshold cfg)) dy = false)
        by (apply Qltb_ge; lra).
      assert (H2 : Qltb dy (-1 * inject_Z (align_y_threshold cfg)) = false)
        by (apply Qltb_ge; lra).
      by rewrite H1, H2.
  - intros Hal Hfar. unfold approach. rewrite Hal, Hfar.
    eexists _, _, _. split; [by g_steps|].
    split_and!; [|by rewrite fadd_eq, fmul_eq|done|done|done].
    rewrite fadd_eq, fmul_eq. lra.
Qed.

(** *** What a turn of the servo loop can do *)

Ltac ol_leaf :=
  repeat first
    [ progress g_steps
    | progress cbn [negb]
    | match goal with H : ?x = _ |- context [?x] => rewrite H end ];
  done.

Lemma grasp_shape (fr : frame) (s : bool) :
  (∃ lifted,
     _grasp fr s = (Ok true, s, [CloseGripper true; SleepFor (1#2); ArmTo lifted true]))
  ∨ _grasp fr s = (Raise IndexError, s, [CloseGripper true; SleepFor (1#2)]).
Proof.
  unfold _grasp. g_steps.
  destruct (py_index (grasp_joint_state fr) LIFT) as [l|]; g_steps; [|by right].
  destruct (py_setitem (grasp_joint_state fr) LIFT _) as [q|]; g_steps;
    [left; by eexists|by right].
Qed.

(** The open-loop grasp poses one inverse-kinematics problem.  It either
    returns [None], having assigned [_success], or raises [IndexError]
    with [_success] and the robot untouched. *)
Lemma grasp_open_loop_shape (cfg : config) (fr : frame)
    (xyz : option (list Q)) :
  ∃ t,
    ik_calls t
    = [(point_global_to_base xyz (open_loop_base_pose fr),
        (manip_fk (open_loop_joint_state fr)).2, open_loop_joint_state fr)]
    ∧ ((∃ b, ∀ s, grasp_open_loop cfg fr xyz s = (Ok None, b, t))
       ∨ ((∀ s, grasp_open_loop cfg fr xyz s = (Raise IndexError, s, t))
          ∧ gripper_closings t = 0%nat)).
Proof.
  set (rel := point_global_to_base xyz (open_loop_base_pose fr)).
  set (js := open_loop_joint_state fr).
  destruct (manip_fk js) as [ee_pos ee_rot] eqn:Hfk. cbn [snd].
  destruct (manip_ik_for_grasp_frame rel ee_rot js) as [target ok] eqn:Hik.
  assert (Hrun : ∀ s, grasp_open_loop cfg fr xyz s
    = (tell (SolveIK rel ee_rot js) ;;
       base_x ← need IndexError (py_index target BASE_X);
       target_joint_state ←
         need IndexError (py_setitem target BASE_X (fsub base_x (4#100)));
       if negb ok then set_success false ;; mret None
       else
         arm ← need IndexError (py_index target_joint_state ARM);
         negative ←
           (if Qltb arm 0 then mret true
            else
              lift ← need IndexError (py_index target_joint_state LIFT);
              mret (Qltb lift 0));
         if (negative : bool) then set_success false ;; mret None
         else
           lift ← need IndexError (py_index target_joint_state LIFT);
           target_joint_state_lifted ←
             need IndexError
               (py_setitem target_joint_state LIFT (fadd lift (lift_distance cfg)));
           tell (ArmTo target_joint_state true) ;;
           tell (SleepFor (1#2)) ;;
           tell (CloseGripper true) ;;
           tell (SleepFor (1#2)) ;;
           tell (ArmTo target_joint_state_lifted false) ;;
           tell (ArmTo js true) ;;
           set_success true ;;
           mret None) s).
  { intros s. unfold grasp_open_loop. fold rel js. by rewrite Hfk, Hik. }
  destruct (py_index target BASE_X) as [bx|] eqn:Hbx;
    [|exists [SolveIK rel ee_rot js]; split; [done|]; right; split; [|done];
      intros s; rewrite Hrun; ol_leaf].
  destruct (py_setitem target BASE_X (fsub bx (4#100))) as [target'|] eqn:Hset;
    [|exists [SolveIK rel ee_rot js]; split; [done|]; right; split; [|done];
      intros s; rewrite Hrun; ol_leaf].
  destruct ok;
    [|exists [SolveIK rel ee_rot js]; split; [done|]; left; exists false;
      intros s; rewrite Hrun; ol_leaf].
  destruct (py_index target' ARM) as [a|] eqn:Ha;
    [|exists [SolveIK rel ee_rot js]; split; [done|]; right; split; [|done];
      intros s; rewrite Hrun; ol_leaf].
  destruct (Qltb a 0) eqn:Hneg.
  { exists [SolveIK rel ee_rot js]. split; [done|]. left. exists false.
    intros s. rewrite Hrun. ol_leaf. }
  destruct (py_index target' LIFT) as [l|] eqn:Hl;
    [|exists [SolveIK rel ee_rot js]; split; [done|]; right; split; [|done];
      intros s; rewrite Hrun; ol_leaf].
  destruct (Qltb l 0) eqn:Hnegl.
  { exists [SolveIK rel ee_rot js]. split; [done|]. left. exists false.
    intros s. rewrite Hrun. ol_leaf. }
  destruct (py_setitem target' LIFT (fadd l (lift_distance cfg)))
    as [lifted|] eqn:Hlifted;
    [|exists [SolveIK rel ee_rot js]; split; [done|]; right; split; [|done];
      intros s; rewrite Hrun; ol_leaf].
  exists [SolveIK rel ee_rot js; ArmTo target' true; SleepFor (1#2);
          CloseGripper true; SleepFor (1#2); ArmTo lifted false; ArmTo js true].
  split; [done|]. left. exists true.
  intros s. rewrite Hrun. ol_leaf.
Qed.

Ltac turn_leaf :=
  unfold turn_ok; cbn [fst snd];
  first
    [ done
    | split_and!; [done|done|]; intros; (by left) || (right; set_unfold; by auto) ].

Lemma eta3 {A B C} (x : A * B * C) : (let '(r, s, t) := x in (r, s, t)) = x.
Proof. by destruct x as [[r s] t]. Qed.

Lemma grasp_then_turn (fr : frame) (s : bool) (v v0 : servo_vars)
    (k : servo_vars → flow) :
  (k = Continue ∨ k = Break) →
  turn_ok v s ((b ← _grasp fr; mret (k (with_success b v0))) s).
Proof.
  intros Hk. rewrite g_run_bind.
  destruct (grasp_shape fr s) as [[lifted ->] | ->]; [|done].
  g_steps. destruct Hk as [-> | ->]; unfold turn_ok; cbn [fst snd];
    (split_and!; [done|done|]); intros _; right; set_unfold; auto.
Qed.

Lemma approach_turn (cfg : config) (v v0 : servo_vars) (m : mask)
    (joints : Q * Q * Q * Q) (dx dy cd : Q) (fr : frame) (s : bool) :
  success v0 = success v →
  turn_ok v s (approach cfg v0 m joints dx dy cd fr s).
Proof.
  intros Hs. unfold approach. destruct joints as [[[base_x wrist_pitch] arm] lift].
  destruct (Qltb (fabs dx) _ && Qltb (fabs dy) _).
  - destruct (Qltb cd _).
    + apply (grasp_then_turn _ _ _ _ Break). by right.
    + g_steps. unfold turn_ok. cbn [fst snd]. split_and!; [done|done|].
      cbn. intros H. left. congruence.
  - g_steps. unfold turn_ok. cbn [fst snd]. split_and!; [done|done|].
    cbn. intros H. left. congruence.
Qed.

Lemma track_turn (cfg : config) (v : servo_vars) (m : mask)
    (joints : option (Q * Q * Q * Q)) (cx cy : Z) (cd : Q) (fr : frame)
    (s : bool) :
  turn_ok v s (track cfg v m joints cx cy cd fr s).
Proof.
  unfold track.
  destruct (negb _); [done|]. rewrite g_run_bind.
  destruct (getitem2 (world_xyz (servo fr)) _ _) as [xyz|]; g_steps; [|done].
  destruct (show_servo_gui cfg && _).
  { g_steps. unfold turn_ok. cbn [fst snd]. split_and!; [done|done|].
    cbn. intros H. by left. }
  destruct (min_points_to_approach cfg <? num_pts m).
  - rewrite g_run_bind.
    destruct (getitem2 m cy cx) as [c|]; g_steps; [|done].
    destruct joints as [j|]; g_steps; [|done].
    destruct (c && _).
    + rewrite !eta3. apply (grasp_then_turn _ _ _ _ Break). by right.
    + rewrite !eta3. by apply approach_turn.
  - destruct (Qltb cd _).
    + rewrite ?eta3. apply (grasp_then_turn _ _ _ _ Continue). by left.
    + g_steps. unfold turn_ok. cbn [fst snd]. split_and!; [done|done|].
      cbn. intros H. by left.
Qed.

Lemma lost_track_turn (cfg : config) (v : servo_vars) (fr : frame) (s : bool) :
  turn_ok v s (lost_track cfg v fr s).
Proof.
  unfold lost_track. destruct (negb (aligned_once v)).
  { g_steps. unfold turn_ok. cbn [fst snd]. by left. }
  destruct (failed_counter v <? 5).
  { g_steps. unfold turn_ok. cbn [fst snd]. split_and!; [done|done|].
    cbn. intros H. by left. }
  rewrite g_run_bind.
  destruct (grasp_open_loop_shape cfg fr (current_xyz v))
    as (t & Hik & [[b Hrun] | [Hrun _]]); rewrite Hrun; [|done].
  g_steps. unfold turn_ok. cbn [fst snd]. right. split; [done|].
  rewrite app_nil_r, Hik. done.
Qed.

Lemma servo_body_turn (cfg : config) (v : servo_vars) (fr : frame) (s : bool) :
  turn_ok v s (servo_body cfg v fr s).
Proof.
  unfold servo_body. rewrite g_run_bind.
  rewrite (quiet_run _ s (quiet_read_joints cfg fr)).
  destruct ((read_joints cfg fr s).1.1) as [joints|e|]; [|done|done].
  destruct (aim_center cfg fr) as [cx cy]. rewrite g_run_bind.
  rewrite (quiet_run _ s (quiet_get_target_mask cfg (servo fr) (cx, cy)
                            (prev_target_mask v))).
  destruct ((get_target_mask cfg (servo fr) (cx, cy) (prev_target_mask v) s).1.1)
    as [target|e|]; [|done|done].
  rewrite g_run_bind.
  destruct (getitem2 (ee_depth (servo fr)) cy cx) as [depth|]; g_steps; [|done].
  destruct target as [m|]; g_steps; [|done].
  destruct (num_pts m =? 0); rewrite ?eta3; [apply lost_track_turn|apply track_turn].
Qed.

(** What the result of the loop says about the run, from any state of
    the loop variables. *)
Lemma servo_loop_result (cfg : config) (max_duration t0 : Q) :
  ∀ frames v s r,
    let run := servo_loop cfg max_duration t0 v frames s in
    run.1.1 = Ok r →
    (r = Some true → success v = true ∨ CloseGripper true ∈ run.2)
    ∧ (r = None ↔ ik_calls run.2 ≠ [])
    ∧ (r ≠ None → run.1.2 = s).
Proof.
  induction frames as [|fr rest IH]; intros v s r; cbv zeta; [done|].
  cbn [servo_loop]. destruct (Qltb (clock fr - t0) max_duration).
  2: { g_steps. intros [= <-]. cbn. split_and!; try done.
       intros [= ->]. by left. }
  rewrite g_run_bind. pose proof (servo_body_turn cfg v fr s) as Hturn.
  destruct (servo_body cfg v fr s) as [[[[v'|v'|r']|e|] s1] t1];
    unfold turn_ok in Hturn; cbn [fst snd] in Hturn; [| | |done|done].
  - destruct Hturn as (-> & Hik & Hs). specialize (IH v' s r). cbv zeta in IH.
    destruct (servo_loop cfg max_duration t0 v' rest s) as [[r2 s2] t2].
    cbn [fst snd] in *. intros Hr. destruct (IH Hr) as (H1 & H2 & H3).
    unfold ik_calls in *. rewrite omap_app, Hik, app_nil_l.
    split_and!; [|done|done].
    intros Ht. destruct (H1 Ht) as [H|H].
    + destruct (Hs H) as [?|?]; [by left|].
      right. apply elem_of_app. by left.
    + right. apply elem_of_app. by right.
  - destruct Hturn as (-> & Hik & Hs). g_steps. intros [= <-].
    rewrite app_nil_r. split_and!; [|by rewrite Hik|done].
    intros [= Ht]. destruct (Hs Ht); [by left|by right].
  - g_steps. intros [= <-]. rewrite app_nil_r.
    destruct Hturn as [(-> & -> & ->) | (-> & Hik)]; split_and!; done.
Qed.

(** X12.  [visual_servo_to_object] reports success only for a grasp it
    has executed: whenever it returns [True], the commands it has issued
    include closing the gripper.  A run that returns [True] or [False]
    has not posed any inverse-kinematics problem and has left the
    [_success] attribute alone. *)
Theorem servo_success_means_gripper_closed (cfg : config)
    (max_duration t0 : Q) (frames : list frame) (s : bool) :
  let run := visual_servo_to_object cfg max_duration t0 frames s in
  (run.1.1 = Ok (Some true) → CloseGripper true ∈ run.2)
  ∧ (∀ b, run.1.1 = Ok (Some b) → ik_calls run.2 = [] ∧ run.1.2 = s).
Proof.
  cbv zeta. unfold visual_servo_to_object. split.
  - intros Hr.
    destruct (servo_loop_result cfg max_duration t0 frames initial_vars s
                (Some true) Hr) as ([H|H] & _); done.
  - intros b Hr.
    destruct (servo_loop_result cfg max_duration t0 frames initial_vars s
                (Some b) Hr) as (_ & H2 & H3).
    split; [|by apply H3].
    destruct (ik_calls _) eqn:E; [done|].
    assert (Hn : Some b = None) by (by apply H2). done.
Qed.

(** X13.  [visual_servo_to_object] is declared to return a boolean, but
    when the loop hands over to the open-loop planner it returns what
    [grasp_open_loop] returns, which is always [None].  So the result is
    [None] exactly when an inverse-kinematics problem was posed during
    the run, whether or not the open-loop grasp then succeeded; and
    [grasp_open_loop] itself never returns anything but [None]. *)
Theorem servo_returns_none_after_fallback (cfg : config)
    (max_duration t0 : Q) (frames : list frame) (s : bool) (r : option bool) :
  let run := visual_servo_to_object cfg max_duration t0 frames s in
  (run.1.1 = Ok r → (r = None ↔ ik_calls run.2 ≠ []))
  ∧ (∀ fr xyz s' r', (grasp_open_loop cfg fr xyz s').1.1 = Ok r' → r' = None).
Proof.
  cbv zeta. unfold visual_servo_to_object. split.
  - intros Hr.
    by destruct (servo_loop_result cfg max_duration t0 frames initial_vars s
                   r Hr) as (_ & H & _).
  - intros fr xyz s' r'.
    destruct (grasp_open_loop_shape cfg fr xyz)
      as (t & _ & [[b Hrun] | [Hrun _]]); rewrite Hrun; cbn; congruence.
Qed.

(** *** The open-loop grasp when the solver has an answer *)

(** X14.  Let the solver's joint state have base, arm and lift entries.
    The open-loop grasp first moves the base entry back by 0.04 and then
    judges the result: [_success] becomes [True] exactly when the solver
    reported success and neither arm extension nor lift is negative.  In
    that case the commands are, in this order: move to the target and
    wait, pause, close the gripper and wait, pause, lift by
    [lift_distance] without waiting, return to the joint state read at
    the start and wait.  The call returns [None] in every case. *)
Theorem open_loop_grasp_sequence (cfg : config) (fr : frame)
    (xyz : option (list Q)) (s0 : bool)
    (target target' lifted : list Q) (ok : bool) (base_x arm lift : Q) :
  manip_ik_for_grasp_frame
    (point_global_to_base xyz (open_loop_base_pose fr))
    (manip_fk (open_loop_joint_state fr)).2 (open_loop_joint_state fr)
  = (target, ok) →
  py_index target BASE_X = Some base_x →
  py_setitem target BASE_X (fsub base_x (4#100)) = Some target' →
  py_index target' ARM = Some arm →
  py_index target' LIFT = Some lift →
  py_setitem target' LIFT (fadd lift (lift_distance cfg)) = Some lifted →
  let run := grasp_open_loop cfg fr xyz s0 in
  run.1.1 = Ok None
  ∧ (was_successful run.1.2 = true ↔ ok = true ∧ (0 <= arm)%Q ∧ (0 <= lift)%Q)
  ∧ (was_successful run.1.2 = true →
     run.2 = [SolveIK (point_global_to_base xyz (open_loop_base_pose fr))
                (manip_fk (open_loop_joint_state fr)).2 (open_loop_joint_state fr);
              ArmTo target' true; SleepFor (1#2); CloseGripper true;
              SleepFor (1#2); ArmTo lifted false;
              ArmTo (open_loop_joint_state fr) true]).
Proof.
  intros Hik Hbx Hset Ha Hl Hlifted. cbv zeta. unfold grasp_open_loop.
  destruct (manip_fk (open_loop_joint_state fr)) as [ee_pos ee_rot] eqn:Hfk.
  cbn [snd] in *. rewrite Hik. g_steps. rewrite Hbx. g_steps.
  rewrite Hset. g_steps. unfold was_successful.
  destruct ok; cbn [negb]; g_steps.
  2: { split_and!; [done| |done]. split; [done|]. by intros [? _]. }
  rewrite Ha. g_steps. destruct (Qltb arm 0) eqn:Hneg; g_steps.
  { apply Qltb_lt in Hneg. split_and!; [done| |done].
    split; [done|]. intros (_ & H & _). lra. }
  rewrite Hl. g_steps. destruct (Qltb lift 0) eqn:Hnegl; g_steps.
  { apply Qltb_lt in Hnegl. split_and!; [done| |done].
    split; [done|]. intros (_ & _ & H). lra. }
  rewrite Hlifted. g_steps.
  apply Qltb_ge in Hneg, Hnegl. split_and!; done.
Qed.

(** *** The [open_loop] switch *)

(** X15.  With the class attribute [open_loop] set, the servo loop does
    not read the joint values, but the approach still uses them: the
    first turn that sees a target mask of more than
    [min_points_to_approach] pixels (with readable inputs and no abort
    key) raises [NameError] (a local variable that was never bound),
    before any command.  A turn with an empty target mask is not
    affected. *)
Theorem open_loop_switch_breaks_approach (cfg : config) (v : servo_vars)
    (fr : frame) (s : bool) (m : mask) (depth : Q) (c : bool) :
  open_loop cfg = true →
  (∀ s', get_target_mask cfg (servo fr) (aim_center cfg fr)
           (prev_target_mask v) s' = (Ok (Some m), s', [])) →
  getitem2 (ee_depth (servo fr)) (aim_center cfg fr).2 (aim_center cfg fr).1
  = Some depth →
  (min_points_to_approach cfg < num_pts m →
   0 < num_pts m →
   turn_in_order cfg fr m →
   getitem2 m (aim_center cfg fr).2 (aim_center cfg fr).1 = Some c →
   servo_body cfg v fr s = (Raise NameError, s, []))
  ∧ (num_pts m = 0 → servo_body cfg v fr s = lost_track cfg v fr s).
Proof.
  intros Hopen Hmask Hdepth.
  assert (Hper : perceives cfg v fr None m depth).
  { split_and!; [|done|done]. intros s'. unfold read_joints. by rewrite Hopen. }
  rewrite (servo_body_perceived _ _ _ _ _ _ _ Hper). split.
  - intros Hlarge Hpos (Hshape & [xyz Hxyz] & Hkey) Hc.
    destruct (num_pts m =? 0) eqn:E; [lia|].
    unfold track. rewrite Hshape. cbn [negb]. rewrite g_run_bind, Hxyz.
    g_steps. rewrite Hkey.
    destruct (min_points_to_approach cfg <? num_pts m) eqn:E'; [|lia].
    rewrite g_run_bind, Hc. by g_steps.
  - intros ->. done.
Qed.

(** *** [run] *)

Lemma r_run_bind {A B} (m : R A) (k : A → R B) (s : option bool) :
  (m ≫= k) s =
  match m s with
  | (Ok a, s1, t1) => match k a s1 with (r, s2, t2) => (r, s2, t1 ++ t2) end
  | (Raise e, s1, t1) => (Raise e, s1, t1)
  | (OutOfFuel, s1, t1) => (OutOfFuel, s1, t1)
  end.
Proof. reflexivity. Qed.

Ltac r_steps :=
  repeat first
    [ rewrite r_run_bind
    | progress cbn [want fail say assign read_success mret R_ret app fst snd] ].

Lemma run_split (rc : run_config) (inp : run_input) (s0 : option bool) :
  run rc inp s0 = (pregrasp rc inp ;; grasp_phase rc inp) s0.
Proof.
  unfold run, pregrasp. fold (grasp_phase rc inp).
  r_steps. destruct (show_object_to_grasp rc); r_steps;
    (destruct (py_index (run_joint_state inp) GRIPPER) as [g|]; r_steps; [|done]);
    (destruct (Qltb g 0); r_steps);
    (destruct (pitch_from_vertical rc _ _ (Some false)) as [[[p|e|] s1] t1];
       r_steps; [|done|done]);
    (destruct (py_setitem (run_joint_state inp) WRIST_PITCH _) as [q|];
       r_steps; [|done]);
    destruct (grasp_phase rc inp s1) as [[r s2] t2]; cbn [app];
    by rewrite <- ?app_assoc.
Qed.

Lemma call_open_loop (cfg : config) (fr : frame) (xyz : option (list Q))
    (s : option bool) :
  succeeded s = false →
  let ol := grasp_open_loop cfg fr xyz false in
  call (grasp_open_loop cfg fr xyz) s
  = (ol.1.1, match ol.1.1 with Ok _ => Some ol.1.2 | _ => s end, Robot <$> ol.2).
Proof.
  intros Hs. cbv zeta. unfold call, assigns. unfold succeeded in Hs. rewrite Hs.
  destruct (grasp_open_loop_shape cfg fr xyz)
    as (t & _ & [[b Hrun] | [Hrun _]]); rewrite !Hrun; cbn [fst snd].
  - by rewrite bool_decide_eq_true_2.
  - by rewrite bool_decide_eq_false_2.
Qed.

Lemma grasp_phase_servo (rc : run_config) (inp : run_input) (s1 : option bool)
    (r : option bool) (b : bool) (t : list command) :
  servo_to_grasp rc = true →
  servo_of rc inp (default false s1) = (Ok r, b, t) →
  grasp_phase rc inp s1 =
  if succeeded r then (Ok tt, r, Robot <$> t)
  else
    let ol := open_loop_of rc inp false in
    (match ol.1.1 with Ok _ => Ok tt | Raise e => Raise e | OutOfFuel => OutOfFuel end,
     match ol.1.1 with Ok _ => Some ol.1.2 | _ => r end,
     (Robot <$> t) ++ (Robot <$> ol.2)).
Proof.
  intros Hon Hsv. unfold grasp_phase. rewrite Hon. r_steps.
  unfold call at 1. fold (servo_of rc inp). rewrite Hsv. r_steps.
  destruct (succeeded r) eqn:Hr; cbn [negb]; r_steps.
  - by rewrite !app_nil_r.
  - fold (open_loop_of rc inp). unfold open_loop_of at 1.
    rewrite call_open_loop by done. fold (open_loop_of rc inp). cbv zeta.
    destruct (open_loop_of rc inp false) as [[[o|e|] b'] t']; cbn [fst snd];
      r_steps; by rewrite ?app_nil_r.
Qed.

Lemma grasp_phase_direct (rc : run_config) (inp : run_input) (s1 : option bool) :
  servo_to_grasp rc = false →
  succeeded s1 = false →
  grasp_phase rc inp s1 =
  let ol := open_loop_of rc inp false in
  (match ol.1.1 with Ok _ => Ok tt | Raise e => Raise e | OutOfFuel => OutOfFuel end,
   match ol.1.1 with Ok _ => Some ol.1.2 | _ => s1 end,
   Robot <$> ol.2).
Proof.
  intros Hoff Hs. unfold grasp_phase. rewrite Hoff. r_steps. rewrite Hs.
  cbn [negb]. r_steps. fold (open_loop_of rc inp). unfold open_loop_of at 1.
  rewrite call_open_loop by done. fold (open_loop_of rc inp). cbv zeta.
  destruct (open_loop_of rc inp false) as [[[o|e|] b'] t']; cbn [fst snd];
    r_steps; by rewrite ?app_nil_r.
Qed.

Lemma pregrasp_state (rc : run_config) (inp : run_input) (s0 s1 : option bool)
    (pre : list run_command) :
  pregrasp rc inp s0 = (Ok tt, s1, pre) → s1 = Some false.
Proof.
  unfold pregrasp. r_steps. destruct (show_object_to_grasp rc); r_steps;
    (destruct (py_index (run_joint_state inp) GRIPPER) as [g|]; r_steps; [|done]);
    (destruct (Qltb g 0); r_steps);
    (assert (Hp : ∀ s, (pitch_from_vertical rc (run_joint_state inp)
                          (point_global_to_base (Some (object_xyz inp))
                             (run_base_pose inp)) s).1.2 = s);
     [intros s; unfold pitch_from_vertical;
      destruct (use_pitch_from_vertical rc); [|done];
      destruct (manip_fk (run_joint_state inp)) as [ee_pos ee_rot];
      repeat first [ rewrite r_run_bind
                   | progress cbn [want fail mret R_ret fst snd]
                   | match goal with
                     | |- context [py_index ?l ?i] => destruct (py_index l i)
                     end ]; done|]);
    specialize (Hp (Some false));
    (destruct (pitch_from_vertical rc _ _ (Some false)) as [[[p|e|] s2] t2];
       r_steps; [|done|done]);
    cbn [fst snd] in Hp; subst s2;
    (destruct (py_setitem (run_joint_state inp) WRIST_PITCH _) as [q|];
       r_steps; [|done]);
    congruence.
Qed.

Lemma robot_commands_fmap (t : list command) : robot_commands (Robot <$> t) = t.
Proof. unfold robot_commands. induction t as [|c t IH]; [done|]. cbn. by rewrite IH. Qed.

Lemma gripper_closings_app (t1 t2 : list command) :
  gripper_closings (t1 ++ t2) = (gripper_closings t1 + gripper_closings t2)%nat.
Proof. unfold gripper_closings. by rewrite filter_app, length_app. Qed.

Lemma pitch_from_vertical_quiet (rc : run_config) (js rel : list Q)
    (s : option bool) :
  ∃ r, pitch_from_vertical rc js rel s = (r, s, []).
Proof.
  unfold pitch_from_vertical. destruct (use_pitch_from_vertical rc); [|by eexists].
  destruct (manip_fk js) as [ee_pos ee_rot].
  repeat first [ rewrite r_run_bind
               | progress cbn [want fail mret R_ret fst snd app]
               | match goal with
                 | |- context [py_index ?l ?i] => destruct (py_index l i)
                 end ]; by eexists.
Qed.

Lemma pregrasp_commands (rc : run_config) (inp : run_input) (s0 s1 : option bool)
    (pre : list run_command) :
  pregrasp rc inp s0 = (Ok tt, s1, pre) →
  ∃ g pitch q,
    py_index (run_joint_state inp) GRIPPER = Some g
    ∧ (pitch_from_vertical rc (run_joint_state inp)
         (point_global_to_base (Some (object_xyz inp)) (run_base_pose inp))
         (Some false)).1.1 = Ok pitch
    ∧ py_setitem (run_joint_state inp) WRIST_PITCH
        (fadd (fdiv (- np_pi) 2) pitch) = Some q
    ∧ pre = (if show_object_to_grasp rc then [ShowInstance] else [])
            ++ (if Qltb g 0 then [OpenGripper true] else [])
            ++ [Robot (ArmTo q true)].
Proof.
  unfold pregrasp. r_steps.
  destruct (py_index (run_joint_state inp) GRIPPER) as [g|] eqn:Hg.
  2:{ destruct (show_object_to_grasp rc); by r_steps. }
  destruct (pitch_from_vertical_quiet rc (run_joint_state inp)
              (point_global_to_base (Some (object_xyz inp)) (run_base_pose inp))
              (Some false)) as [r Hr].
  destruct (show_object_to_grasp rc); r_steps;
    destruct (Qltb g 0) eqn:Hneg; r_steps;
    rewrite Hr; (destruct r as [pitch|e|]; r_steps; [|done..]);
    (destruct (py_setitem (run_joint_state inp) WRIST_PITCH _) as [q|] eqn:Hq;
       r_steps; [|done]);
    intros [= <- <-]; exists g, pitch, q; by rewrite Hneg.
Qed.

(** X16.  What [run] does before the grasp and what [was_successful]
    says after it.  Let the posture before the grasp be reached.  Then
    [run] has set [_success] to [False], has shown the instance if asked
    to, has opened the gripper exactly when the gripper entry of the
    joint state was negative, and has last sent one blocking arm command:
    the joint state with the wrist pitch replaced by minus a quarter
    turn plus the pitch from vertical.  If the servo loop is switched on
    and returns [True], [run] ends there with [_success] true.  In every
    other case (the servo loop switched off, as it is by default, or
    returning [False] or [None]) [run] makes an open-loop attempt of its
    own at the mean point of the object, and when that attempt returns,
    [_success] is its verdict alone: whatever a fallback inside the
    servo loop had achieved is not kept. *)
Theorem run_reports_own_attempt (rc : run_config) (inp : run_input)
    (s0 s1 : option bool) (pre : list run_command) :
  pregrasp rc inp s0 = (Ok tt, s1, pre) →
  let sv := servo_of rc inp false in
  let ol := open_loop_of rc inp false in
  (s1 = Some false
   ∧ ∃ g pitch q,
       py_index (run_joint_state inp) GRIPPER = Some g
       ∧ (pitch_from_vertical rc (run_joint_state inp)
            (point_global_to_base (Some (object_xyz inp)) (run_base_pose inp))
            (Some false)).1.1 = Ok pitch
       ∧ py_setitem (run_joint_state inp) WRIST_PITCH
           (fadd (fdiv (- np_pi) 2) pitch) = Some q
       ∧ pre = (if show_object_to_grasp rc then [ShowInstance] else [])
               ++ (if Qltb g 0 then [OpenGripper true] else [])
               ++ [Robot (ArmTo q true)])
  ∧ (servo_to_grasp rc = true → sv.1.1 = Ok (Some true) →
   run rc inp s0 = (Ok tt, Some true, pre ++ (Robot <$> sv.2)))
  ∧ (servo_to_grasp rc = true →
     ∀ r, sv.1.1 = Ok r → r ≠ Some true → ol.1.1 = Ok None →
          run rc inp s0
          = (Ok tt, Some ol.1.2, pre ++ (Robot <$> sv.2) ++ (Robot <$> ol.2)))
  ∧ (servo_to_grasp rc = false → ol.1.1 = Ok None →
     run rc inp s0 = (Ok tt, Some ol.1.2, pre ++ (Robot <$> ol.2))).
Proof.
  intros Hpre. cbv zeta. pose proof (pregrasp_state _ _ _ _ _ Hpre) as ->.
  pose proof (pregrasp_commands _ _ _ _ _ Hpre) as Hcmds.
  rewrite run_split, r_run_bind, Hpre.
  split_and!.
  - done.
  - exact Hcmds.
  - intros Hon Hsv.
    destruct (servo_of rc inp false) as [[r b] t] eqn:E. cbn [fst snd] in *.
    subst r. by rewrite (grasp_phase_servo rc inp (Some false) _ _ _ Hon E).
  - intros Hon r Hsv Hr Hol.
    destruct (servo_of rc inp false) as [[r' b] t] eqn:E. cbn [fst snd] in *.
    subst r'. rewrite (grasp_phase_servo rc inp (Some false) _ _ _ Hon E).
    assert (Hf : succeeded r = false) by (by destruct r as [[|]|]).
    rewrite Hf. cbv zeta. by rewrite Hol.
  - intros Hoff Hol. rewrite grasp_phase_direct by done. cbv zeta.
    by rewrite Hol.
Qed.

(** X17.  When the servo loop is switched on and hands over to the
    open-loop planner (its result is then [None]), [run] plans and
    executes the open-loop grasp a second time.  The commands of [run]
    are those of the posture, of the servo loop with its own open-loop
    grasp at the last tracked point, and of one more open-loop grasp at
    the mean point of the object; two inverse-kinematics problems are
    posed, and the gripper is closed once more for every attempt that
    the solver accepts. *)
Theorem run_repeats_open_loop_grasp (rc : run_config) (inp : run_input)
    (s0 s1 : option bool) (pre : list run_command) :
  pregrasp rc inp s0 = (Ok tt, s1, pre) →
  servo_to_grasp rc = true →
  let sv := servo_of rc inp false in
  let ol := open_loop_of rc inp false in
  let result := run rc inp s0 in
  sv.1.1 = Ok None →
  result.2 = pre ++ (Robot <$> sv.2) ++ (Robot <$> ol.2)
  ∧ ik_calls sv.2 ≠ []
  ∧ ik_calls ol.2
    = [(point_global_to_base (Some (object_xyz inp))
          (open_loop_base_pose (final_frame inp)),
        (manip_fk (open_loop_joint_state (final_frame inp))).2,
        open_loop_joint_state (final_frame inp))]
  ∧ gripper_closings (robot_commands (result.2))
    = (gripper_closings (robot_commands pre) + gripper_closings sv.2
       + gripper_closings ol.2)%nat
  ∧ (result.1.1 = Ok tt → result.1.2 = Some ol.1.2).
Proof.
  intros Hpre Hon. cbv zeta. intros Hsv.
  pose proof (pregrasp_state _ _ _ _ _ Hpre) as ->.
  assert (Hik : ik_calls (servo_of rc inp false).2 ≠ []).
  { destruct (servo_loop_result (servo_config rc) 120 (servo_t0 inp)
                (servo_frames inp) initial_vars false None Hsv) as (_ & H & _).
    by apply H. }
  assert (Hrun : run rc inp s0
    = (match (open_loop_of rc inp false).1.1 with
       | Ok _ => Ok tt | Raise e => Raise e | OutOfFuel => OutOfFuel end,
       match (open_loop_of rc inp false).1.1 with
       | Ok _ => Some (open_loop_of rc inp false).1.2 | _ => None end,
       pre ++ (Robot <$> (servo_of rc inp false).2)
           ++ (Robot <$> (open_loop_of rc inp false).2))).
  { rewrite run_split, r_run_bind, Hpre.
    destruct (servo_of rc inp false) as [[r b] t] eqn:E. cbn [fst snd] in *.
    subst r. by rewrite (grasp_phase_servo rc inp (Some false) _ _ _ Hon E). }
  rewrite Hrun. cbn [fst snd].
  split_and!; [done|done| | |].
  - unfold open_loop_of.
    destruct (grasp_open_loop_shape (servo_config rc) (final_frame inp)
                (Some (object_xyz inp))) as (t & Ht & [[b Hr] | [Hr _]]);
      by rewrite Hr.
  - unfold robot_commands at 1. rewrite !omap_app.
    fold (robot_commands pre).
    fold (robot_commands (Robot <$> (servo_of rc inp false).2)).
    fold (robot_commands (Robot <$> (open_loop_of rc inp false).2)).
    rewrite !robot_commands_fmap, !gripper_closings_app. lia.
  - by destruct ((open_loop_of rc inp false).1.1).
Qed.

End Facts.

Lemma aim_pixel_in_mask_iff_class_witness :
  ∃ m, get_target_mask (sensor:=sample_sensor) cup_config (servo (cup_frame 150))
         (6, 6) None false = (Ok (Some m), false, [])
       ∧ (getitem2 m 6 6 = Some true
          ↔ is_target_class (sensor:=sample_sensor) "cup" 7 = true).
Proof.
  apply (aim_pixel_in_mask_iff_class (sensor:=sample_sensor) cup_config
           (servo (cup_frame 150)) 6 6 None false 1 7); reflexivity.
Defined.

Lemma approach_step_witness :
  (∃ bx wp,
     approach (idx:=sample_idx) (trig:=sample_trig) cup_config initial_vars
       (uniform 12 12 true) (0, 0, 0, 0)%Q 20 0 (1#2) (cup_frame 500) false
     = (Ok (Continue (with_prev_lift (Some 0%Q)
                        (with_prev_target_mask None initial_vars))), false,
        [ArmTo [bx; 0; 0; 0; wp; 0]%Q true; SleepFor (2#10)])
     ∧ (bx <= 0 - (12#100) * (1#4))%Q
     ∧ wp = 0%Q)
  ∧ (∃ lift' arm' v',
       approach (idx:=sample_idx) (trig:=sample_trig) cup_config initial_vars
         (uniform 12 12 true) (0, 0, 0, 0)%Q 0 0 (1#2) (cup_frame 500) false
       = (Ok (Continue v'), false,
          [ArmTo [0; lift'; arm'; 0; 0; 0]%Q true; SleepFor (2#10)])
       ∧ (lift' == 0 + np_sin (Trig:=sample_trig) 0 * (1#10))%Q
       ∧ (arm' == 0 + np_cos (Trig:=sample_trig) 0 * (1#10))%Q
       ∧ aligned_once v' = true).
Proof.
  split.
  - destruct (approach_step (idx:=sample_idx) (trig:=sample_trig) cup_config
                initial_vars (uniform 12 12 true) 0 0 0 0 20 0 (1#2)
                (cup_frame 500) false) as [H _].
    + unfold cup_config, default_config. simpl. lra.
    + unfold cup_config, default_config. simpl. lra.
    + unfold cup_config, default_config. simpl. lia.
    + unfold cup_config, default_config. simpl. lia.
    + destruct H as (bx & wp & Hrun & Hbx & _ & _ & _ & _ & Hwp); [reflexivity|].
      exists bx, wp. split; [exact Hrun|]. split.
      * apply Hbx. reflexivity.
      * apply Hwp. split; discriminate.
  - destruct (approach_step (idx:=sample_idx) (trig:=sample_trig) cup_config
                initial_vars (uniform 12 12 true) 0 0 0 0 0 0 (1#2)
                (cup_frame 500) false) as [_ H].
    + unfold cup_config, default_config. simpl. lra.
    + unfold cup_config, default_config. simpl. lra.
    + unfold cup_config, default_config. simpl. lia.
    + unfold cup_config, default_config. simpl. lia.
    + destruct H as (lift' & arm' & v' & Hrun & Hl & Ha & Hal & _);
        [reflexivity..|].
      exists lift', arm', v'. split; [exact Hrun|]. split; [exact Hl|].
      split; [exact Ha|exact Hal].
Defined.

Lemma open_loop_grasp_sequence_witness :
  let run := grasp_open_loop (idx:=sample_idx) (kin:=reachable_kinematics)
               cup_config bare_table (Some [1; 2; 3]%Q) false in
  run.1.1 = Ok None ∧ was_successful run.1.2 = true.
Proof.
  destruct (open_loop_grasp_sequence (idx:=sample_idx) (kin:=reachable_kinematics)
              cup_config bare_table (Some [1; 2; 3]%Q) false
              [0; 0; 0; 3 # 10; 2 # 10; 0; 0; 0; 0; 0; 0]%Q
              [(-1) # 25; 0; 0; 3 # 10; 2 # 10; 0; 0; 0; 0; 0; 0]%Q
              [(-1) # 25; 0; 0; 1 # 2; 2 # 10; 0; 0; 0; 0; 0; 0]%Q
              true 0 (2 # 10) (3 # 10)) as (H1 & H2 & _); try reflexivity.
  split; [exact H1|]. apply H2. split; [reflexivity|]. split; discriminate.
Defined.

Lemma open_loop_switch_breaks_approach_witness :
  servo_body (idx:=sample_idx) (trig:=sample_trig) (sensor:=sample_sensor)
    (kin:=sample_kinematics) (open_loop_config "cup") initial_vars
    (cup_frame 400) false
  = (Raise NameError, false, []).
Proof.
  destruct (open_loop_switch_breaks_approach (idx:=sample_idx)
              (trig:=sample_trig) (sensor:=sample_sensor) (kin:=sample_kinematics)
              (open_loop_config "cup") initial_vars (cup_frame 400) false
              (uniform 12 12 true) 400 true) as [H _].
  - reflexivity.
  - intros s'. vm_compute. reflexivity.
  - reflexivity.
  - apply H.
    + vm_compute. reflexivity.
    + vm_compute. reflexivity.
    + unfold turn_in_order. split; [reflexivity|]. split; [|reflexivity].
      vm_compute. eexists. reflexivity.
    + reflexivity.
Defined.

Lemma run_reports_own_attempt_witness :
  run (idx:=sample_idx) (trig:=sample_trig) (sensor:=sample_sensor)
    (kin:=reachable_kinematics) (glib:=sample_grasp_library)
    (default_run_config "cup") lost_object_input None
  = (Ok tt,
     Some (open_loop_of (idx:=sample_idx) (kin:=reachable_kinematics)
             (default_run_config "cup") lost_object_input false).1.2,
     [Robot (ArmTo [0; 0; 0; 0; 0; 0; 0; (-11) # 7; 0; 0; 0]%Q true)]
     ++ (Robot <$> (open_loop_of (idx:=sample_idx) (kin:=reachable_kinematics)
                      (default_run_config "cup") lost_object_input false).2)).
Proof.
  destruct (run_reports_own_attempt (idx:=sample_idx) (trig:=sample_trig)
              (sensor:=sample_sensor) (kin:=reachable_kinematics)
              (glib:=sample_grasp_library) (default_run_config "cup")
              lost_object_input None (Some false)
              [Robot (ArmTo [0; 0; 0; 0; 0; 0; 0; (-11) # 7; 0; 0; 0]%Q true)])
    as (_ & _ & _ & H).
  - vm_compute. reflexivity.
  - apply H; reflexivity.
Defined.

Lemma run_repeats_open_loop_grasp_witness :
  let result := run (idx:=sample_idx) (trig:=sample_trig) (sensor:=sample_sensor)
                  (kin:=reachable_kinematics) (glib:=sample_grasp_library)
                  (servo_run_config "cup") lost_object_input None in
  length (ik_calls (robot_commands result.2)) = 2%nat
  ∧ gripper_closings (robot_commands result.2) = 2%nat.
Proof.
  cbv zeta.
  destruct (run_repeats_open_loop_grasp (idx:=sample_idx) (trig:=sample_trig)
              (sensor:=sample_sensor) (kin:=reachable_kinematics)
              (glib:=sample_grasp_library) (servo_run_config "cup")
              lost_object_input None (Some false)
              [Robot (ArmTo [0; 0; 0; 0; 0; 0; 0; (-11) # 7; 0; 0; 0]%Q true)])
    as (H1 & _ & _ & H4 & _).
  - vm_compute. reflexivity.
  - reflexivity.
  - vm_compute. reflexivity.
  - split; [rewrite H1; vm_compute; reflexivity|].
    rewrite H4. vm_compute. reflexivity.
Defined.

End GraspMoreProps.

(** * Properties of the search operations *)

Module SearchOperationProps.
Import GraspObject SearchOperation.

Lemma set_class_unset (c : string) (op : search_op) :
  op_class op ≠ SearchForObjectOnFloorOperation →
  _object_class op = None →
  set_target_object_class c op = (Raise ValueError, op).
Proof.
  intros Hk H. unfold set_target_object_class, object_class. rewrite H.
  by destruct (op_class op).
Qed.

Lemma set_classes_unset (cs : list string) (op : search_op) :
  op_class op ≠ SearchForObjectOnFloorOperation →
  _object_class op = None → set_classes cs op = op.
Proof.
  unfold set_classes. induction cs as [|c cs IH]; intros Hk H; [done|].
  cbn [fold_left]. rewrite set_class_unset by done. by apply IH.
Qed.

(** X18.  The setter of the target class quotes the current class in its
    warning.  On the classes that read it through the property of the
    base class, reading raises when no class is set: there the setter
    raises [ValueError] on an operation without a class and assigns
    nothing, so no sequence of calls of the setter gives a fresh
    operation a class; on an operation that has a class it replaces the
    class and forgets the cached feature vector.  On
    [SearchForObjectOnFloorOperation], whose attribute [object_class]
    takes the place of the property, the setter never raises and stores
    the class in [_object_class], but [self.object_class] reads as
    before: a fresh operation still has no class after [run] has set
    one, and [run] sets it again each time. *)
Theorem setter_reads_object_class (cs : list string) (c : string)
    (op : search_op) (method : string) (k : search_class) :
  (op_class op ≠ SearchForObjectOnFloorOperation → _object_class op = None →
   set_target_object_class c op = (Raise ValueError, op))
  ∧ (k ≠ SearchForObjectOnFloorOperation →
     set_classes cs (new_search_op k method) = new_search_op k method
     ∧ object_class (set_classes cs (new_search_op k method)) = Raise ValueError)
  ∧ (op_class op ≠ SearchForObjectOnFloorOperation →
     ∀ c0, _object_class op = Some c0 →
       set_target_object_class c op
       = (Ok tt, SearchOp (op_class op) (Some c) None (object_class_attribute op)
                   (match_method op)))
  ∧ (op_class op = SearchForObjectOnFloorOperation →
     set_target_object_class c op
     = (Ok tt, SearchOp SearchForObjectOnFloorOperation (Some c) None
                 (object_class_attribute op) (match_method op))
     ∧ object_class (set_target_object_class c op).2 = object_class op)
  ∧ (let fresh := new_search_op SearchForObjectOnFloorOperation method in
     let once := SearchOp SearchForObjectOnFloorOperation (Some c) None None
                   method in
     run_sets_class c fresh = (Ok tt, once)
     ∧ object_class once = Ok None
     ∧ ∀ c', run_sets_class c' once
             = (Ok tt, SearchOp SearchForObjectOnFloorOperation (Some c') None
                         None method)).
Proof.
  split_and!.
  - apply set_class_unset.
  - intros Hk. rewrite set_classes_unset by done.
    split; [done|]. unfold object_class. by destruct k.
  - intros Hk c0 H. unfold set_target_object_class, object_class. rewrite H.
    by destruct (op_class op).
  - intros Hk. unfold set_target_object_class, object_class. rewrite Hk.
    cbn [op_class object_class_attribute]. done.
  - done.
Qed.

Section Matching.
Context {sensor : SemanticSensor}.
Context (is_match_by_feature : search_op → outcome (option bool) * search_op).

(** X19.  Matching by class never changes the operation.  On
    [SearchForObjectOnFloorOperation] it raises [TypeError] for every
    instance as long as the attribute [object_class] is [None]
    ([None in name]), and so it does on a fresh operation after [run]
    has set the class.  The receptacle search matches exactly when the
    name of the category contains [box] or [tray], and raises
    [TypeError] for a category without a name.  An operation of the base
    class raises [ValueError] when it has no class and [TypeError] for a
    category without a name (where the class mask of the grasp operation
    treats such a label as no match); else it matches exactly when the
    name contains its class.  With a match method other than [feature]
    and [class] the answer is [None] for every instance. *)
Theorem match_by_class (op : search_op) (category_id : Z) :
  match_method op = "class" →
  let result := is_match is_match_by_feature op category_id in
  result.2 = op
  ∧ (op_class op = SearchForObjectOnFloorOperation →
     object_class_attribute op = None → result.1 = Raise TypeError)
  ∧ (∀ c, (is_match is_match_by_feature
             (run_sets_class c
                (new_search_op SearchForObjectOnFloorOperation "class")).2
             category_id).1 = Raise TypeError)
  ∧ (op_class op = SearchForReceptacleOperation →
     match get_class_name_for_id category_id with
     | Some name =>
         result.1 = Ok (Some (str_in "box" name || str_in "tray" name))
     | None => result.1 = Raise TypeError
     end)
  ∧ (op_class op = ManagedSearchOperation →
     match _object_class op, get_class_name_for_id category_id with
     | None, _ => result.1 = Raise ValueError
     | Some c, None =>
         result.1 = Raise TypeError
         ∧ is_target_class c category_id = false
     | Some c, Some name =>
         result.1 = Ok (Some (str_in c name))
         ∧ str_in c name = is_target_class c category_id
     end)
  ∧ (∀ op',
       match_method op' ≠ "feature" → match_method op' ≠ "class" →
       is_match is_match_by_feature op' category_id = (Ok None, op')).
Proof.
  intros Hm. cbv zeta. unfold is_match. rewrite Hm.
  cbn [String.eqb Ascii.eqb Bool.eqb].
  split_and!.
  - by destruct (is_name_match op _).
  - intros Hk Ha. unfold is_name_match, object_class. rewrite Hk, Ha.
    by destruct (get_class_name_for_id category_id).
  - intros c. cbn. unfold is_name_match, object_class. cbn.
    by destruct (get_class_name_for_id category_id).
  - intros Hk. unfold is_name_match. rewrite Hk.
    by destruct (get_class_name_for_id category_id).
  - intros Hk. unfold is_name_match, object_class, is_target_class. rewrite Hk.
    destruct (_object_class op) as [c|]; [|done].
    by destruct (get_class_name_for_id category_id).
  - intros op' H1 H2.
    destruct (String.eqb_spec (match_method op') "feature"); [done|].
    destruct (String.eqb_spec (match_method op') "class"); [done|]. done.
Qed.

End Matching.

Lemma match_by_class_witness :
  (is_match (sensor:=sample_sensor) (λ op, (Ok None, op))
     (SearchOp SearchForObjectOnFloorOperation (Some "cup") None None "class")
     7).1
  = Raise TypeError
  ∧ get_class_name_for_id (SemanticSensor:=sample_sensor) 7 = Some "coffee cup".
Proof.
  destruct (match_by_class (sensor:=sample_sensor) (λ op, (Ok None, op))
              (SearchOp SearchForObjectOnFloorOperation (Some "cup") None None
                 "class") 7) as (_ & H & _).
  - reflexivity.
  - split; [|reflexivity]. apply H; reflexivity.
Defined.

End SearchOperationProps.

(** * Properties of the plan compiler *)

Module PlanCompilerProps.
Import PlanCompiler.

Lemma stmt_first_ind (P : stmt → Prop) :
  (∀ test body orelse,
     match body with b :: _ => P b | [] => True end →
     match orelse with b :: _ => P b | [] => True end →
     P (If test body orelse)) →
  (∀ value, P (Expr value)) →
  (∀ body, match body with b :: _ => P b | [] => True end → P (FunctionDef body)) →
  P OtherStmt →
  ∀ s, P s.
Proof.
  intros HIf HExpr HDef HOther. fix IH 1.
  intros [test body orelse|value|body|].
  - apply HIf.
    + destruct body as [|b rest]; [exact I|apply IH].
    + destruct orelse as [|b rest]; [exact I|apply IH].
  - apply HExpr.
  - apply HDef. destruct body as [|b rest]; [exact I|apply IH].
  - apply HOther.
Qed.

Lemma build_tree_stmt_first_only (s : stmt) :
  build_tree_stmt (first_only s) = build_tree_stmt s.
Proof.
  induction s as [test body orelse Hb Ho|value|body Hb|] using stmt_first_ind;
    cbn [first_only build_tree_stmt].
  - destruct test as [c|]; [|done].
    destruct body as [|b rest], orelse as [|o rest']; by rewrite ?Hb, ?Ho.
  - done.
  - destruct body as [|b rest]; [done|]. by rewrite Hb.
  - done.
Qed.

Lemma build_tree_stmt_errors (s : stmt) :
  build_tree_stmt s ≠ OutOfFuel
  ∧ ∀ e, build_tree_stmt s = Raise e → e = ValueError.
Proof.
  induction s as [test body orelse Hb Ho|value|body Hb|] using stmt_first_ind;
    cbn [build_tree_stmt].
  - destruct test as [c|]; [|split; [done|congruence]].
    destruct body as [|b rest], orelse as [|o rest'];
      repeat match goal with
             | H : _ ∧ _ |- _ => destruct H
             | |- context [build_tree_stmt ?x] => destruct (build_tree_stmt x) eqn:?
             end;
      split; try done; try congruence; intros e' [= <-]; auto.
  - destruct value; split; (done || congruence).
  - destruct body as [|b rest]; [split; [done|congruence]|done].
  - split; [done|congruence].
Qed.

(** X20.  [build_tree] looks at the first statement of every block only:
    of a module, of a function definition, and of both branches of an
    [if].  The tree of calls it builds is the tree of the plan with every
    block cut down to its first statement, so the statements that follow
    the first one in a block never reach the task.  The only error it
    raises is [ValueError]; it does so for an empty module and for a
    first statement that is neither an [if] on a call, nor a call, nor a
    function definition. *)
Theorem build_tree_reads_first_statements (n : node) :
  build_tree n = build_tree (first_only_node n)
  ∧ build_tree n ≠ OutOfFuel
  ∧ (∀ e, build_tree n = Raise e → e = ValueError)
  ∧ build_tree (Module []) = Raise ValueError
  ∧ (∀ s rest, build_tree (Module (s :: rest)) = build_tree (Stmt s))
  ∧ build_tree two_step_plan = Ok (Node "go_to('kitchen')" None None).
Proof.
  split_and!; [| | |done|done|done].
  - destruct n as [[|b rest]|s]; cbn [build_tree first_only_node]; [done|..];
      by rewrite build_tree_stmt_first_only.
  - destruct n as [[|b rest]|s]; cbn [build_tree]; [done|..];
      apply build_tree_stmt_errors.
  - destruct n as [[|b rest]|s]; cbn [build_tree]; [congruence|..];
      apply build_tree_stmt_errors.
Qed.

End PlanCompilerProps.
